(** * threejs-cannones-rigger: a shallow embedding of the scene rigger

    The development follows [threejs-cannones-rigger.ts]: the metadata
    normalisation done at the top of [rigScene], the body builder
    ([createCollider], [addCompoundShapes]), the constraint builder (the
    second traversal of [rigScene] and its [create...] helpers), the Rig
    Session bookkeeping ([clear], [getBodyByName], [getCustomConstraint])
    and the constraint classes ([ThreeJsCannonEsConstraint],
    [SyncConstraint], [CableConstraint]).

    JavaScript numbers that carry tags and bit masks are integers ([Z], with
    the 32-bit wrap-around of the bit operators written out); numbers that
    carry geometry are idealised as real numbers ([R]), so the statements
    about poses are statements of exact arithmetic.  What three.js,
    cannon-es and threejs-cannones-tube do behind the calls of the rigger
    is kept to the part of their interface the rigger relies on; the
    operations of three.js on vectors, quaternions and matrices that the
    rigger calls are written out. *)

From Stdlib Require Import ZArith Reals Lra Lia List String RNsatz.
From stdpp Require Import gmap strings list.
Import ListNotations.

Set Warnings "-register-all".

(** ** JavaScript integers: the operators [|] and [<<] *)

Module JS.

(** [ToInt32]: reduction modulo 2^32 into the signed range. *)
Definition toInt32 (z : Z) : Z := ((z + 2 ^ 31) mod 2 ^ 32 - 2 ^ 31)%Z.

(** [a << b]: both operands are converted, the shift count is taken
      modulo 32 and the result wraps around. *)
Definition shl (a b : Z) : Z :=
    toInt32 (Z.shiftl (toInt32 a) (Z.land (toInt32 b) 31)).

(** [a | b]. *)
Definition bor (a b : Z) : Z := toInt32 (Z.lor (toInt32 a) (toInt32 b)).

(** The numbers a 32-bit operator returns. *)
Definition int32 (z : Z) : Prop := (- 2 ^ 31 <= z < 2 ^ 31)%Z.

End JS.

(** ** The tag enumeration and the string table *)

(** [enum Type]: a numeric enum, its members are the numbers 0 to 10. *)
Module RigType.
Definition Nothing : Z := 0.
Definition BoxCollider : Z := 1.
Definition SphereCollider : Z := 2.
Definition CompoundCollider : Z := 3.
Definition LockConstraint : Z := 4.
Definition HingeConstraint : Z := 5.
Definition PointConstraint : Z := 6.
Definition DistanceConstraint : Z := 7.
Definition SyncLocRot : Z := 8.
Definition Cable : Z := 9.
Definition Custom : Z := 10.
End RigType.

(** [TypeAsString]: the table used when the exporter wrote the tag as a
    string. *)
Definition TypeAsString : list (string * Z) :=
  [ ("x", RigType.Nothing);
    ("box", RigType.BoxCollider);
    ("sphere", RigType.SphereCollider);
    ("compound", RigType.CompoundCollider);
    ("lock", RigType.LockConstraint);
    ("hinge", RigType.HingeConstraint);
    ("point", RigType.PointConstraint);
    ("dist", RigType.DistanceConstraint);
    ("sync", RigType.SyncLocRot);
    ("tube", RigType.Cable);
    ("custom", RigType.Custom) ]%string.

(** Property access [table[key]]: [None] stands for [undefined]. *)
Fixpoint js_get (table : list (string * Z)) (key : string) : option Z :=
  match table with
  | [] => None
  | (k, v) :: rest => if String.eqb k key then Some v else js_get rest key
  end.

(** ** Annotation values *)

(** The value of [userData.threejscannones_type]: absent, a number or a
    string. *)
Inductive JSTag :=
  | TagUndefined
  | TagNumber (n : Z)
  | TagString (s : string).

(** The value of [userData.threejscannones_cgroup] and [..._cwith] when
    present: a number or an array of numbers. *)
Inductive Flags :=
  | FlagsNumber (n : Z)
  | FlagsArray (flags : list Z).

(** Truthiness of an optional [Flags] value: [undefined] and [0] are falsy,
    every array (the empty one too) is truthy. *)
Definition truthy (v : option Flags) : bool :=
  match v with
  | None => false
  | Some (FlagsNumber n) => negb (n =? 0)%Z
  | Some (FlagsArray _) => true
  end.

(** [flags.reduce((mask, bit, idx) => mask | (bit << idx), 0)], the index
    being threaded by hand. *)
Fixpoint reduce_mask (flags : list Z) (idx : Z) (mask : Z) : Z :=
  match flags with
  | [] => mask
  | bit :: rest => reduce_mask rest (idx + 1) (JS.bor mask (JS.shl bit idx))
  end.

(** [arrayToBitmask(flags, flagsArray)]. *)
Definition arrayToBitmask (flags : Flags) (flagsArray : option (list Z)) : Z :=
  let flags :=
    match flags with
    | FlagsNumber _ => match flagsArray with Some a => a | None => [] end
    | FlagsArray a => a
    end in
  if (Z.of_nat (length flags) =? 0)%Z then 0%Z
  else reduce_mask flags 0 0.

(** A reference to another node, as the exporter leaves it in [userData]:
    only its [name] is read. *)
Record Ref := mkRef { ref_name : option string }.

(** [A?.name]. *)
Definition opt_name (r : option Ref) : option string :=
  match r with
  | None => None
  | Some r => ref_name r
  end.

Record UserData := mkUserData {
  name : option string;
  threejscannones_type : JSTag;
  threejscannones_cgroup : option Flags;
  threejscannones_cgroup_array : option (list Z);
  threejscannones_cwith : option Flags;
  threejscannones_cwith_array : option (list Z);
  threejscannones_mass : option R;
  threejscannones_A : option Ref;
  threejscannones_B : option Ref;
  threejscannones_syncSource : option Ref;
  threejscannones_customId : option string
  }.

(** *** The Metadata Normalizer: the first lines of the callback of the
    first traversal in [rigScene] *)

Definition normalizeType (t : JSTag) : JSTag :=
  match t with
  | TagString s =>
      match js_get TypeAsString s with
      | Some n => TagNumber n
      | None => TagUndefined
      end
  | _ => t
  end.

Definition normalizeFlags (v : option Flags) (arr : option (list Z))
  : option Flags :=
  match v with
  | Some f => if truthy v then Some (FlagsNumber (arrayToBitmask f arr)) else v
  | None => v
  end.

Definition normalizeUserData (u : UserData) : UserData :=
  {| name := name u;
     threejscannones_type := normalizeType (threejscannones_type u);
     threejscannones_cgroup :=
       normalizeFlags (threejscannones_cgroup u) (threejscannones_cgroup_array u);
     threejscannones_cgroup_array := threejscannones_cgroup_array u;
     threejscannones_cwith :=
       normalizeFlags (threejscannones_cwith u) (threejscannones_cwith_array u);
     threejscannones_cwith_array := threejscannones_cwith_array u;
     threejscannones_mass := threejscannones_mass u;
     threejscannones_A := threejscannones_A u;
     threejscannones_B := threejscannones_B u;
     threejscannones_syncSource := threejscannones_syncSource u;
     threejscannones_customId := threejscannones_customId u |}.

(** [t == n] and [case n:] for a tag value and a member of the enumeration.
    The callback normalises the tag before it compares it, so the value is
    a number or [undefined] at every comparison. *)
Definition tag_is (t : JSTag) (n : Z) : bool :=
  match t with
  | TagNumber m => (m =? n)%Z
  | _ => false
  end.

(** ** Vectors, quaternions and matrices

    [Vector3], [Quaternion] and [Matrix4] of three.js; cannon-es's [Vec3]
    and [Quaternion] hold the same components and the rigger converts
    between them component by component, so one type serves both. *)

Module Vector3.

Record t := mk { x : R; y : R; z : R }.

Definition zero : t := mk 0 0 0.

Definition sub (a b : t) : t := mk (x a - x b) (y a - y b) (z a - z b).

Definition add (a b : t) : t := mk (x a + x b) (y a + y b) (z a + z b).

Definition distanceToSquared (a b : t) : R :=
  let dx := (x a - x b)%R in
  let dy := (y a - y b)%R in
  let dz := (z a - z b)%R in
  (dx * dx + dy * dy + dz * dz)%R.

Definition distanceTo (a b : t) : R := sqrt (distanceToSquared a b).


End Vector3.

(** [a > b] and [a < b] on numbers. *)
Definition gt (a b : R) : bool := if Rlt_dec b a then true else false.
Definition lt (a b : R) : bool := if Rlt_dec a b then true else false.

Module Quaternion.

Record t := mk { x : R; y : R; z : R; w : R }.

(** [new Quaternion()]. *)
Definition identity : t := mk 0 0 0 1.

(** [invert()] is [conjugate()]: the quaternion is taken to have unit
    length. *)
Definition invert (q : t) : t := mk (- x q) (- y q) (- z q) (w q).

(** [a.multiply(b)], that is [multiplyQuaternions(a, b)]. *)
Definition multiply (a b : t) : t :=
  mk (x a * w b + w a * x b + y a * z b - z a * y b)
     (y a * w b + w a * y b + z a * x b - x a * z b)
     (z a * w b + w a * z b + x a * y b - y a * x b)
     (w a * w b - x a * x b - y a * y b - z a * z b).




End Quaternion.

(** [v.applyQuaternion(q)]. *)
Definition applyQuaternion (v : Vector3.t) (q : Quaternion.t) : Vector3.t :=
  let vx := Vector3.x v in
  let vy := Vector3.y v in
  let vz := Vector3.z v in
  let qx := Quaternion.x q in
  let qy := Quaternion.y q in
  let qz := Quaternion.z q in
  let qw := Quaternion.w q in
  let tx := (2 * (qy * vz - qz * vy))%R in
  let ty := (2 * (qz * vx - qx * vz))%R in
  let tz := (2 * (qx * vy - qy * vx))%R in
  Vector3.mk (vx + qw * tx + qy * tz - qz * ty)
             (vy + qw * ty + qz * tx - qx * tz)
             (vz + qw * tz + qx * ty - qy * tx).

Module Matrix4.

(** The world matrix of a scene node is affine: its last row is
    (0, 0, 0, 1) and is left out. The fields are named after the indices
    of three.js's column-major [elements]. *)
Record t := mk {
  e0 : R; e4 : R; e8 : R;  e12 : R;
  e1 : R; e5 : R; e9 : R;  e13 : R;
  e2 : R; e6 : R; e10 : R; e14 : R
}.

Definition identity : t := mk 1 0 0 0  0 1 0 0  0 0 1 0.

(** [makeTranslation]. *)
Definition translation (p : Vector3.t) : t :=
  mk 1 0 0 (Vector3.x p)  0 1 0 (Vector3.y p)  0 0 1 (Vector3.z p).

(** [v.setFromMatrixPosition(m)]. *)
Definition position (m : t) : Vector3.t := Vector3.mk (e12 m) (e13 m) (e14 m).

(** [m.compose(position, quaternion, scale)]. *)
Definition compose (position : Vector3.t) (quaternion : Quaternion.t)
    (scale : Vector3.t) : t :=
  let x := Quaternion.x quaternion in
  let y := Quaternion.y quaternion in
  let z := Quaternion.z quaternion in
  let w := Quaternion.w quaternion in
  let x2 := (x + x)%R in
  let y2 := (y + y)%R in
  let z2 := (z + z)%R in
  let xx := (x * x2)%R in
  let xy := (x * y2)%R in
  let xz := (x * z2)%R in
  let yy := (y * y2)%R in
  let yz := (y * z2)%R in
  let zz := (z * z2)%R in
  let wx := (w * x2)%R in
  let wy := (w * y2)%R in
  let wz := (w * z2)%R in
  let sx := Vector3.x scale in
  let sy := Vector3.y scale in
  let sz := Vector3.z scale in
  mk ((1 - (yy + zz)) * sx) ((xy - wz) * sy) ((xz + wy) * sz)
       (Vector3.x position)
     ((xy + wz) * sx) ((1 - (xx + zz)) * sy) ((yz - wx) * sz)
       (Vector3.y position)
     ((xz - wy) * sx) ((yz + wx) * sy) ((1 - (xx + yy)) * sz)
       (Vector3.z position).

(** [m.multiplyMatrices(a, b)]: the product of [a] and [b]. *)
Definition multiplyMatrices (a b : t) : t :=
  mk (e0 a * e0 b + e4 a * e1 b + e8 a * e2 b)
     (e0 a * e4 b + e4 a * e5 b + e8 a * e6 b)
     (e0 a * e8 b + e4 a * e9 b + e8 a * e10 b)
     (e0 a * e12 b + e4 a * e13 b + e8 a * e14 b + e12 a)
     (e1 a * e0 b + e5 a * e1 b + e9 a * e2 b)
     (e1 a * e4 b + e5 a * e5 b + e9 a * e6 b)
     (e1 a * e8 b + e5 a * e9 b + e9 a * e10 b)
     (e1 a * e12 b + e5 a * e13 b + e9 a * e14 b + e13 a)
     (e2 a * e0 b + e6 a * e1 b + e10 a * e2 b)
     (e2 a * e4 b + e6 a * e5 b + e10 a * e6 b)
     (e2 a * e8 b + e6 a * e9 b + e10 a * e10 b)
     (e2 a * e12 b + e6 a * e13 b + e10 a * e14 b + e14 a).

(** [m.premultiply(a)]: [a] times [m]. *)
Definition premultiply (m a : t) : t := multiplyMatrices a m.

(** [m.determinant()]: with the last row (0, 0, 0, 1) it is the
    determinant of the upper left 3x3 part. *)
Definition determinant (m : t) : R :=
  (e0 m * (e5 m * e10 m - e9 m * e6 m)
   - e4 m * (e1 m * e10 m - e9 m * e2 m)
   + e8 m * (e1 m * e6 m - e5 m * e2 m))%R.

(** [m.invert()]: the cofactors over the determinant, and the matrix of
    zeros when the determinant is 0. With the last row (0, 0, 0, 1) the
    inverse has that last row too; the matrix of zeros, which has not, is
    followed no further here. *)
Definition invert (m : t) : t :=
  let det := determinant m in
  if Req_dec_T det 0 then mk 0 0 0 0  0 0 0 0  0 0 0 0
  else
    let detInv := (1 / det)%R in
    let i0 := ((e5 m * e10 m - e9 m * e6 m) * detInv)%R in
    let i4 := ((e8 m * e6 m - e4 m * e10 m) * detInv)%R in
    let i8 := ((e4 m * e9 m - e8 m * e5 m) * detInv)%R in
    let i1 := ((e9 m * e2 m - e1 m * e10 m) * detInv)%R in
    let i5 := ((e0 m * e10 m - e8 m * e2 m) * detInv)%R in
    let i9 := ((e8 m * e1 m - e0 m * e9 m) * detInv)%R in
    let i2 := ((e1 m * e6 m - e5 m * e2 m) * detInv)%R in
    let i6 := ((e4 m * e2 m - e0 m * e6 m) * detInv)%R in
    let i10 := ((e0 m * e5 m - e4 m * e1 m) * detInv)%R in
    mk i0 i4 i8 (- (i0 * e12 m + i4 * e13 m + i8 * e14 m))
       i1 i5 i9 (- (i1 * e12 m + i5 * e13 m + i9 * e14 m))
       i2 i6 i10 (- (i2 * e12 m + i6 * e13 m + i10 * e14 m)).

(** [q.setFromRotationMatrix(m)], of [Quaternion]: the upper left 3x3
    part of [m] is taken to be a rotation matrix. *)
Definition setFromRotationMatrix (m : t) : Quaternion.t :=
  let m11 := e0 m in
  let m12 := e4 m in
  let m13 := e8 m in
  let m21 := e1 m in
  let m22 := e5 m in
  let m23 := e9 m in
  let m31 := e2 m in
  let m32 := e6 m in
  let m33 := e10 m in
  let trace := (m11 + m22 + m33)%R in
  if gt trace 0 then
    let s := (0.5 / sqrt (trace + 1))%R in
    Quaternion.mk ((m32 - m23) * s) ((m13 - m31) * s) ((m21 - m12) * s)
                  (0.25 / s)
  else if gt m11 m22 && gt m11 m33 then
    let s := (2 * sqrt (1 + m11 - m22 - m33))%R in
    Quaternion.mk (0.25 * s) ((m12 + m21) / s) ((m13 + m31) / s)
                  ((m32 - m23) / s)
  else if gt m22 m33 then
    let s := (2 * sqrt (1 + m22 - m11 - m33))%R in
    Quaternion.mk ((m12 + m21) / s) (0.25 * s) ((m23 + m32) / s)
                  ((m13 - m31) / s)
  else
    let s := (2 * sqrt (1 + m33 - m11 - m22))%R in
    Quaternion.mk ((m13 + m31) / s) ((m23 + m32) / s) (0.25 * s)
                  ((m21 - m12) / s).

(** [m.decompose(position, quaternion, scale)]: the three results. *)
Definition decompose (m : t) : Vector3.t * Quaternion.t * Vector3.t :=
  let sx := sqrt (e0 m * e0 m + e1 m * e1 m + e2 m * e2 m) in
  let sy := sqrt (e4 m * e4 m + e5 m * e5 m + e6 m * e6 m) in
  let sz := sqrt (e8 m * e8 m + e9 m * e9 m + e10 m * e10 m) in
  let sx := if lt (determinant m) 0 then (- sx)%R else sx in
  let invSX := (1 / sx)%R in
  let invSY := (1 / sy)%R in
  let invSZ := (1 / sz)%R in
  let m1 :=
    mk (e0 m * invSX) (e4 m * invSY) (e8 m * invSZ) (e12 m)
       (e1 m * invSX) (e5 m * invSY) (e9 m * invSZ) (e13 m)
       (e2 m * invSX) (e6 m * invSY) (e10 m * invSZ) (e14 m) in
  (position m, setFromRotationMatrix m1, Vector3.mk sx sy sz).

End Matrix4.

(** [v.applyMatrix4(m)] for an affine [m] (the perspective divisor is 1). *)
Definition applyMatrix4 (v : Vector3.t) (m : Matrix4.t) : Vector3.t :=
  let x := Vector3.x v in
  let y := Vector3.y v in
  let z := Vector3.z v in
  Vector3.mk
    (Matrix4.e0 m * x + Matrix4.e4 m * y + Matrix4.e8 m * z + Matrix4.e12 m)
    (Matrix4.e1 m * x + Matrix4.e5 m * y + Matrix4.e9 m * z + Matrix4.e13 m)
    (Matrix4.e2 m * x + Matrix4.e6 m * y + Matrix4.e10 m * z + Matrix4.e14 m).

(** ** Scene nodes *)

Module Object3D.

(** A node of the scene graph. [id] stands for the identity of the
    JavaScript object. [matrixWorld], [worldQuaternion] and [worldScale] are
    what three.js has for the node when the rigger asks: the world matrix
    after [updateWorldMatrix], and the results of [getWorldQuaternion] and
    [getWorldScale]. [parent] is [Some] when the node has a parent, and
    then holds the world matrix the parent has while [rigScene] runs;
    [update], which runs later, does not take the parent's matrix from
    here. *)
Inductive t := mk {
  id : nat;
  name : string;
  userData : UserData;
  visible : bool;
  position : Vector3.t;
  quaternion : Quaternion.t;
  scale : Vector3.t;
  matrixWorld : Matrix4.t;
  worldQuaternion : Quaternion.t;
  worldScale : Vector3.t;
  parent : option Matrix4.t;
  children : list t
}.

Definition set_userData (o : t) (u : UserData) : t :=
  mk (id o) (name o) u (visible o) (position o) (quaternion o) (scale o)
     (matrixWorld o) (worldQuaternion o) (worldScale o) (parent o) (children o).

Definition set_visible (o : t) (b : bool) : t :=
  mk (id o) (name o) (userData o) b (position o) (quaternion o) (scale o)
     (matrixWorld o) (worldQuaternion o) (worldScale o) (parent o) (children o).

(** Assignment of the local pose ([position] and [quaternion]). *)
Definition set_pose (o : t) (p : Vector3.t) (q : Quaternion.t) : t :=
  mk (id o) (name o) (userData o) (visible o) p q (scale o)
     (matrixWorld o) (worldQuaternion o) (worldScale o) (parent o) (children o).

(** [o.getWorldPosition(target)]. *)
Definition getWorldPosition (o : t) : Vector3.t :=
  Matrix4.position (matrixWorld o).

(** [o.getWorldQuaternion(target)]. *)
Definition getWorldQuaternion (o : t) : Quaternion.t := worldQuaternion o.

(** [o.getWorldScale(target)]. *)
Definition getWorldScale (o : t) : Vector3.t := worldScale o.

(** [o.localToWorld(v)]. *)
Definition localToWorld (o : t) (v : Vector3.t) : Vector3.t :=
  applyMatrix4 v (matrixWorld o).




(** The world pose of the node, as the two getters give it. *)
Definition worldPose (o : t) : Vector3.t * Quaternion.t :=
  (getWorldPosition o, getWorldQuaternion o).

(** [o.traverse(callback)]: the node, then its children in order, each
    with its own subtree. *)
Fixpoint traverse (o : t) : list t :=
  o :: (fix traverse_all (l : list t) : list t :=
          match l with
          | [] => []
          | c :: rest => traverse c ++ traverse_all rest
          end) (children o).

End Object3D.

(** ** The physics side: cannon-es bodies, constraints and the world *)

Inductive Shape :=
| Box (halfExtents : Vector3.t)
| Sphere (radius : R).

Module Body.

Record t := mk {
  shapes : list Shape;
  shapeOffsets : list Vector3.t;
  shapeOrientations : list Quaternion.t;
  mass : R;
  collisionFilterGroup : Z;
  collisionFilterMask : Z;
  position : Vector3.t;
  quaternion : Quaternion.t
}.

(** [body.addShape(shape, offset, orientation)]. *)
Definition addShape (b : t) (s : Shape) (offset : Vector3.t)
    (orientation : Quaternion.t) : t :=
  mk (shapes b ++ [s]) (shapeOffsets b ++ [offset])
     (shapeOrientations b ++ [orientation])
     (mass b) (collisionFilterGroup b) (collisionFilterMask b)
     (position b) (quaternion b).

Definition set_pose (b : t) (p : Vector3.t) (q : Quaternion.t) : t :=
  mk (shapes b) (shapeOffsets b) (shapeOrientations b)
     (mass b) (collisionFilterGroup b) (collisionFilterMask b) p q.

(** The options [collisionFilterGroup] and [collisionFilterMask] of the
    constructor: a number is taken as it is, anything else gives 1. *)
Definition filter_option (v : Flags) : Z :=
  match v with
  | FlagsNumber n => n
  | FlagsArray _ => 1%Z
  end.

(** [new Body({ shape, mass, collisionFilterMask, collisionFilterGroup })]:
    the shape, when given, is added at the origin of the body; the body
    starts at the origin of the world with the identity orientation. *)
Definition new (shape : option Shape) (m : R) (mask group : Flags) : t :=
  let b := mk [] [] [] m (filter_option group) (filter_option mask)
              Vector3.zero Quaternion.identity in
  match shape with
  | Some s => addShape b s Vector3.zero Quaternion.identity
  | None => b
  end.

End Body.

(** The bodies a cannon-es constraint can join: a body of the world's
    table of bodies, or the head or tail body of a cable rig. *)
Inductive BodyRef :=
| RigidBody (i : nat)
| TubeHead (tube : nat)
| TubeTail (tube : nat).

Inductive ConstraintKind := Distance | PointToPoint | Hinge | Lock.

(** A cannon-es constraint object. [cid] stands for the identity of the
    object; pivots and axes are left out. *)
Record CannonConstraint := mkCannonConstraint {
  cid : nat;
  kind : ConstraintKind;
  bodyA : BodyRef;
  bodyB : BodyRef;
  collideConnected : bool
}.

Module World.

(** The cannon-es [World] together with the objects it can refer to:
    [objects] holds every [Body] object made so far (the identity of a body
    is its index there, its entry its current state); [fresh] is the next
    identity for a constraint or a cable rig; [bodies] and [constraints] are
    the world's arrays; [rigs] lists the cable rigs that are registered
    through [addToPhysicalWorld]. *)
Record t := mk {
  objects : list Body.t;
  fresh : nat;
  bodies : list nat;
  constraints : list CannonConstraint;
  rigs : list nat
}.

Definition empty : t := mk [] 0 [] [] [].

(** [new Body(...)]: the new object and its identity. *)
Definition alloc (w : t) (b : Body.t) : nat * t :=
  (List.length (objects w),
   mk (objects w ++ [b]) (fresh w) (bodies w) (constraints w) (rigs w)).

(** Assignment to the fields of the body object [i]. *)
Definition store (w : t) (i : nat) (b : Body.t) : t :=
  mk (<[i := b]> (objects w)) (fresh w) (bodies w) (constraints w) (rigs w).

(** A new identity for a constraint or a rig. *)
Definition gensym (w : t) : nat * t :=
  (fresh w, mk (objects w) (S (fresh w)) (bodies w) (constraints w) (rigs w)).

Definition includes (l : list nat) (i : nat) : bool :=
  existsb (Nat.eqb i) l.

(** [splice(indexOf(i), 1)] when [i] occurs. *)
Fixpoint remove_first (l : list nat) (i : nat) : list nat :=
  match l with
  | [] => []
  | j :: rest => if Nat.eqb i j then rest else j :: remove_first rest i
  end.

Fixpoint remove_first_constraint (l : list CannonConstraint) (c : nat)
    : list CannonConstraint :=
  match l with
  | [] => []
  | d :: rest =>
      if Nat.eqb c (cid d) then rest else d :: remove_first_constraint rest c
  end.

(** [world.addBody(body)]. *)
Definition addBody (w : t) (i : nat) : t :=
  if includes (bodies w) i then w
  else mk (objects w) (fresh w) (bodies w ++ [i]) (constraints w) (rigs w).

(** [world.removeBody(body)]. *)
Definition removeBody (w : t) (i : nat) : t :=
  mk (objects w) (fresh w) (remove_first (bodies w) i) (constraints w) (rigs w).

(** [world.addConstraint(c)]. *)
Definition addConstraint (w : t) (c : CannonConstraint) : t :=
  mk (objects w) (fresh w) (bodies w) (constraints w ++ [c]) (rigs w).

(** [world.removeConstraint(c)]. *)
Definition removeConstraint (w : t) (c : CannonConstraint) : t :=
  mk (objects w) (fresh w) (bodies w)
     (remove_first_constraint (constraints w) (cid c)) (rigs w).

(** [tube.addToPhysicalWorld(world)] and [tube.removeFromPhysicalWorld(world)],
    seen from the world. *)
Definition addRig (w : t) (tube : nat) : t :=
  mk (objects w) (fresh w) (bodies w) (constraints w) (rigs w ++ [tube]).

Definition removeRig (w : t) (tube : nat) : t :=
  mk (objects w) (fresh w) (bodies w) (constraints w)
     (remove_first (rigs w) tube).

End World.

(** [CannonTubeRig], as far as the rigger sets it up: its length, its
    position, the point it looks at, and whether it was added to the scene
    ([obj.parent?.add(tube)]). *)
Record CannonTubeRig := mkCannonTubeRig {
  tube_id : nat;
  tube_length : R;
  tube_position : Vector3.t;
  tube_lookAt : option Vector3.t;
  tube_in_scene : bool
}.

(** ** Custom constraints *)

(** [IConstraint]: what a host's factory returns. The host's code may act
    on the world. *)
Record IConstraint := mkIConstraint {
  enable : World.t -> World.t;
  disable : World.t -> World.t;
  update : R -> World.t -> World.t;
  removeFrom : World.t -> World.t
}.

Record CustomContraintConfig := mkCustomContraintConfig {
  obj : Object3D.t;
  collisionGroup : Flags;
  collisionMask : Flags;
  A : option nat;
  B : option nat
}.

(** A factory is a function of the host; it can reach the world of the
    rigger. *)
Abbreviation ConstraintFactory :=
  (CustomContraintConfig -> World.t -> IConstraint * World.t).

(** ** The constraint classes *)

(** The fields of a [SyncConstraint]: the node, the driving body, the
    cached offset and the flag of the first update. *)
Record SyncLink := mkSyncLink {
  sync_obj : Object3D.t;
  sync_body : nat;
  offsetPos : Vector3.t;
  offsetQuat : Quaternion.t;
  hasInit : bool
}.

Inductive RigConstraint :=
| ThreeJsCannonEsConstraint (obj : Object3D.t)
    (cannonConstraint : option CannonConstraint)
| SyncConstraint (link : SyncLink)
| CableConstraint (obj : Object3D.t) (cable : CannonTubeRig)
    (lockToA lockToB : option CannonConstraint).

Definition constraint_obj (c : RigConstraint) : Object3D.t :=
  match c with
  | ThreeJsCannonEsConstraint o _ => o
  | SyncConstraint s => sync_obj s
  | CableConstraint o _ _ _ => o
  end.

(** [get name()]. *)
Definition constraint_name (c : RigConstraint) : option string :=
  name (Object3D.userData (constraint_obj c)).

(** ** The Rig Session: [ThreeJsCannonEsSceneRigger] *)

(** The fields of the class, and with them the state the class works on
    that lives outside it: the module-level scratch values [vec], [vec2],
    [rot], [rot2], and the lines written with [console.warn]. *)
Record Rigger := mkRigger {
  world : World.t;
  obj2bod : list (Object3D.t * nat);
  constraints : list RigConstraint;
  customId2ConstraintFactory : gmap string ConstraintFactory;
  customConstraints : gmap (option string) IConstraint;
  vec : Vector3.t;
  vec2 : Vector3.t;
  rot : Quaternion.t;
  rot2 : Quaternion.t;
  console : list string
}.

Definition with_world (r : Rigger) (w : World.t) : Rigger :=
  mkRigger w (obj2bod r) (constraints r) (customId2ConstraintFactory r)
    (customConstraints r) (vec r) (vec2 r) (rot r) (rot2 r) (console r).

Definition with_obj2bod (r : Rigger) (m : list (Object3D.t * nat)) : Rigger :=
  mkRigger (world r) m (constraints r) (customId2ConstraintFactory r)
    (customConstraints r) (vec r) (vec2 r) (rot r) (rot2 r) (console r).

Definition with_constraints (r : Rigger) (l : list RigConstraint) : Rigger :=
  mkRigger (world r) (obj2bod r) l (customId2ConstraintFactory r)
    (customConstraints r) (vec r) (vec2 r) (rot r) (rot2 r) (console r).

Definition with_factories (r : Rigger) (m : gmap string ConstraintFactory)
    : Rigger :=
  mkRigger (world r) (obj2bod r) (constraints r) m
    (customConstraints r) (vec r) (vec2 r) (rot r) (rot2 r) (console r).

Definition with_customConstraints (r : Rigger)
    (m : gmap (option string) IConstraint) : Rigger :=
  mkRigger (world r) (obj2bod r) (constraints r) (customId2ConstraintFactory r)
    m (vec r) (vec2 r) (rot r) (rot2 r) (console r).

Definition with_scratch (r : Rigger) (v v2 : Vector3.t) (q q2 : Quaternion.t)
    : Rigger :=
  mkRigger (world r) (obj2bod r) (constraints r) (customId2ConstraintFactory r)
    (customConstraints r) v v2 q q2 (console r).

Definition with_console (r : Rigger) (l : list string) : Rigger :=
  mkRigger (world r) (obj2bod r) (constraints r) (customId2ConstraintFactory r)
    (customConstraints r) (vec r) (vec2 r) (rot r) (rot2 r) l.

(** How a call ends: it returns, or it throws and leaves the session as it
    was at the throw. *)
Inductive Completion (T : Type) :=
| Normal (result : T)
| Throw (message : string) (r : Rigger).

Arguments Normal {T} result.
Arguments Throw {T} message r.

(** The session right after the module is loaded and [new
    ThreeJsCannonEsSceneRigger(world)] has run. *)
Definition newRigger (w : World.t) : Rigger :=
  mkRigger w [] [] ∅ ∅ Vector3.zero Vector3.zero
    Quaternion.identity Quaternion.identity [].

(** [registerCustomConstraint(id, creator)]. *)
Definition registerCustomConstraint (id : string) (creator : ConstraintFactory)
    (r : Rigger) : Rigger :=
  with_factories r (<[id := creator]> (customId2ConstraintFactory r)).

(** [getCustomConstraint(name)]. *)
Definition getCustomConstraint (r : Rigger) (n : option string)
    : option IConstraint :=
  customConstraints r !! n.

(** [getBodyByName(name)]: the entries of the map in insertion order, the
    first whose [userData.name] is strictly equal to [name] wins. *)
Fixpoint find_body (entries : list (Object3D.t * nat)) (n : option string)
    : option nat :=
  match entries with
  | [] => None
  | (o, body) :: rest =>
      if decide (name (Object3D.userData o) = n) then Some body
      else find_body rest n
  end.

Definition getBodyByName (r : Rigger) (n : option string) : option nat :=
  find_body (obj2bod r) n.

(** [map.set(o, body)]: the key is the object; an entry that is there keeps
    its place, a new one goes to the end. *)
Fixpoint map_set (entries : list (Object3D.t * nat)) (o : Object3D.t)
    (body : nat) : list (Object3D.t * nat) :=
  match entries with
  | [] => [(o, body)]
  | (k, v) :: rest =>
      if Nat.eqb (Object3D.id k) (Object3D.id o) then (o, body) :: rest
      else (k, v) :: map_set rest o body
  end.

(** [map.get(o)]. *)
Fixpoint map_get (entries : list (Object3D.t * nat)) (o : Object3D.t)
    : option nat :=
  match entries with
  | [] => None
  | (k, v) :: rest =>
      if Nat.eqb (Object3D.id k) (Object3D.id o) then Some v
      else map_get rest o
  end.

(** [v ?? 1] for a group or a mask. *)
Definition or_one (v : option Flags) : Flags :=
  match v with
  | Some f => f
  | None => FlagsNumber 1
  end.

(** *** The Body Builder *)

(** [createCollider(shape, o)]: the body, the node (now invisible) and the
    session. *)
Definition createCollider (shape : option Shape) (o : Object3D.t) (r : Rigger)
    : nat * Object3D.t * Rigger :=
  let o := Object3D.set_visible o false in
  let group := or_one (threejscannones_cgroup (Object3D.userData o)) in
  let mask := or_one (threejscannones_cwith (Object3D.userData o)) in
  let m := match threejscannones_mass (Object3D.userData o) with
           | Some m => m
           | None => 0%R
           end in
  let body := Body.new shape m mask group in
  let pos := Object3D.getWorldPosition o in
  let body := Body.set_pose body pos (Body.quaternion body) in
  let rot := Object3D.getWorldQuaternion o in
  let body := Body.set_pose body (Body.position body) rot in
  let '(i, w) := World.alloc (world r) body in
  let w := World.addBody w i in
  (i, o, with_obj2bod (with_world r w) (map_set (obj2bod r) o i)).

(** The body of the loop of [addCompoundShapes]: one child, one box. *)
Definition addChildShape (compoundWorldPos : Vector3.t)
    (invCompoundQuat : Quaternion.t) (body : Body.t) (mesh : Object3D.t)
    : Body.t :=
  let childWorldPos := Object3D.getWorldPosition mesh in
  let childWorldQuat := Object3D.getWorldQuaternion mesh in
  let childScale := Object3D.getWorldScale mesh in
  let localOffset :=
    applyQuaternion (Vector3.sub childWorldPos compoundWorldPos)
                    invCompoundQuat in
  let localQuat := Quaternion.multiply invCompoundQuat childWorldQuat in
  Body.addShape body (Box childScale) localOffset localQuat.

(** [addCompoundShapes(body, compound)] on the state of the body. *)
Definition addCompoundShapes_body (body : Body.t) (compound : Object3D.t)
    : Body.t :=
  let boxes := Object3D.children compound in
  let compoundWorldPos := Object3D.getWorldPosition compound in
  let compoundWorldQuat := Object3D.getWorldQuaternion compound in
  let invCompoundQuat := Quaternion.invert compoundWorldQuat in
  let body :=
    fold_left (addChildShape compoundWorldPos invCompoundQuat) boxes body in
  Body.set_pose body compoundWorldPos compoundWorldQuat.

(** [addCompoundShapes(body, compound)]: the body object [i] is updated in
    place. *)
Definition addCompoundShapes (i : nat) (compound : Object3D.t) (r : Rigger)
    : Rigger :=
  match World.objects (world r) !! i with
  | Some body =>
      with_world r (World.store (world r) i
                      (addCompoundShapes_body body compound))
  | None => r
  end.

(** The callback of the first traversal of [rigScene]: the node after the
    call and the session. *)
Definition pass1 (o : Object3D.t) (r : Rigger) : Object3D.t * Rigger :=
  let o := Object3D.set_userData o (normalizeUserData (Object3D.userData o)) in
  let t := threejscannones_type (Object3D.userData o) in
  if tag_is t RigType.BoxCollider then
    let '(_, o, r) := createCollider (Some (Box (Object3D.scale o))) o r in
    (o, r)
  else if tag_is t RigType.SphereCollider then
    let '(_, o, r) :=
      createCollider (Some (Sphere (Vector3.x (Object3D.scale o)))) o r in
    (o, r)
  else if tag_is t RigType.CompoundCollider then
    let '(bod, o, r) := createCollider None o r in
    (o, addCompoundShapes bod o r)
  else (o, r).

(** The first traversal over the nodes in the order of [traverse]. *)
Fixpoint pass1_all (nodes : list Object3D.t) (r : Rigger)
    : list Object3D.t * Rigger :=
  match nodes with
  | [] => ([], r)
  | o :: rest =>
      let '(o', r) := pass1 o r in
      let '(rest', r) := pass1_all rest r in
      (o' :: rest', r)
  end.

(** *** The Constraint Builder *)

(** What JavaScript throws when a method is called on [undefined]: the
    standard joints take [A!] and [B!] without a check. *)
Definition TypeError : string := "TypeError".

(** The four standard joints. [kind] and [collide] tell them apart:
    [createDistanceConstraint], [createPointConstraint],
    [createHingeConstraint] and [createLockConstraint] each build the
    cannon-es constraint from both bodies, add it to the world and return
    it. *)
Definition createStandardConstraint (k : ConstraintKind) (collide : bool)
    (a b : option nat) (r : Rigger) : Completion (CannonConstraint * Rigger) :=
  match a, b with
  | Some a, Some b =>
      let '(c, w) := World.gensym (world r) in
      let constraint := mkCannonConstraint c k (RigidBody a) (RigidBody b) collide in
      Normal (constraint, with_world r (World.addConstraint w constraint))
  | _, _ => Throw TypeError r
  end.

Definition createDistanceConstraint := createStandardConstraint Distance true.
Definition createPointConstraint := createStandardConstraint PointToPoint true.
Definition createHingeConstraint := createStandardConstraint Hinge false.
Definition createLockConstraint := createStandardConstraint Lock false.

(** [createSyncBetween(obj, body)]. *)
Definition createSyncBetween (o : Object3D.t) (body : option nat) (r : Rigger)
    : Rigger :=
  match body with
  | None =>
      with_console r
        (console r ++
         [String.append "Object "
            (String.append (Object3D.name o)
               " points to a non existent collider for it's sync constrain.")])
  | Some b =>
      let constraint :=
        SyncConstraint
          (mkSyncLink o b Vector3.zero Quaternion.identity false) in
      with_constraints r (constraints r ++ [constraint])
  end.

(** [lockXTo(old, X, target)] of [CableConstraint]. *)
Definition lockXTo (old : option CannonConstraint) (X : BodyRef)
    (target : option nat) (w : World.t) : option CannonConstraint * World.t :=
  let w := match old with
           | Some c => World.removeConstraint w c
           | None => w
           end in
  match target with
  | Some b =>
      let '(c, w) := World.gensym w in
      let result := mkCannonConstraint c PointToPoint X (RigidBody b) false in
      (Some result, World.addConstraint w result)
  | None => (None, w)
  end.

(** [new CableConstraint(world, obj, cable, stickToA, stickToB)]. *)
Definition newCableConstraint (o : Object3D.t) (cable : CannonTubeRig)
    (stickToA stickToB : option nat) (w : World.t) : RigConstraint * World.t :=
  let '(lockToA, w) :=
    match stickToA with
    | Some _ => lockXTo None (TubeHead (tube_id cable)) stickToA w
    | None => (None, w)
    end in
  let '(lockToB, w) :=
    match stickToB with
    | Some _ => lockXTo None (TubeTail (tube_id cable)) stickToB w
    | None => (None, w)
    end in
  (CableConstraint o cable lockToA lockToB, w).

(** [createCable(obj, stickToA, stickToB)]. *)
Definition createCable (o : Object3D.t) (stickToA stickToB : option nat)
    (r : Rigger) : Rigger :=
  let '(cableLength, hasChilds, v, v2) :=
    match Object3D.children o with
    | c0 :: c1 :: _ =>
        let v := Object3D.getWorldPosition c0 in
        let v2 := Object3D.localToWorld c1 (vec2 r) in
        (Vector3.distanceTo v v2, true, v, v2)
    | _ => (1%R, false, vec r, vec2 r)
    end in
  let r := with_scratch r v v2 (rot r) (rot2 r) in
  let '(t, w) := World.gensym (world r) in
  let in_scene := match Object3D.parent o with Some _ => true | None => false end in
  let tube :=
    if hasChilds then mkCannonTubeRig t cableLength v (Some v2) in_scene
    else mkCannonTubeRig t cableLength Vector3.zero None in_scene in
  let w := World.addRig w t in
  let '(c, w) := newCableConstraint o tube stickToA stickToB w in
  with_constraints (with_world r w) (constraints r ++ [c]).

(** [!customID]. *)
Definition falsy_id (customID : option string) : bool :=
  match customID with
  | None => true
  | Some s => String.eqb s ""
  end.

Definition msg_no_id : string := "A custom constraint MUST have an id...".

Definition msg_not_found (customID : string) : string :=
  String.append "Custom constraint with id "
    (String.append customID
       " not found. Dis you forgot to call registerCustomConstraint?").

(** [createCustomConstraint(obj, A, B)]. *)
Definition createCustomConstraint (o : Object3D.t) (a b : option nat)
    (r : Rigger) : Completion Rigger :=
  let group := or_one (threejscannones_cgroup (Object3D.userData o)) in
  let mask := or_one (threejscannones_cwith (Object3D.userData o)) in
  let customID := threejscannones_customId (Object3D.userData o) in
  match customID with
  | Some id =>
      if falsy_id customID then Throw msg_no_id r
      else
        match customId2ConstraintFactory r !! id with
        | None => Throw (msg_not_found id) r
        | Some create =>
            let '(constraint, w) :=
              create (mkCustomContraintConfig o group mask a b) (world r) in
            Normal (with_customConstraints (with_world r w)
                      (<[name (Object3D.userData o) := constraint]>
                         (customConstraints r)))
        end
  | None => Throw msg_no_id r
  end.

(** After the [switch]: [if (constaint) this.constraints.push(...)]. *)
Definition track (o : Object3D.t) (c : Completion (CannonConstraint * Rigger))
    : Completion Rigger :=
  match c with
  | Normal (constaint, r) =>
      Normal (with_constraints r
                (constraints r ++ [ThreeJsCannonEsConstraint o (Some constaint)]))
  | Throw m r => Throw m r
  end.

(** The callback of the second traversal of [rigScene]. *)
Definition pass2 (o : Object3D.t) (r : Rigger) : Completion Rigger :=
  let a := getBodyByName r (opt_name (threejscannones_A (Object3D.userData o))) in
  let b := getBodyByName r (opt_name (threejscannones_B (Object3D.userData o))) in
  let t := threejscannones_type (Object3D.userData o) in
  if tag_is t RigType.DistanceConstraint then
    track o (createDistanceConstraint a b r)
  else if tag_is t RigType.PointConstraint then
    track o (createPointConstraint a b r)
  else if tag_is t RigType.HingeConstraint then
    track o (createHingeConstraint a b r)
  else if tag_is t RigType.LockConstraint then
    track o (createLockConstraint a b r)
  else if tag_is t RigType.SyncLocRot then
    let source :=
      getBodyByName r
        (opt_name (threejscannones_syncSource (Object3D.userData o))) in
    Normal (createSyncBetween o source r)
  else if tag_is t RigType.Cable then
    Normal (createCable o a b r)
  else if tag_is t RigType.Custom then
    createCustomConstraint o a b r
  else Normal r.

(** The second traversal: a throw ends it. *)
Fixpoint pass2_all (nodes : list Object3D.t) (r : Rigger) : Completion Rigger :=
  match nodes with
  | [] => Normal r
  | o :: rest =>
      match pass2 o r with
      | Normal r => pass2_all rest r
      | Throw m r => Throw m r
      end
  end.

(** [rigScene] on the nodes of the scene in traversal order. *)
Definition rigNodes (nodes : list Object3D.t) (r : Rigger) : Completion Rigger :=
  let '(nodes, r) := pass1_all nodes r in
  pass2_all nodes r.

(** [rigScene(scene)]. *)
Definition rigScene (scene : Object3D.t) (r : Rigger) : Completion Rigger :=
  rigNodes (Object3D.traverse scene) r.

(** *** Teardown *)

(** [constraint.removeFrom(world)], by class. [CableConstraint] overrides
    it; [SyncConstraint] inherits it and has no cannon-es constraint. *)
Definition constraint_removeFrom (c : RigConstraint) (w : World.t) : World.t :=
  match c with
  | ThreeJsCannonEsConstraint _ (Some k) => World.removeConstraint w k
  | ThreeJsCannonEsConstraint _ None => w
  | SyncConstraint _ => w
  | CableConstraint _ cable lockToA lockToB =>
      let w := match lockToA with
               | Some k => World.removeConstraint w k
               | None => w
               end in
      let w := match lockToB with
               | Some k => World.removeConstraint w k
               | None => w
               end in
      World.removeRig w (tube_id cable)
  end.

(** [clear()]. *)
Definition clear (r : Rigger) : Rigger :=
  let w :=
    fold_left (fun w c => constraint_removeFrom c w)
              (rev (constraints r)) (world r) in
  let w := fold_left (fun w e => World.removeBody w (snd e)) (obj2bod r) w in
  mkRigger w [] [] (customId2ConstraintFactory r) (customConstraints r)
    Vector3.zero Vector3.zero (Quaternion.mk 0 0 0 0) (Quaternion.mk 0 0 0 0)
    (console r).

(** *** The Sync Link *)

(** [initOffsets()]: [body] is the state of [this.body] at the call. *)
Definition initOffsets (s : SyncLink) (body : Body.t) : SyncLink :=
  let bodyPos := Body.position body in
  let bodyQuat := Body.quaternion body in
  let objWorldPos := Object3D.getWorldPosition (sync_obj s) in
  let objWorldQuat := Object3D.getWorldQuaternion (sync_obj s) in
  mkSyncLink (sync_obj s) (sync_body s)
    (applyQuaternion (Vector3.sub objWorldPos bodyPos) (Quaternion.invert bodyQuat))
    (Quaternion.multiply (Quaternion.invert bodyQuat) objWorldQuat)
    true.

(** The "final world transform" of [update()]: the pose of the body
    composed with an offset. *)
Definition composePose (body : Body.t) (offPos : Vector3.t)
    (offQuat : Quaternion.t) : Vector3.t * Quaternion.t :=
  let bodyPos := Body.position body in
  let bodyQuat := Body.quaternion body in
  let worldQuat := Quaternion.multiply bodyQuat offQuat in
  let worldPos := Vector3.add (applyQuaternion offPos bodyQuat) bodyPos in
  (worldPos, worldQuat).

(** The conversion of a world pose to the local space of the parent, as
    [update()] does it. [parentMatrixWorld] is [this.obj.parent.matrixWorld]
    as [this.obj.parent.updateMatrixWorld(true)] leaves it in that call.
    The scale [decompose] finds goes to a vector that is dropped. *)
Definition toParentLocal (parentMatrixWorld : Matrix4.t) (worldPos : Vector3.t)
    (worldQuat : Quaternion.t) : Vector3.t * Quaternion.t :=
  let mat := Matrix4.compose worldPos worldQuat (Vector3.mk 1 1 1) in
  let parentInv := Matrix4.invert parentMatrixWorld in
  let mat := Matrix4.premultiply mat parentInv in
  let '(p, q, _) := Matrix4.decompose mat in
  (p, q).

(** The pose [update()] assigns to the node for a world pose: the pose in
    the space of the parent when the node has one, the world pose itself
    otherwise. *)
Definition poseToWrite (o : Object3D.t) (parentMatrixWorld : Matrix4.t)
    (worldPose : Vector3.t * Quaternion.t) : Vector3.t * Quaternion.t :=
  match Object3D.parent o with
  | Some _ => toParentLocal parentMatrixWorld (fst worldPose) (snd worldPose)
  | None => worldPose
  end.

(** The last step of [update()]. *)
Definition writePose (o : Object3D.t) (parentMatrixWorld : Matrix4.t)
    (worldPos : Vector3.t) (worldQuat : Quaternion.t) : Object3D.t :=
  let '(p, q) := poseToWrite o parentMatrixWorld (worldPos, worldQuat) in
  Object3D.set_pose o p q.

(** [SyncConstraint.update()]: [body] is the state of [this.body] at the
    call and [parentMatrixWorld] the world matrix of the parent of the node
    at the call, which is read only when the node has a parent. *)
Definition sync_update (s : SyncLink) (body : Body.t)
    (parentMatrixWorld : Matrix4.t) : SyncLink :=
  let s := if hasInit s then s else initOffsets s body in
  let '(worldPos, worldQuat) := composePose body (offsetPos s) (offsetQuat s) in
  mkSyncLink (writePose (sync_obj s) parentMatrixWorld worldPos worldQuat)
    (sync_body s) (offsetPos s) (offsetQuat s) (hasInit s).

(** [constraint.update(delta)], by class: a plain joint does nothing, a
    cable calls [syncRig()] of its rig, which is outside the session. *)
Definition constraint_update (w : World.t) (parentMatrixWorld : Matrix4.t)
    (c : RigConstraint) : RigConstraint :=
  match c with
  | SyncConstraint s =>
      match World.objects w !! sync_body s with
      | Some body => SyncConstraint (sync_update s body parentMatrixWorld)
      | None => c
      end
  | _ => c
  end.

(** [update(delta)] of the session. The scene graph is not part of the
    session: [parents i] is the world matrix that the constraint at place
    [i] of the list finds for the parent of its node during this call. *)
Definition rigger_update (parents : nat -> Matrix4.t) (r : Rigger) : Rigger :=
  with_constraints r
    (imap (fun i c => constraint_update (world r) (parents i) c)
          (constraints r)).


(** ** The words of the specification on bit masks *)

(** "The bitwise OR of [1 << index] for each selected index". *)
Definition or_of_selected (indices : list Z) : Z :=
  fold_left (fun mask index => JS.bor mask (JS.shl 1 index)) indices 0%Z.

(** The indices an array of flags selects: the places that hold 1. *)
Fixpoint selected_from (flags : list Z) (idx : Z) : list Z :=
  match flags with
  | [] => []
  | bit :: rest =>
      if (bit =? 1)%Z then idx :: selected_from rest (idx + 1)
      else selected_from rest (idx + 1)
  end.

Definition selected (flags : list Z) : list Z := selected_from flags 0.

(** The group a collider body ends with, from the raw annotation and its
    companion array: normalisation, then [?? 1], then the constructor. *)
Definition resolved_filter (v : option Flags) (arr : option (list Z)) : Z :=
  Body.filter_option (or_one (normalizeFlags v arr)).


(** A flag as the exporter writes a ticked or unticked box. *)
Definition flag (b : bool) : Z := if b then 1%Z else 0%Z.

(** The tags of the first traversal. *)
Definition collider_tag (t : JSTag) : bool :=
  tag_is t RigType.BoxCollider || tag_is t RigType.SphereCollider
  || tag_is t RigType.CompoundCollider.

(** The tag a node has once the callback has normalised it. *)
Definition tag_of (o : Object3D.t) : JSTag :=
  normalizeType (threejscannones_type (Object3D.userData o)).

(** The words of the specification on compound colliders: the offset and
    the orientation of a child relative to the world frame of the compound
    node. *)
Definition childOffset (compound mesh : Object3D.t) : Vector3.t :=
  applyQuaternion
    (Vector3.sub (Object3D.getWorldPosition mesh)
                 (Object3D.getWorldPosition compound))
    (Quaternion.invert (Object3D.getWorldQuaternion compound)).

Definition childOrientation (compound mesh : Object3D.t) : Quaternion.t :=
  Quaternion.multiply (Quaternion.invert (Object3D.getWorldQuaternion compound))
                      (Object3D.getWorldQuaternion mesh).

(** The shapes a collider node asks for, by tag. *)
Definition shapes_of (o : Object3D.t) : list Shape :=
  if tag_is (tag_of o) RigType.BoxCollider then [Box (Object3D.scale o)]
  else if tag_is (tag_of o) RigType.SphereCollider then
    [Sphere (Vector3.x (Object3D.scale o))]
  else List.map (fun c => Box (Object3D.getWorldScale c)) (Object3D.children o).

Definition shapeOffsets_of (o : Object3D.t) : list Vector3.t :=
  if tag_is (tag_of o) RigType.BoxCollider then [Vector3.zero]
  else if tag_is (tag_of o) RigType.SphereCollider then [Vector3.zero]
  else List.map (childOffset o) (Object3D.children o).

Definition shapeOrientations_of (o : Object3D.t) : list Quaternion.t :=
  if tag_is (tag_of o) RigType.BoxCollider then [Quaternion.identity]
  else if tag_is (tag_of o) RigType.SphereCollider then [Quaternion.identity]
  else List.map (childOrientation o) (Object3D.children o).

(** ** Scenes used in the examples *)

Module Example.

(** Annotations with every key absent. *)
Definition noData : UserData :=
  mkUserData None TagUndefined None None None None None None None None None.

(** A node without a parent, placed at [p] in the world, unrotated and
    unscaled. *)
Definition node (i : nat) (u : UserData) (p : Vector3.t)
    (cs : list Object3D.t) : Object3D.t :=
  Object3D.mk i "" u true p Quaternion.identity (Vector3.mk 1 1 1)
    (Matrix4.translation p) Quaternion.identity (Vector3.mk 1 1 1) None cs.

(** A node under a parent that is placed at [parentWorld], unrotated and
    unscaled like the node itself: [local] is the position of the node in
    the space of the parent, [p] its position in the world. *)
Definition child (i : nat) (u : UserData) (parentWorld local p : Vector3.t)
    (cs : list Object3D.t) : Object3D.t :=
  Object3D.mk i "" u true local Quaternion.identity (Vector3.mk 1 1 1)
    (Matrix4.translation p) Quaternion.identity (Vector3.mk 1 1 1)
    (Some (Matrix4.translation parentWorld)) cs.

(** A box collider whose group is the empty list of flags. *)
Definition boxWithEmptyGroup : Object3D.t :=
  node 0
    (mkUserData (Some "Crate") (TagString "box") (Some (FlagsArray [])) None
       None None None None None None None)
    Vector3.zero [].

End Example.

Module Scenes.

Import Example.

Definition tagged (n : option string) (t : JSTag) : UserData :=
  mkUserData n t None None None None None None None None None.

(** A root with a box collider and a compound collider of two children. *)
Definition floor : Object3D.t :=
  child 1 (tagged (Some "Floor") (TagString "box"))
    Vector3.zero Vector3.zero Vector3.zero [].

Definition part1 : Object3D.t :=
  child 3 noData (Vector3.mk 1 2 3) (Vector3.mk 1 0 0) (Vector3.mk 2 2 3) [].
Definition part2 : Object3D.t :=
  child 4 noData (Vector3.mk 1 2 3) (Vector3.mk 0 1 0) (Vector3.mk 1 3 3) [].

Definition claw : Object3D.t :=
  child 2 (tagged (Some "Claw") (TagString "compound"))
    Vector3.zero (Vector3.mk 1 2 3) (Vector3.mk 1 2 3) [part1; part2].

Definition root : Object3D.t := node 0 noData Vector3.zero [floor; claw].

End Scenes.

Module SyncExample.

(** A visible mesh at (4, 0, 0) that follows a body at (1, 0, 0) turned half
    a turn about the vertical axis. *)
Definition mesh : Object3D.t :=
  Example.node 7 Example.noData (Vector3.mk 4 0 0) [].

Definition link : SyncLink :=
  mkSyncLink mesh 0 Vector3.zero Quaternion.identity false.

Definition driver : Body.t :=
  Body.set_pose
    (Body.new None 1 (FlagsNumber 1) (FlagsNumber 1))
    (Vector3.mk 1 0 0) (Quaternion.mk 0 1 0 0).

Definition moved : Body.t :=
  Body.set_pose driver (Vector3.mk 1 5 0) (Quaternion.mk 0 1 0 0).

(** A parent at (0, 1, 0), turned half a turn about the vertical axis and
    twice the size, and a mesh at (1, 0, 0) in the space of that parent,
    which is (-2, 1, 0) in the world. *)
Definition parentPosition : Vector3.t := Vector3.mk 0 1 0.
Definition parentQuaternion : Quaternion.t := Quaternion.mk 0 1 0 0.

Definition parentMatrixWorld : Matrix4.t :=
  Matrix4.compose parentPosition parentQuaternion (Vector3.mk 2 2 2).



End SyncExample.

Module CustomExample.

(** A host constraint that owns one cannon-es constraint; [removeFrom]
    takes it out of the world. *)
Definition spring (k : CannonConstraint) : IConstraint :=
  mkIConstraint (fun w => w) (fun w => w) (fun _ w => w)
    (fun w => World.removeConstraint w k).

(** A host constraint that owns nothing. *)
Definition inert : IConstraint :=
  mkIConstraint (fun w => w) (fun w => w) (fun _ w => w) (fun w => w).

(** The factory the host registers: with both bodies at hand it joins them
    by a distance constraint that it adds to the world. *)
Definition springFactory : ConstraintFactory :=
  fun config w =>
    match A config, B config with
    | Some a, Some b =>
        let '(c, w) := World.gensym w in
        let k := mkCannonConstraint c Distance (RigidBody a) (RigidBody b) true in
        (spring k, World.addConstraint w k)
    | _, _ => (inert, w)
    end.

Definition box (i : nat) (n : string) (p : Vector3.t) : Object3D.t :=
  Example.child i (Scenes.tagged (Some n) (TagString "box"))
    Vector3.zero p p [].

Definition customData (id : option string) : UserData :=
  mkUserData (Some "Spring") (TagString "custom") None None None None None
    (Some (mkRef (Some "A"))) (Some (mkRef (Some "B"))) None id.

(** The custom-constraint node "Spring" with the identifier "foo", between
    the colliders "A" and "B". *)
Definition joint : Object3D.t :=
  Example.child 3 (customData (Some "foo")) Vector3.zero Vector3.zero
    Vector3.zero [].

Definition scene : Object3D.t :=
  Example.node 0 Example.noData Vector3.zero
    [box 1 "A" (Vector3.mk 0 0 0); box 2 "B" (Vector3.mk 0 2 0); joint].

(** A scene that is the same node with an identifier nobody registered. *)
Definition unknown : Object3D.t :=
  Example.node 0 (customData (Some "bar")) Vector3.zero [].

(** A session in which the host registered the factory under "foo". *)
Definition session : Rigger :=
  registerCustomConstraint "foo" springFactory (newRigger World.empty).

(** The constraint the factory makes in that session for the scene. *)
Definition made : CannonConstraint :=
  mkCannonConstraint 0 Distance (RigidBody 0) (RigidBody 1) true.

End CustomExample.

Module SyncSkipExample.

(** A sync node whose source names no collider of the scene, followed by a
    box collider. *)
Definition follower : Object3D.t :=
  Example.node 1
    (mkUserData (Some "Mesh") (TagNumber RigType.SyncLocRot) None None None None
       None None None (Some (mkRef (Some "Ghost"))) None)
    Vector3.zero [].

(** A box collider without a [name] entry, and a sync node without a sync
    source. *)
Definition unnamedBox : Object3D.t :=
  Example.child 2 (Scenes.tagged None (TagString "box"))
    Vector3.zero (Vector3.mk 0 1 0) (Vector3.mk 0 1 0) [].

Definition orphan : Object3D.t :=
  Example.child 3 (Scenes.tagged (Some "Mesh") (TagString "sync"))
    Vector3.zero (Vector3.mk 5 5 5) (Vector3.mk 5 5 5) [].

Definition scene : Object3D.t :=
  Example.node 0 Example.noData Vector3.zero [unnamedBox; orphan].

End SyncSkipExample.

(** The cable rigs of the session, in the order in which they were built. *)
Definition cables (r : Rigger) : list CannonTubeRig :=
  flat_map (fun c => match c with
                     | CableConstraint _ cable _ _ => [cable]
                     | _ => []
                     end) (constraints r).

Module CableExample.

Import Example.

Definition cableData (n : string) : UserData :=
  Scenes.tagged (Some n) (TagString "tube").

(** Two cables in one scene: the first between (0, 0, 0) and (3, 4, 0), the
    second between (10, 0, 0) and (10, 0, 2). The root and the two cable
    nodes sit at the origin of the world. *)
Definition at_origin (i : nat) (u : UserData) (p : Vector3.t)
    (cs : list Object3D.t) : Object3D.t :=
  child i u Vector3.zero p p cs.

Definition head1 : Object3D.t := at_origin 2 noData (Vector3.mk 0 0 0) [].
Definition tail1 : Object3D.t := at_origin 3 noData (Vector3.mk 3 4 0) [].
Definition head2 : Object3D.t := at_origin 5 noData (Vector3.mk 10 0 0) [].
Definition tail2 : Object3D.t := at_origin 6 noData (Vector3.mk 10 0 2) [].

Definition cable1 : Object3D.t :=
  at_origin 1 (cableData "Rope1") Vector3.zero [head1; tail1].
Definition cable2 : Object3D.t :=
  at_origin 4 (cableData "Rope2") Vector3.zero [head2; tail2].

Definition scene : Object3D.t := node 0 noData Vector3.zero [cable1; cable2].

End CableExample.

(** ** What the session tracks *)

Definition option_list {T} (v : option T) : list T :=
  match v with
  | Some x => [x]
  | None => []
  end.

(** The cannon-es constraints a tracked constraint holds, in the order in
    which its [removeFrom] removes them, and the cable rig it holds. *)
Definition owned_constraints (c : RigConstraint) : list CannonConstraint :=
  match c with
  | ThreeJsCannonEsConstraint _ k => option_list k
  | SyncConstraint _ => []
  | CableConstraint _ _ lockToA lockToB =>
      option_list lockToA ++ option_list lockToB
  end.

Definition owned_rigs (c : RigConstraint) : list nat :=
  match c with
  | CableConstraint _ cable _ _ => [tube_id cable]
  | _ => []
  end.

(** A world whose arrays refer to objects that exist. *)
Definition world_wf (w : World.t) : Prop :=
  List.Forall (fun i => (i < List.length (World.objects w))%nat) (World.bodies w) /\
  List.Forall (fun k => (cid k < World.fresh w)%nat) (World.constraints w) /\
  List.Forall (fun t => (t < World.fresh w)%nat) (World.rigs w).

(** The session [r] tracks all it has added to the world [w0] it started
    from: the arrays of the world are those of [w0] followed by what the
    map and the constraint list hold, and these are objects made after
    [w0]. [seen] lists the identities of the nodes that have a body. *)
Record tracks (w0 : World.t) (seen : list nat) (r : Rigger) : Prop := {
  tr_bodies :
    World.bodies (world r) = World.bodies w0 ++ List.map snd (obj2bod r);
  tr_constraints :
    World.constraints (world r) =
    World.constraints w0 ++ flat_map owned_constraints (constraints r);
  tr_rigs :
    World.rigs (world r) = World.rigs w0 ++ flat_map owned_rigs (constraints r);
  tr_objects :
    (List.length (World.objects w0) <= List.length (World.objects (world r)))%nat;
  tr_fresh : (World.fresh w0 <= World.fresh (world r))%nat;
  tr_body_ids :
    List.Forall (fun i => (List.length (World.objects w0) <= i
                           < List.length (World.objects (world r)))%nat)
                (List.map snd (obj2bod r));
  tr_seen :
    List.Forall (fun e => In (Object3D.id (fst e)) seen) (obj2bod r);
  tr_cids :
    List.Forall (fun k => (World.fresh w0 <= cid k < World.fresh (world r))%nat)
                (flat_map owned_constraints (constraints r));
  tr_rig_ids :
    List.Forall (fun t => (World.fresh w0 <= t < World.fresh (world r))%nat)
                (flat_map owned_rigs (constraints r));
  tr_cids_nodup :
    List.NoDup (List.map cid (flat_map owned_constraints (constraints r)));
  tr_rigs_nodup : List.NoDup (flat_map owned_rigs (constraints r))
}.

(** ** More of the Rig Session: lookups by name *)

(** The first collider nodes of a list, as the first traversal leaves them
    in the map of a session whose table of bodies has [i] entries: the node
    normalised and made invisible, with the identity of its body. *)
Definition rigged (o : Object3D.t) : Object3D.t :=
  Object3D.set_visible
    (Object3D.set_userData o (normalizeUserData (Object3D.userData o))) false.

Fixpoint colliders_from (nodes : list Object3D.t) (i : nat)
    : list (Object3D.t * nat) :=
  match nodes with
  | [] => []
  | o :: rest =>
      if collider_tag (tag_of o) then (rigged o, i) :: colliders_from rest (S i)
      else colliders_from rest i
  end.

(** [getConstraintByName(name)]: [constraints.find(c => c.name == name)]. *)
Definition getConstraintByName (r : Rigger) (n : option string)
    : option RigConstraint :=
  List.find (fun c => bool_decide (constraint_name c = n)) (constraints r).

(** [getCableConstraint(name)] and [getSyncConstraint(name)]: the constraint
    found, under another type. *)
Definition getCableConstraint := getConstraintByName.
Definition getSyncConstraint := getConstraintByName.

(** [c?.cannonConstraint]. *)
Definition cannonConstraint_of (c : option RigConstraint)
    : option CannonConstraint :=
  match c with
  | Some (ThreeJsCannonEsConstraint _ k) => k
  | _ => None
  end.

(** [getLockConstraint(name)], [getHingeConstraint(name)],
    [getPointConstraint(name)] and [getDistanceConstraint(name)]. *)
Definition getLockConstraint (r : Rigger) (n : option string) :=
  cannonConstraint_of (getConstraintByName r n).
Definition getHingeConstraint (r : Rigger) (n : option string) :=
  cannonConstraint_of (getConstraintByName r n).
Definition getPointConstraint (r : Rigger) (n : option string) :=
  cannonConstraint_of (getConstraintByName r n).
Definition getDistanceConstraint (r : Rigger) (n : option string) :=
  cannonConstraint_of (getConstraintByName r n).

Module IgnoredExample.

(** A node whose tag is a word the table does not have. *)
Definition door : Object3D.t :=
  Example.node 9 (Scenes.tagged (Some "Door") (TagString "door"))
    Vector3.zero [].

End IgnoredExample.

(** The cannon-es constraint behind each of the four standard joint tags,
    and whether the joined bodies still collide. *)
Definition standard_kind (t : Z) : option (ConstraintKind * bool) :=
  if (t =? RigType.DistanceConstraint)%Z then Some (Distance, true)
  else if (t =? RigType.PointConstraint)%Z then Some (PointToPoint, true)
  else if (t =? RigType.HingeConstraint)%Z then Some (Hinge, false)
  else if (t =? RigType.LockConstraint)%Z then Some (Lock, false)
  else None.

Module JointExample.

(** Two box colliders "A" and "B" and a lock node "Glue" between them. *)
Definition glue : Object3D.t :=
  Example.child 3
    (mkUserData (Some "Glue") (TagString "lock") None None None None None
       (Some (mkRef (Some "A"))) (Some (mkRef (Some "B"))) None None)
    Vector3.zero Vector3.zero Vector3.zero [].

Definition scene : Object3D.t :=
  Example.node 0 Example.noData Vector3.zero
    [CustomExample.box 1 "A" (Vector3.mk 0 0 0);
     CustomExample.box 2 "B" (Vector3.mk 0 2 0); glue].

(** The session after the first traversal of the scene, and the lock node
    as that traversal leaves it. *)
Definition afterPass1 : Rigger :=
  snd (pass1_all (Object3D.traverse scene) (newRigger World.empty)).

Definition glue' : Object3D.t :=
  Object3D.set_userData glue (normalizeUserData (Object3D.userData glue)).

(** A hinge node whose reference B names no collider. *)
Definition brokenHinge : Object3D.t :=
  Example.child 4
    (mkUserData (Some "Door") (TagNumber RigType.HingeConstraint) None None
       None None None (Some (mkRef (Some "A"))) (Some (mkRef (Some "Nobody")))
       None None)
    Vector3.zero Vector3.zero Vector3.zero [].

End JointExample.

(** ** More of [CableConstraint] *)

(** [lockHeadTo(body)] and [lockTailTo(body)]: the cable constraint after
    the call, and the world. The methods exist on cable constraints only. *)
Definition lockHeadTo (c : RigConstraint) (body : option nat) (w : World.t)
    : RigConstraint * World.t :=
  match c with
  | CableConstraint o cable lockToA lockToB =>
      let '(lockToA, w) :=
        lockXTo lockToA (TubeHead (tube_id cable)) body w in
      (CableConstraint o cable lockToA lockToB, w)
  | _ => (c, w)
  end.

Definition lockTailTo (c : RigConstraint) (body : option nat) (w : World.t)
    : RigConstraint * World.t :=
  match c with
  | CableConstraint o cable lockToA lockToB =>
      let '(lockToB, w) :=
        lockXTo lockToB (TubeTail (tube_id cable)) body w in
      (CableConstraint o cable lockToA lockToB, w)
  | _ => (c, w)
  end.

(** The fields of a constraint after [removeFrom(world)]. In
    [CableConstraint] the branch that removes [lockToB] assigns
    [this.lockToA = undefined], as the branch before it does: [lockToA] is
    cleared and [lockToB] keeps its value. *)
Definition after_removeFrom (c : RigConstraint) : RigConstraint :=
  match c with
  | CableConstraint o cable lockToA lockToB =>
      CableConstraint o cable None lockToB
  | _ => c
  end.

(** Where the origin of the rig of a cable node is in the world. The rig
    is added to the parent of the node ([obj.parent?.add(tube)]), so
    three.js reads [tube.position] in the space of that parent, whose world
    matrix is the one it has while [rigScene] runs; a rig without parent is
    at [tube.position]. *)
Definition tube_world_position (o : Object3D.t) (tube : CannonTubeRig)
    : Vector3.t :=
  match Object3D.parent o with
  | Some parentMatrixWorld => applyMatrix4 (tube_position tube) parentMatrixWorld
  | None => tube_position tube
  end.

(** The node as the first traversal leaves it. *)
Definition scanned (o : Object3D.t) : Object3D.t :=
  if collider_tag (tag_of o) then rigged o
  else Object3D.set_userData o (normalizeUserData (Object3D.userData o)).

Module LockExample.

(** A cable constraint without locks, for the rig 0, in a world with two
    bodies. *)
Definition rope : RigConstraint :=
  CableConstraint CableExample.cable1
    (mkCannonTubeRig 0 5 Vector3.zero None true) None None.

Definition world0 : World.t :=
  World.mk [SyncExample.driver; SyncExample.moved] 1 [0%nat; 1%nat] [] [0%nat].

(** The same cable with its tail locked to a body, in a world that holds
    the rig and the lock. *)
Definition tailLock : CannonConstraint :=
  mkCannonConstraint 1 PointToPoint (TubeTail 0) (RigidBody 0) false.

Definition moored : RigConstraint :=
  CableConstraint CableExample.cable1
    (mkCannonTubeRig 0 5 Vector3.zero None true) None (Some tailLock).

Definition world1 : World.t :=
  World.mk [SyncExample.driver] 2 [0%nat] [tailLock] [0%nat].

End LockExample.

(** The session a call left, whether it returned or threw. *)
Definition session_after (c : Completion Rigger) : Rigger :=
  match c with
  | Normal r => r
  | Throw _ r => r
  end.

(** ** The callers in the demo ([main.ts]) *)

(** What happens to the rigger in the demo. When a file is dropped the
    handler runs [physicsRig?.clear()] (and [disposeScene], which does not
    touch the rigger) and starts to load the file. When a load is done,
    the loader calls back: [physicsRig = new ThreeJsCannonEsSceneRigger(world)],
    then [physicsRig.rigScene(file.scene)]. The call back comes later, so
    other files may be dropped, and other loads may finish, between a drop
    and the call back of its load. *)
Inductive DemoEvent :=
| Dropped
| Loaded (scene : Object3D.t).

(** The state of the demo: [assigned] tells whether [physicsRig] holds a
    rigger; [current] is that rigger, or, before the first load is done, a
    session that only stands for the world and for what lives at module
    level. A new rigger has empty maps and lists, on the same world.
    [physicsRig] is assigned before [rigScene] runs, so a throw of
    [rigScene] leaves the new rigger in place. *)
Definition demo_step (d : Rigger * bool) (e : DemoEvent) : Rigger * bool :=
  let '(current, assigned) := d in
  match e with
  | Dropped => (if assigned then clear current else current, assigned)
  | Loaded scene =>
      let next :=
        mkRigger (world current) [] [] ∅ ∅ (vec current) (vec2 current)
          (rot current) (rot2 current) (console current) in
      (session_after (rigScene scene next), true)
  end.

Definition demo_run (events : list DemoEvent) (d : Rigger * bool)
    : Rigger * bool :=
  fold_left demo_step events d.

(** The events when every load is done before the next file is dropped. *)
Definition one_by_one (scenes : list Object3D.t) : list DemoEvent :=
  flat_map (fun scene => [Dropped; Loaded scene]) scenes.

(** The events when a second file is dropped before the load of the first
    is done. *)
Definition overlapping (first second : Object3D.t) : list DemoEvent :=
  [Dropped; Dropped; Loaded first; Loaded second].

(** A scene the rigger can tear down again: its nodes are different
    objects and none is a custom constraint. *)
Definition plain_scene (scene : Object3D.t) : Prop :=
  List.NoDup (List.map Object3D.id (Object3D.traverse scene)) /\
  List.Forall (fun o => tag_of o <> TagNumber RigType.Custom)
              (Object3D.traverse scene).
(** * Properties *)

(** ** 32-bit integers *)

Lemma toInt32_range z : JS.int32 (JS.toInt32 z).
Proof.
  unfold JS.int32, JS.toInt32.
  pose proof (Z.mod_pos_bound (z + 2 ^ 31) (2 ^ 32)) as H. lia.
Qed.

Lemma toInt32_id z : JS.int32 z -> JS.toInt32 z = z.
Proof.
  unfold JS.int32, JS.toInt32. intros H.
  rewrite Z.mod_small by lia. lia.
Qed.

Lemma bor_range a b : JS.int32 (JS.bor a b).
Proof. apply toInt32_range. Qed.

Lemma shl_0_l b : JS.shl 0 b = 0%Z.
Proof.
  unfold JS.shl. rewrite (toInt32_id 0) by (unfold JS.int32; lia).
  rewrite Z.shiftl_0_l. reflexivity.
Qed.

Lemma bor_0_r a : JS.int32 a -> JS.bor a 0 = a.
Proof.
  intros H. unfold JS.bor.
  rewrite (toInt32_id a H), (toInt32_id 0) by (unfold JS.int32; lia).
  rewrite Z.lor_0_r. now apply toInt32_id.
Qed.

(** ** The Metadata Normalizer *)

Lemma reduce_mask_selected flags :
  Forall (fun bit => bit = 0%Z \/ bit = 1%Z) flags ->
  forall idx mask, JS.int32 mask ->
    reduce_mask flags idx mask =
    fold_left (fun m i => JS.bor m (JS.shl 1 i)) (selected_from flags idx) mask.
Proof.
  induction 1 as [|bit rest Hbit _ IH]; intros idx mask Hm; simpl.
  - reflexivity.
  - destruct Hbit as [-> | ->]; simpl.
    + rewrite shl_0_l, bor_0_r by assumption. now apply IH.
    + apply IH, bor_range.
Qed.

Lemma normalizeType_idem t : normalizeType (normalizeType t) = normalizeType t.
Proof.
  destruct t as [|n|s]; cbn [normalizeType]; try reflexivity.
  destruct (js_get TypeAsString s); reflexivity.
Qed.

Lemma normalizeFlags_number n arr :
  normalizeFlags (Some (FlagsNumber n)) arr =
  Some (FlagsNumber
          (if (n =? 0)%Z then 0%Z
           else arrayToBitmask (FlagsArray (default [] arr)) None)).
Proof.
  unfold normalizeFlags, truthy.
  destruct (Z.eqb_spec n 0) as [-> | Hn]; simpl; [reflexivity|].
  destruct arr; reflexivity.
Qed.

Lemma normalizeFlags_number_idem n arr :
  normalizeFlags (normalizeFlags (Some (FlagsNumber n)) arr) arr =
  normalizeFlags (Some (FlagsNumber n)) arr.
Proof.
  rewrite (normalizeFlags_number n arr).
  destruct (Z.eqb_spec n 0) as [-> | Hn]; [reflexivity|].
  rewrite normalizeFlags_number.
  destruct (Z.eqb_spec (arrayToBitmask (FlagsArray (default [] arr)) None) 0)
    as [-> | _]; reflexivity.
Qed.

Lemma normalizeFlags_numeric v arr :
  exists r, normalizeFlags v arr = r /\
            (r = None \/ exists n, r = Some (FlagsNumber n)).
Proof.
  destruct v as [[n|l]|]; simpl; eauto.
  destruct (negb (n =? 0)%Z); eauto.
Qed.

Lemma normalizeFlags_idem_twice v arr :
  normalizeFlags (normalizeFlags (normalizeFlags v arr) arr) arr =
  normalizeFlags (normalizeFlags v arr) arr.
Proof.
  destruct (normalizeFlags_numeric v arr) as (r & -> & [-> | [n ->]]).
  - reflexivity.
  - apply normalizeFlags_number_idem.
Qed.

(** C4, as the code has it: a numeric tag is returned unchanged (and the
    normalisation of tags is idempotent); a numeric group or mask is kept
    when it is 0 and is otherwise replaced by the bit mask of the companion
    array annotation, which is 0 when there is no such array; normalising
    that result again changes nothing, and from the second scan on the
    normalisation of the whole annotation record is stable. *)
Theorem C4_normalisation_of_normalised_values :
  (forall n, normalizeType (TagNumber n) = TagNumber n) /\
  (forall t, normalizeType (normalizeType t) = normalizeType t) /\
  (forall n arr,
     normalizeFlags (Some (FlagsNumber n)) arr =
     Some (FlagsNumber
             (if (n =? 0)%Z then 0%Z
              else arrayToBitmask (FlagsArray (default [] arr)) None))) /\
  (forall n arr,
     normalizeFlags (normalizeFlags (Some (FlagsNumber n)) arr) arr =
     normalizeFlags (Some (FlagsNumber n)) arr) /\
  (forall u,
     normalizeUserData (normalizeUserData (normalizeUserData u)) =
     normalizeUserData (normalizeUserData u)).
Proof.
  repeat split.
  - apply normalizeType_idem.
  - apply normalizeFlags_number.
  - apply normalizeFlags_number_idem.
  - intros u. unfold normalizeUserData; simpl.
    rewrite !normalizeType_idem, !normalizeFlags_idem_twice. reflexivity.
Qed.

(** C4 fails as stated: an annotation record whose group is the list [1]
    and that has no companion array is normalised to the integer 1 by the
    first scan; the second scan, which finds the integer 1, turns it
    into 0. *)
Lemma C4_integer_group_is_rederived :
  let u := mkUserData None (TagNumber 1) (Some (FlagsArray [1%Z])) None
             None None None None None None None in
  threejscannones_cgroup (normalizeUserData u) = Some (FlagsNumber 1) /\
  threejscannones_cgroup (normalizeUserData (normalizeUserData u))
    = Some (FlagsNumber 0) /\
  normalizeFlags (Some (FlagsNumber 1)) None <> Some (FlagsNumber 1).
Proof.
  repeat split; try reflexivity. discriminate.
Qed.

(** ** The Body Builder *)

Lemma map_get_set m o o' i :
  Object3D.id o' = Object3D.id o -> map_get (map_set m o i) o' = Some i.
Proof.
  intros Hid. induction m as [|[k v] m IH]; simpl.
  - rewrite Hid, Nat.eqb_refl. reflexivity.
  - destruct (Nat.eqb (Object3D.id k) (Object3D.id o)) eqn:E; simpl.
    + rewrite Hid, Nat.eqb_refl. reflexivity.
    + rewrite Hid, E. exact IH.
Qed.

Lemma map_get_set_other m o o' i :
  Object3D.id o' <> Object3D.id o -> map_get (map_set m o i) o' = map_get m o'.
Proof.
  intros Hid. induction m as [|[k v] m IH]; simpl.
  - destruct (Nat.eqb_spec (Object3D.id o) (Object3D.id o')); congruence.
  - destruct (Nat.eqb_spec (Object3D.id k) (Object3D.id o)) as [E|E]; simpl.
    + rewrite E.
      destruct (Nat.eqb_spec (Object3D.id o) (Object3D.id o')); congruence.
    + destruct (Nat.eqb (Object3D.id k) (Object3D.id o')); [reflexivity|exact IH].
Qed.

Lemma includes_In l i : World.includes l i = true <-> In i l.
Proof.
  unfold World.includes. rewrite existsb_exists. split.
  - intros (j & Hj & E). apply Nat.eqb_eq in E. now subst.
  - intros H. exists i. split; [assumption|apply Nat.eqb_refl].
Qed.

Lemma addBody_In w i : In i (World.bodies (World.addBody w i)).
Proof.
  unfold World.addBody.
  destruct (World.includes (World.bodies w) i) eqn:E.
  - now apply includes_In.
  - simpl. apply in_or_app. right. now left.
Qed.

Lemma addBody_incl w i :
  incl (World.bodies w) (World.bodies (World.addBody w i)).
Proof.
  unfold World.addBody.
  destruct (World.includes (World.bodies w) i); simpl.
  - apply incl_refl.
  - apply incl_appl, incl_refl.
Qed.

Lemma addBody_objects w i : World.objects (World.addBody w i) = World.objects w.
Proof. unfold World.addBody. now destruct (World.includes _ _). Qed.

(** What [createCollider] returns and leaves behind. *)
Lemma createCollider_spec shape o r :
  let o' := Object3D.set_visible o false in
  let m := default 0%R (threejscannones_mass (Object3D.userData o)) in
  let body :=
    Body.set_pose
      (Body.new shape m (or_one (threejscannones_cwith (Object3D.userData o)))
                (or_one (threejscannones_cgroup (Object3D.userData o))))
      (Object3D.getWorldPosition o) (Object3D.getWorldQuaternion o) in
  let i := List.length (World.objects (world r)) in
  exists r',
    createCollider shape o r = (i, o', r') /\
    World.objects (world r') = World.objects (world r) ++ [body] /\
    (In i (World.bodies (world r')) /\
     incl (World.bodies (world r)) (World.bodies (world r'))) /\
    obj2bod r' = map_set (obj2bod r) o' i /\
    constraints r' = constraints r /\
    customConstraints r' = customConstraints r.
Proof.
  intros o' m body i. unfold createCollider.
  eexists. split; [reflexivity|].
  cbn [world with_world with_obj2bod obj2bod constraints customConstraints].
  rewrite addBody_objects. split.
  - reflexivity.
  - split; [split; [apply addBody_In|refine (addBody_incl (World.mk _ _ _ _ _) _)]|].
    split; [reflexivity|]. split; reflexivity.
Qed.

Lemma fold_addChildShape p q cs : forall b,
  let b' := fold_left (addChildShape p q) cs b in
  Body.shapes b' =
    Body.shapes b ++ List.map (fun c => Box (Object3D.getWorldScale c)) cs /\
  Body.shapeOffsets b' =
    Body.shapeOffsets b ++
    List.map (fun c => applyQuaternion
                         (Vector3.sub (Object3D.getWorldPosition c) p) q) cs /\
  Body.shapeOrientations b' =
    Body.shapeOrientations b ++
    List.map (fun c => Quaternion.multiply q (Object3D.getWorldQuaternion c)) cs /\
  Body.mass b' = Body.mass b /\
  Body.collisionFilterGroup b' = Body.collisionFilterGroup b /\
  Body.collisionFilterMask b' = Body.collisionFilterMask b.
Proof.
  induction cs as [|c cs IH]; intros b; cbn [fold_left List.map].
  - rewrite !app_nil_r. repeat split.
  - destruct (IH (addChildShape p q b c)) as (H1 & H2 & H3 & H4 & H5 & H6).
    cbv zeta. rewrite H1, H2, H3, H4, H5, H6.
    unfold addChildShape, Body.addShape;
      cbn [Body.shapes Body.shapeOffsets Body.shapeOrientations Body.mass
           Body.collisionFilterGroup Body.collisionFilterMask].
    rewrite <- !app_assoc. repeat split.
Qed.

Lemma lookup_snoc {T} (l : list T) (b : T) : (l ++ [b]) !! List.length l = Some b.
Proof. induction l; simpl; auto. Qed.

Lemma insert_snoc {T} (l : list T) (b b' : T) :
  <[List.length l := b']> (l ++ [b]) = l ++ [b'].
Proof. induction l; simpl; [reflexivity|]. now f_equal. Qed.

Lemma collider_tag_cases t :
  collider_tag t = true ->
  t = TagNumber RigType.BoxCollider \/ t = TagNumber RigType.SphereCollider \/
  t = TagNumber RigType.CompoundCollider.
Proof.
  unfold collider_tag, tag_is. destruct t as [|n|s]; try discriminate.
  intros H. apply orb_prop in H as [H|H]; [apply orb_prop in H as [H|H]|];
    apply Z.eqb_eq in H; subst; auto.
Qed.

(** The callback of the first traversal on a collider node: one body is
    made, registered in the world and in the map; its pose is the world
    pose of the node, its filter comes from the normalised annotations, its
    shapes from the scale of the node or, for a compound, from its
    children. *)
Lemma pass1_collider o r :
  collider_tag (tag_of o) = true ->
  exists o' r' body,
    pass1 o r = (o', r') /\
    Object3D.id o' = Object3D.id o /\
    World.objects (world r') = World.objects (world r) ++ [body] /\
    (In (List.length (World.objects (world r))) (World.bodies (world r')) /\
     incl (World.bodies (world r)) (World.bodies (world r'))) /\
    obj2bod r' = map_set (obj2bod r) o' (List.length (World.objects (world r))) /\
    constraints r' = constraints r /\
    customConstraints r' = customConstraints r /\
    Body.position body = Object3D.getWorldPosition o /\
    Body.quaternion body = Object3D.getWorldQuaternion o /\
    Body.shapes body = shapes_of o /\
    Body.shapeOffsets body = shapeOffsets_of o /\
    Body.shapeOrientations body = shapeOrientations_of o /\
    Body.collisionFilterGroup body =
      resolved_filter (threejscannones_cgroup (Object3D.userData o))
                      (threejscannones_cgroup_array (Object3D.userData o)) /\
    Body.collisionFilterMask body =
      resolved_filter (threejscannones_cwith (Object3D.userData o))
                      (threejscannones_cwith_array (Object3D.userData o)).
Proof.
  intros Htag.
  set (o1 := Object3D.set_userData o (normalizeUserData (Object3D.userData o))).
  assert (Ht : threejscannones_type (Object3D.userData o1) = tag_of o)
    by reflexivity.
  unfold shapes_of, shapeOffsets_of, shapeOrientations_of.
  apply collider_tag_cases in Htag as [E|[E|E]]; rewrite E;
    cbn [tag_is RigType.BoxCollider RigType.SphereCollider
         RigType.CompoundCollider Z.eqb Pos.eqb];
    unfold pass1; fold o1; rewrite Ht, E;
    cbn [tag_is RigType.BoxCollider RigType.SphereCollider
         RigType.CompoundCollider Z.eqb Pos.eqb].
  - destruct (createCollider_spec (Some (Box (Object3D.scale o1))) o1 r)
      as (r' & Hc & Hobj & Hin & Hmap & Hcs & Hcc).
    rewrite Hc. do 3 eexists. split; [reflexivity|].
    split; [reflexivity|]. split; [exact Hobj|]. split; [exact Hin|].
    split; [exact Hmap|]. split; [exact Hcs|]. split; [exact Hcc|].
    repeat split.
  - destruct (createCollider_spec (Some (Sphere (Vector3.x (Object3D.scale o1)))) o1 r)
      as (r' & Hc & Hobj & Hin & Hmap & Hcs & Hcc).
    rewrite Hc. do 3 eexists. split; [reflexivity|].
    split; [reflexivity|]. split; [exact Hobj|]. split; [exact Hin|].
    split; [exact Hmap|]. split; [exact Hcs|]. split; [exact Hcc|].
    repeat split.
  - destruct (createCollider_spec None o1 r)
      as (r' & Hc & Hobj & Hin & Hmap & Hcs & Hcc).
    rewrite Hc. unfold addCompoundShapes.
    rewrite Hobj, lookup_snoc.
    do 3 eexists. split; [reflexivity|].
    split; [reflexivity|].
    cbn [world with_world World.store World.objects World.bodies obj2bod
         constraints customConstraints].
    rewrite Hobj, insert_snoc.
    split; [reflexivity|]. split; [exact Hin|].
    split; [exact Hmap|]. split; [exact Hcs|]. split; [exact Hcc|].
    unfold addCompoundShapes_body.
    cbn [Body.set_pose Body.position Body.quaternion Body.shapes
         Body.shapeOffsets Body.shapeOrientations Body.collisionFilterGroup
         Body.collisionFilterMask].
    match goal with
    | |- context [fold_left (addChildShape ?p ?q) ?cs ?b] =>
        destruct (fold_addChildShape p q cs b) as (H1 & H2 & H3 & _ & H5 & H6)
    end.
    cbv zeta in H1, H2, H3, H5, H6. rewrite H1, H2, H3, H5, H6.
    repeat split.
Qed.

Lemma arrayToBitmask_flags (ticks : list bool) arr :
  arrayToBitmask (FlagsArray (List.map flag ticks)) arr =
  or_of_selected (selected (List.map flag ticks)).
Proof.
  unfold arrayToBitmask, or_of_selected, selected.
  destruct ticks as [|b ticks]; [reflexivity|].
  cbn [List.map List.length Nat.add].
  rewrite Nat2Z.inj_succ.
  destruct (Z.eqb_spec (Z.succ (Z.of_nat (List.length (List.map flag ticks)))) 0)
    as [E|_]; [lia|].
  apply reduce_mask_selected with (flags := flag b :: List.map flag ticks).
  - clear. apply List.Forall_forall. intros x Hx.
    change (In x (List.map flag (b :: ticks))) in Hx.
    apply in_map_iff in Hx as (c & <- & _). destruct c; auto.
  - unfold JS.int32. lia.
Qed.

(** C5, as the code has it: an annotation given as a list of flags, one
    per bit position and each 0 or 1, resolves to the bitwise OR of
    [1 << index] over the positions that hold 1; the empty list resolves
    to 0; the body of a collider node gets as group and mask the value
    that normalisation leaves, and 1 only when the annotation is absent: a
    resolved 0 (from the empty list, or the number 0) stays 0. *)
Theorem C5_bitmask_resolution_and_defaults :
  (forall (ticks : list bool) arr,
     arrayToBitmask (FlagsArray (List.map flag ticks)) arr =
     or_of_selected (selected (List.map flag ticks))) /\
  (forall arr, arrayToBitmask (FlagsArray []) arr = 0%Z) /\
  (forall arr, resolved_filter None arr = 1%Z) /\
  (forall arr, resolved_filter (Some (FlagsArray [])) arr = 0%Z) /\
  (forall arr, resolved_filter (Some (FlagsNumber 0)) arr = 0%Z) /\
  (forall o r,
     collider_tag (tag_of o) = true ->
     exists body,
       World.objects (world (snd (pass1 o r)))
         !! List.length (World.objects (world r)) = Some body /\
       Body.collisionFilterGroup body =
         resolved_filter (threejscannones_cgroup (Object3D.userData o))
                         (threejscannones_cgroup_array (Object3D.userData o)) /\
       Body.collisionFilterMask body =
         resolved_filter (threejscannones_cwith (Object3D.userData o))
                         (threejscannones_cwith_array (Object3D.userData o))).
Proof.
  split; [exact arrayToBitmask_flags|].
  split; [reflexivity|]. split; [reflexivity|].
  split; [reflexivity|]. split; [reflexivity|].
  intros o r Htag.
  destruct (pass1_collider o r Htag)
    as (o' & r' & body & Hp & _ & Hobj & _ & _ & _ & _ & _ & _ & _ & _ & _ & Hg & Hm).
  exists body. rewrite Hp. cbn [snd]. rewrite Hobj, lookup_snoc. auto.
Qed.

(** The theorem at a box collider annotated with the flags [1; 0; 1]: its
    body is in group 5. *)
Lemma C5_bitmask_witness :
  let o := Example.node 0
             (mkUserData None (TagNumber 1)
                (Some (FlagsArray [1%Z; 0%Z; 1%Z])) None
                None None None None None None None)
             Vector3.zero [] in
  collider_tag (tag_of o) = true /\
  exists body,
    World.objects (world (snd (pass1 o (newRigger World.empty))))
      !! 0%nat = Some body /\
    Body.collisionFilterGroup body = 5%Z /\
    Body.collisionFilterMask body = 1%Z.
Proof.
  intros o. split; [reflexivity|].
  destruct C5_bitmask_resolution_and_defaults as (_ & _ & _ & _ & _ & H).
  destruct (H o (newRigger World.empty) eq_refl) as (body & Hb & Hg & Hm).
  exists body. split; [exact Hb|]. split; [rewrite Hg|rewrite Hm]; reflexivity.
Defined.

(** C5 fails as stated. A box collider whose group annotation is the empty
    list gets a body in group 0, not 1; and a list read as the selected
    indices 0 and 2 resolves to 4, where the OR of [1 << 0] and [1 << 2]
    is 5. *)
Lemma C5_resolved_zero_is_kept :
  (exists body,
     World.objects (world (snd (pass1 Example.boxWithEmptyGroup
                                  (newRigger World.empty))))
       !! 0%nat = Some body /\
     Body.collisionFilterGroup body = 0%Z /\
     Body.collisionFilterGroup body <> 1%Z) /\
  arrayToBitmask (FlagsArray [0%Z; 2%Z]) None = 4%Z /\
  or_of_selected [0%Z; 2%Z] = 5%Z.
Proof.
  split; [|split; reflexivity].
  eexists. split; [reflexivity|]. split; [reflexivity|discriminate].
Qed.

Lemma pass1_not_collider o r :
  collider_tag (tag_of o) = false ->
  pass1 o r =
  (Object3D.set_userData o (normalizeUserData (Object3D.userData o)), r).
Proof.
  unfold collider_tag, pass1.
  change (threejscannones_type
            (Object3D.userData
               (Object3D.set_userData o (normalizeUserData (Object3D.userData o)))))
    with (tag_of o).
  intros H. apply orb_false_elim in H as [H H3].
  apply orb_false_elim in H as [H1 H2]. now rewrite H1, H2, H3.
Qed.

(** What one call of the callback leaves untouched. *)
Lemma pass1_frame o r :
  let r' := snd (pass1 o r) in
  (exists extra, World.objects (world r') = World.objects (world r) ++ extra) /\
  incl (World.bodies (world r)) (World.bodies (world r')) /\
  (forall x, Object3D.id x <> Object3D.id o ->
             map_get (obj2bod r') x = map_get (obj2bod r) x).
Proof.
  destruct (collider_tag (tag_of o)) eqn:Htag.
  - destruct (pass1_collider o r Htag)
      as (o' & r' & body & Hp & Hid & Hobj & [_ Hincl] & Hmap & _).
    rewrite Hp. cbn [snd]. split; [eauto|]. split; [exact Hincl|].
    intros x Hx. rewrite Hmap. apply map_get_set_other. congruence.
  - rewrite (pass1_not_collider o r Htag). cbn [snd].
    split; [exists []; now rewrite app_nil_r|]. split; [apply incl_refl|auto].
Qed.

Lemma pass1_all_cons o nodes r :
  snd (pass1_all (o :: nodes) r) = snd (pass1_all nodes (snd (pass1 o r))).
Proof.
  cbn [pass1_all]. destruct (pass1 o r) as [o' r1]. cbn [snd].
  destruct (pass1_all nodes r1). reflexivity.
Qed.

Lemma pass1_all_frame nodes : forall r,
  let r' := snd (pass1_all nodes r) in
  (exists extra, World.objects (world r') = World.objects (world r) ++ extra) /\
  incl (World.bodies (world r)) (World.bodies (world r')) /\
  (forall x, ~ In (Object3D.id x) (List.map Object3D.id nodes) ->
             map_get (obj2bod r') x = map_get (obj2bod r) x).
Proof.
  induction nodes as [|o nodes IH]; intros r.
  - cbn. split; [exists []; now rewrite app_nil_r|]. split; [apply incl_refl|auto].
  - cbv zeta. rewrite pass1_all_cons.
    destruct (pass1_frame o r) as ([e1 H1] & H2 & H3).
    destruct (IH (snd (pass1 o r))) as ([e2 H4] & H5 & H6).
    cbv zeta in H1, H2, H3, H4, H5, H6. split; [|split].
    + exists (e1 ++ e2). rewrite H4, H1, app_assoc. reflexivity.
    + eapply incl_tran; eassumption.
    + intros x Hx. cbn [List.map] in Hx. rewrite H6, H3.
      * reflexivity.
      * intros E. apply Hx. left. congruence.
      * intros E. apply Hx. now right.
Qed.

Lemma pass1_all_collider nodes : forall r o,
  List.NoDup (List.map Object3D.id nodes) ->
  In o nodes ->
  collider_tag (tag_of o) = true ->
  exists i body,
    map_get (obj2bod (snd (pass1_all nodes r))) o = Some i /\
    World.objects (world (snd (pass1_all nodes r))) !! i = Some body /\
    In i (World.bodies (world (snd (pass1_all nodes r)))) /\
    (List.length (World.objects (world r)) <= i)%nat /\
    Body.position body = Object3D.getWorldPosition o /\
    Body.quaternion body = Object3D.getWorldQuaternion o /\
    Body.shapes body = shapes_of o /\
    Body.shapeOffsets body = shapeOffsets_of o /\
    Body.shapeOrientations body = shapeOrientations_of o.
Proof.
  induction nodes as [|n nodes IH]; intros r o Hnd Hin Htag; [destruct Hin|].
  cbn [List.map] in Hnd. apply List.NoDup_cons_iff in Hnd as [Hfresh Hnd].
  rewrite pass1_all_cons.
  destruct (pass1_all_frame nodes (snd (pass1 n r))) as ([e He] & Hb & Hm).
  cbv zeta in He, Hb, Hm.
  destruct Hin as [-> | Hin].
  - destruct (pass1_collider o r Htag)
      as (o' & r1 & body & Hp & Hid & Hobj & [Hi _] & Hmap & _ & _
          & Hpos & Hq & Hs & Hso & Hsr & _).
    rewrite Hp in *. cbn [snd] in *.
    exists (List.length (World.objects (world r))), body.
    split; [|split; [|split; [|split; [|repeat split; assumption]]]].
    + rewrite Hm by exact Hfresh. rewrite Hmap. now apply map_get_set.
    + rewrite He, Hobj, <- app_assoc. cbn [app].
      apply list_lookup_middle. reflexivity.
    + apply Hb, Hi.
    + apply Nat.le_refl.
  - destruct (IH (snd (pass1 n r)) o Hnd Hin Htag)
      as (i & body & H1 & H2 & H3 & H4 & H5).
    exists i, body. split; [exact H1|]. split; [exact H2|]. split; [exact H3|].
    split; [|exact H5].
    destruct (pass1_frame n r) as ([e1 E1] & _). cbv zeta in E1.
    rewrite E1, length_app in H4. lia.
Qed.

(** C2. After the first traversal of a scene, every node tagged as a box,
    sphere or compound collider has a body in the map and in the world,
    made during that traversal, whose position and orientation are the
    world position and world orientation of the node, wherever the node
    sits in the tree; the scale of the node appears in the shapes only
    (half extents of the box, radius of the sphere). *)
Theorem C2_collider_body_has_world_pose
    (scene : Object3D.t) (r : Rigger) (o : Object3D.t) :
  List.NoDup (List.map Object3D.id (Object3D.traverse scene)) ->
  In o (Object3D.traverse scene) ->
  collider_tag (tag_of o) = true ->
  let r' := snd (pass1_all (Object3D.traverse scene) r) in
  exists i body,
    map_get (obj2bod r') o = Some i /\
    World.objects (world r') !! i = Some body /\
    In i (World.bodies (world r')) /\
    (List.length (World.objects (world r)) <= i)%nat /\
    Body.position body = Object3D.getWorldPosition o /\
    Body.quaternion body = Object3D.getWorldQuaternion o /\
    Body.shapes body = shapes_of o.
Proof.
  intros Hnd Hin Htag r'.
  destruct (pass1_all_collider (Object3D.traverse scene) r o Hnd Hin Htag)
    as (i & body & H1 & H2 & H3 & H4 & H5 & H6 & H7 & _).
  exists i, body. repeat split; assumption.
Qed.

Lemma scenes_root_ids :
  List.NoDup (List.map Object3D.id (Object3D.traverse Scenes.root)).
Proof.
  cbn. repeat constructor; cbn; intuition discriminate.
Qed.

(** The theorem at the compound collider of the example scene, a child of
    the root placed at (1, 2, 3). *)
Lemma C2_collider_body_witness :
  List.NoDup (List.map Object3D.id (Object3D.traverse Scenes.root)) /\
  In Scenes.claw (Object3D.traverse Scenes.root) /\
  collider_tag (tag_of Scenes.claw) = true /\
  exists i body,
    map_get (obj2bod (snd (pass1_all (Object3D.traverse Scenes.root)
                             (newRigger World.empty)))) Scenes.claw = Some i /\
    World.objects (world (snd (pass1_all (Object3D.traverse Scenes.root)
                                 (newRigger World.empty)))) !! i = Some body /\
    In i (World.bodies (world (snd (pass1_all (Object3D.traverse Scenes.root)
                                      (newRigger World.empty))))) /\
    (List.length (World.objects (world (newRigger World.empty))) <= i)%nat /\
    Body.position body = Vector3.mk 1 2 3 /\
    Body.quaternion body = Quaternion.identity /\
    Body.shapes body = [Box (Vector3.mk 1 1 1); Box (Vector3.mk 1 1 1)].
Proof.
  split; [exact scenes_root_ids|].
  split; [cbn; auto|]. split; [reflexivity|].
  exact (C2_collider_body_has_world_pose Scenes.root (newRigger World.empty)
           Scenes.claw scenes_root_ids
           (or_intror (or_intror (or_introl eq_refl))) eq_refl).
Defined.

(** ** Quaternions of unit length *)






(** ** The Compound Assembler *)



(** ** The matrices of three.js *)





















(** ** The Sync Link *)




Lemma writePose_parent o pm p q :
  Object3D.parent (writePose o pm p q) = Object3D.parent o.
Proof.
  unfold writePose. destruct (poseToWrite o pm (p, q)) as [p' q']. reflexivity.
Qed.


Lemma poseToWrite_writePose o pm p q pm' pose :
  poseToWrite (writePose o pm p q) pm' pose = poseToWrite o pm' pose.
Proof. unfold poseToWrite. now rewrite writePose_parent. Qed.









(** ** The Constraint Builder *)

Lemma pass2_all_app before : forall after r,
  pass2_all (before ++ after) r =
  match pass2_all before r with
  | Normal r' => pass2_all after r'
  | Throw m r' => Throw m r'
  end.
Proof.
  induction before as [|o before IH]; intros after r; cbn [app pass2_all].
  - reflexivity.
  - destruct (pass2 o r); [apply IH|reflexivity].
Qed.

(** C7. A sync-tagged node whose sync source does not resolve to a body is
    skipped: the callback of the second traversal returns, it leaves the
    constraint list, the world and the maps as they were and writes one
    warning, and the traversal goes on with the nodes that follow. *)
Theorem C7_unresolved_sync_is_skipped
    (o : Object3D.t) (rest : list Object3D.t) (r : Rigger) :
  threejscannones_type (Object3D.userData o) = TagNumber RigType.SyncLocRot ->
  getBodyByName r (opt_name (threejscannones_syncSource (Object3D.userData o)))
    = None ->
  exists r',
    pass2 o r = Normal r' /\
    constraints r' = constraints r /\
    world r' = world r /\
    obj2bod r' = obj2bod r /\
    customConstraints r' = customConstraints r /\
    (exists warning, console r' = console r ++ [warning]) /\
    pass2_all (o :: rest) r = pass2_all rest r'.
Proof.
  intros Htag Hsrc. unfold pass2. rewrite Htag.
  cbn [tag_is RigType.DistanceConstraint RigType.PointConstraint
       RigType.HingeConstraint RigType.LockConstraint RigType.SyncLocRot
       Z.eqb Pos.eqb].
  rewrite Hsrc. eexists. split; [reflexivity|].
  cbn [createSyncBetween with_console constraints world obj2bod
       customConstraints console].
  repeat (split; [reflexivity|]).
  split; [eexists; reflexivity|].
  cbn [pass2_all]. unfold pass2. rewrite Htag.
  cbn [tag_is RigType.DistanceConstraint RigType.PointConstraint
       RigType.HingeConstraint RigType.LockConstraint RigType.SyncLocRot
       Z.eqb Pos.eqb].
  rewrite Hsrc. reflexivity.
Qed.

(** The theorem at a sync node whose source is named "Ghost", in a session
    without bodies, followed by a box collider. *)
Lemma C7_unresolved_sync_witness :
  threejscannones_type (Object3D.userData SyncSkipExample.follower)
    = TagNumber RigType.SyncLocRot /\
  getBodyByName (newRigger World.empty)
    (opt_name (threejscannones_syncSource
                 (Object3D.userData SyncSkipExample.follower))) = None /\
  exists r',
    pass2 SyncSkipExample.follower (newRigger World.empty) = Normal r' /\
    constraints r' = [] /\
    pass2_all [SyncSkipExample.follower; Scenes.floor] (newRigger World.empty)
    = pass2_all [Scenes.floor] r'.
Proof.
  split; [reflexivity|]. split; [reflexivity|].
  destruct (C7_unresolved_sync_is_skipped SyncSkipExample.follower
              [Scenes.floor] (newRigger World.empty) eq_refl eq_refl)
    as (r' & H1 & H2 & _ & _ & _ & _ & H7).
  exists r'. auto.
Defined.

Lemma find_body_first named : forall o body others n,
  List.Forall (fun e => name (Object3D.userData (fst e)) <> n) named ->
  name (Object3D.userData o) = n ->
  find_body (named ++ (o, body) :: others) n = Some body.
Proof.
  induction named as [|[k v] named IH]; intros o body others n Hall Ho;
    cbn [app find_body].
  - destruct (decide (name (Object3D.userData o) = n)); congruence.
  - inversion Hall as [|? ? Hk Hrest]; subst. cbn [fst] in Hk.
    destruct (decide (name (Object3D.userData k) = name (Object3D.userData o)));
      [contradiction|].
    now apply IH.
Qed.

(** C10. [getBodyByName] called with [undefined] returns the body of the
    first node of the map that has no [userData.name], when there is one;
    so a sync node without a sync source, for which the second traversal
    asks for the body named [undefined], is linked to that body, and no
    warning is written. *)
Theorem C10_undefined_name_finds_unnamed_collider
    (r : Rigger) (named others : list (Object3D.t * nat))
    (o : Object3D.t) (body : nat) (n : Object3D.t) :
  obj2bod r = named ++ (o, body) :: others ->
  List.Forall (fun e => name (Object3D.userData (fst e)) <> None) named ->
  name (Object3D.userData o) = None ->
  getBodyByName r None = Some body /\
  (threejscannones_type (Object3D.userData n) = TagNumber RigType.SyncLocRot ->
   threejscannones_syncSource (Object3D.userData n) = None ->
   pass2 n r =
   Normal (with_constraints r
             (constraints r ++
              [SyncConstraint
                 (mkSyncLink n body Vector3.zero Quaternion.identity false)]))).
Proof.
  intros Hmap Hnamed Hname.
  assert (Hget : getBodyByName r None = Some body)
    by (unfold getBodyByName; rewrite Hmap; now apply find_body_first).
  split; [exact Hget|].
  intros Htag Hsrc. unfold pass2. rewrite Htag, Hsrc.
  cbn [tag_is RigType.DistanceConstraint RigType.PointConstraint
       RigType.HingeConstraint RigType.LockConstraint RigType.SyncLocRot
       Z.eqb Pos.eqb opt_name].
  rewrite Hget. reflexivity.
Qed.

(** The theorem after the first traversal of a scene that holds a box
    collider without a name and a sync node without a sync source: the sync
    node is linked to the body of the box. *)
Lemma C10_undefined_name_witness :
  let nodes := fst (pass1_all (Object3D.traverse SyncSkipExample.scene)
                      (newRigger World.empty)) in
  let r := snd (pass1_all (Object3D.traverse SyncSkipExample.scene)
                  (newRigger World.empty)) in
  obj2bod r = [] ++ (Object3D.set_visible
                       (Object3D.set_userData SyncSkipExample.unnamedBox
                          (normalizeUserData
                             (Object3D.userData SyncSkipExample.unnamedBox)))
                       false, 0%nat) :: [] /\
  getBodyByName r None = Some 0%nat /\
  exists link,
    rigScene SyncSkipExample.scene (newRigger World.empty)
    = Normal (with_constraints r [SyncConstraint link]) /\
    sync_body link = 0%nat /\
    console r = [].
Proof.
  intros nodes r.
  assert (Hmap : obj2bod r =
                 [] ++ (Object3D.set_visible
                          (Object3D.set_userData SyncSkipExample.unnamedBox
                             (normalizeUserData
                                (Object3D.userData SyncSkipExample.unnamedBox)))
                          false, 0%nat) :: []) by reflexivity.
  destruct (C10_undefined_name_finds_unnamed_collider r [] []
              (Object3D.set_visible
                 (Object3D.set_userData SyncSkipExample.unnamedBox
                    (normalizeUserData
                       (Object3D.userData SyncSkipExample.unnamedBox))) false)
              0%nat
              (Object3D.set_userData SyncSkipExample.orphan
                 (normalizeUserData (Object3D.userData SyncSkipExample.orphan)))
              Hmap (List.Forall_nil _) eq_refl) as [Hget Hsync].
  split; [exact Hmap|]. split; [exact Hget|].
  exists (mkSyncLink
            (Object3D.set_userData SyncSkipExample.orphan
               (normalizeUserData (Object3D.userData SyncSkipExample.orphan)))
            0 Vector3.zero Quaternion.identity false).
  split; [|split; reflexivity].
  vm_compute. reflexivity.
Defined.

Lemma falsy_id_spec id :
  falsy_id id = true <-> id = None \/ id = Some ""%string.
Proof.
  destruct id as [s|]; cbn [falsy_id].
  - rewrite String.eqb_eq. split.
    + intros ->. now right.
    + intros [H|H]; congruence.
  - split; auto.
Qed.

Lemma pass2_custom o r :
  threejscannones_type (Object3D.userData o) = TagNumber RigType.Custom ->
  pass2 o r =
  createCustomConstraint o
    (getBodyByName r (opt_name (threejscannones_A (Object3D.userData o))))
    (getBodyByName r (opt_name (threejscannones_B (Object3D.userData o)))) r.
Proof. intros H. unfold pass2. rewrite H. reflexivity. Qed.

(** C6. A custom-constraint node makes [createCustomConstraint] throw
    exactly when it has no identifier (the annotation is absent or is the
    empty string) or no factory is registered for its identifier; otherwise
    the value the registered factory returns is stored under the name of
    the node and [getCustomConstraint] of that name gives this very value.
    In the second traversal a node tagged as custom is handed to
    [createCustomConstraint], and a throw there ends the traversal with
    that throw: the nodes that follow are not visited. *)
Theorem C6_custom_constraint_dispatch
    (o : Object3D.t) (a b : option nat) (r : Rigger) :
  let id := threejscannones_customId (Object3D.userData o) in
  let config :=
    mkCustomContraintConfig o
      (or_one (threejscannones_cgroup (Object3D.userData o)))
      (or_one (threejscannones_cwith (Object3D.userData o))) a b in
  ((exists m r', createCustomConstraint o a b r = Throw m r') <->
   (id = None \/ id = Some ""%string \/
    exists s, id = Some s /\ customId2ConstraintFactory r !! s = None)) /\
  (forall s create,
     id = Some s -> s <> ""%string ->
     customId2ConstraintFactory r !! s = Some create ->
     exists r',
       createCustomConstraint o a b r = Normal r' /\
       getCustomConstraint r' (name (Object3D.userData o))
         = Some (fst (create config (world r))) /\
       world r' = snd (create config (world r)) /\
       constraints r' = constraints r) /\
  (threejscannones_type (Object3D.userData o) = TagNumber RigType.Custom ->
   forall m r' before after r0,
     pass2_all before r0 = Normal r ->
     createCustomConstraint o
       (getBodyByName r (opt_name (threejscannones_A (Object3D.userData o))))
       (getBodyByName r (opt_name (threejscannones_B (Object3D.userData o))))
       r = Throw m r' ->
     pass2_all (before ++ o :: after) r0 = Throw m r').
Proof.
  intros id config. split; [|split].
  - unfold createCustomConstraint. fold id.
    destruct id as [s|] eqn:Eid; cbn [falsy_id].
    + destruct (String.eqb_spec s "") as [->|Hs].
      * split; [auto|]. intros _. eauto.
      * destruct (customId2ConstraintFactory r !! s) as [create|] eqn:Ef.
        -- split.
           ++ intros (m & r' & H).
              destruct (create _ (world r)) in H. discriminate.
           ++ intros [H|[H|(s' & H & Hn)]]; congruence.
        -- split; [|eauto]. intros _. right. right. eauto.
    + split; [auto|]. intros _. eauto.
  - intros s create Hid Hs Hf. unfold createCustomConstraint.
    fold id. rewrite Hid. cbn [falsy_id].
    destruct (String.eqb_spec s "") as [->|_]; [contradiction|].
    rewrite Hf. fold config.
    destruct (create config (world r)) as [constraint w].
    eexists. split; [reflexivity|].
    unfold getCustomConstraint.
    cbn [customConstraints with_customConstraints with_world world
         constraints fst snd].
    rewrite lookup_insert_eq. auto.
  - intros Htag m r' before after r0 Hbefore Hthrow.
    rewrite pass2_all_app, Hbefore. cbn [pass2_all].
    now rewrite (pass2_custom o r Htag), Hthrow.
Qed.

(** The theorem at the node "Spring" with the identifier "foo", in a
    session in which the host registered a factory under "foo"; and at the
    same node with the identifier "bar", for which [rigScene] throws. *)
Lemma C6_custom_constraint_witness :
  threejscannones_customId (Object3D.userData CustomExample.joint)
    = Some "foo"%string /\
  "foo"%string <> ""%string /\
  customId2ConstraintFactory CustomExample.session !! "foo"%string
    = Some CustomExample.springFactory /\
  (exists r',
     createCustomConstraint CustomExample.joint None None CustomExample.session
       = Normal r' /\
     getCustomConstraint r' (Some "Spring"%string)
       = Some CustomExample.inert) /\
  rigScene CustomExample.unknown CustomExample.session
    = Throw (msg_not_found "bar") CustomExample.session.
Proof.
  split; [reflexivity|]. split; [discriminate|]. split; [reflexivity|].
  split; [|reflexivity].
  destruct (C6_custom_constraint_dispatch CustomExample.joint None None
              CustomExample.session) as (_ & H & _).
  destruct (H "foo"%string CustomExample.springFactory eq_refl
              ltac:(discriminate) eq_refl) as (r' & H1 & H2 & _).
  exists r'. split; [exact H1|exact H2].
Defined.

(** ** The Cable Rig *)

Lemma applyMatrix4_zero m : applyMatrix4 Vector3.zero m = Matrix4.position m.
Proof.
  unfold applyMatrix4, Matrix4.position, Vector3.zero.
  cbn [Vector3.x Vector3.y Vector3.z]. f_equal; ring.
Qed.

(** What [createCable] builds for a node with two children or more, from
    any state of the scratch vector [vec2]: the second anchor is the
    previous value of [vec2] taken through the world matrix of the second
    child, and [vec2] keeps it. *)
Lemma createCable_anchors o c0 c1 others a b r :
  Object3D.children o = c0 :: c1 :: others ->
  let v2 := Object3D.localToWorld c1 (vec2 r) in
  exists tube,
    cables (createCable o a b r) = cables r ++ [tube] /\
    tube_position tube = Object3D.getWorldPosition c0 /\
    tube_lookAt tube = Some v2 /\
    tube_length tube = Vector3.distanceTo (Object3D.getWorldPosition c0) v2 /\
    vec2 (createCable o a b r) = v2.
Proof.
  intros Hc v2. unfold createCable. rewrite Hc.
  cbn [with_scratch world constraints vec vec2 rot rot2 World.gensym].
  unfold newCableConstraint.
  destruct a as [a|], b as [b|];
    cbn [lockXTo World.gensym World.addRig World.fresh World.objects
         World.bodies World.constraints World.rigs World.addConstraint];
    (eexists; split;
     [unfold cables; cbn [with_constraints with_world constraints];
      rewrite flat_map_app; cbn [flat_map app]; reflexivity
     |cbn [tube_position tube_lookAt tube_length with_constraints
           with_world vec2]; auto]).
Qed.

(** With the scratch vector at the origin, as it is when the module is
    loaded and after [clear()], the cable of a node with two children or
    more has its head at the world position of the first child, looks at
    the world position of the second, and is as long as the distance
    between the two. *)
Lemma createCable_first o c0 c1 others a b r :
  Object3D.children o = c0 :: c1 :: others ->
  vec2 r = Vector3.zero ->
  exists tube,
    cables (createCable o a b r) = cables r ++ [tube] /\
    tube_position tube = Object3D.getWorldPosition c0 /\
    tube_lookAt tube = Some (Object3D.getWorldPosition c1) /\
    tube_length tube =
      Vector3.distanceTo (Object3D.getWorldPosition c0)
                         (Object3D.getWorldPosition c1).
Proof.
  intros Hc Hz.
  destruct (createCable_anchors o c0 c1 others a b r Hc)
    as (tube & H1 & H2 & H3 & H4 & _).
  cbv zeta in H3, H4. unfold Object3D.localToWorld in H3, H4.
  rewrite Hz, applyMatrix4_zero in H3, H4.
  exists tube. auto.
Qed.

Lemma pass2_untagged o r :
  threejscannones_type (Object3D.userData o) = TagUndefined -> pass2 o r = Normal r.
Proof. intros H. unfold pass2. rewrite H. reflexivity. Qed.

Lemma pass2_cable o r :
  threejscannones_type (Object3D.userData o) = TagNumber RigType.Cable ->
  pass2 o r =
  Normal (createCable o
            (getBodyByName r (opt_name (threejscannones_A (Object3D.userData o))))
            (getBodyByName r (opt_name (threejscannones_B (Object3D.userData o))))
            r).
Proof. intros H. unfold pass2. rewrite H. reflexivity. Qed.

Lemma sqrt_29_not_2 : sqrt 29 <> 2%R.
Proof.
  intros H. assert (H29 : (sqrt 29 * sqrt 29 = 29)%R) by (apply sqrt_sqrt; lra).
  rewrite H in H29. lra.
Qed.

Lemma sqrt_4 : sqrt 4 = 2%R.
Proof. replace 4%R with (2 * 2)%R by lra. apply sqrt_square. lra. Qed.

(** C9 on a scene with two cables. The first cable is built between its
    two children. The second is not: its second anchor is the tail of the
    first cable moved by the world matrix of the second child, (13, 4, 2)
    where the child is at (10, 0, 2), and its length is the distance to
    that point, not the distance 2 between its children. *)
Theorem C9_second_cable_is_misplaced :
  exists r tube1 tube2,
    rigScene CableExample.scene (newRigger World.empty) = Normal r /\
    cables r = [tube1; tube2] /\
    tube_lookAt tube1 = Some (Object3D.getWorldPosition CableExample.tail1) /\
    tube_length tube1 =
      Vector3.distanceTo (Object3D.getWorldPosition CableExample.head1)
                         (Object3D.getWorldPosition CableExample.tail1) /\
    tube_position tube2 = Object3D.getWorldPosition CableExample.head2 /\
    tube_lookAt tube2 = Some (Vector3.mk 13 4 2) /\
    tube_lookAt tube2 <> Some (Object3D.getWorldPosition CableExample.tail2) /\
    tube_length tube2 = sqrt 29 /\
    Vector3.distanceTo (Object3D.getWorldPosition CableExample.head2)
                       (Object3D.getWorldPosition CableExample.tail2) = 2%R /\
    tube_length tube2 <>
      Vector3.distanceTo (Object3D.getWorldPosition CableExample.head2)
                         (Object3D.getWorldPosition CableExample.tail2).
Proof.
  pose (n := fun x => Object3D.set_userData x
                        (normalizeUserData (Object3D.userData x))).
  pose (r0 := newRigger World.empty).
  pose (r1 := createCable (n CableExample.cable1) None None r0).
  pose (r2 := createCable (n CableExample.cable2) None None r1).
  assert (E : rigScene CableExample.scene r0 = Normal r2).
  { unfold rigScene, rigNodes.
    change (pass1_all (Object3D.traverse CableExample.scene) r0)
      with ([n CableExample.scene; n CableExample.cable1; n CableExample.head1;
             n CableExample.tail1; n CableExample.cable2; n CableExample.head2;
             n CableExample.tail2], r0).
    cbv iota beta. cbn [pass2_all].
    rewrite (pass2_untagged (n CableExample.scene) r0 eq_refl).
    rewrite (pass2_cable (n CableExample.cable1) r0 eq_refl).
    change (createCable (n CableExample.cable1) _ _ r0) with r1.
    rewrite (pass2_untagged (n CableExample.head1) r1 eq_refl).
    rewrite (pass2_untagged (n CableExample.tail1) r1 eq_refl).
    rewrite (pass2_cable (n CableExample.cable2) r1 eq_refl).
    change (createCable (n CableExample.cable2) _ _ r1) with r2.
    rewrite (pass2_untagged (n CableExample.head2) r2 eq_refl).
    rewrite (pass2_untagged (n CableExample.tail2) r2 eq_refl).
    reflexivity. }
  destruct (createCable_first (n CableExample.cable1) CableExample.head1
              CableExample.tail1 [] None None r0 eq_refl eq_refl)
    as (t1 & C1 & _ & L1 & Len1).
  destruct (createCable_anchors (n CableExample.cable1) CableExample.head1
              CableExample.tail1 [] None None r0 eq_refl)
    as (t1' & C1' & _ & _ & _ & V1).
  destruct (createCable_anchors (n CableExample.cable2) CableExample.head2
              CableExample.tail2 [] None None r1 eq_refl)
    as (t2 & C2 & P2 & L2 & Len2 & _).
  fold r1 in C1, V1. fold r2 in C2. cbv zeta in L2, Len2, V1.
  assert (V : Object3D.localToWorld CableExample.tail2 (vec2 r1)
              = Vector3.mk 13 4 2).
  { rewrite V1. unfold Object3D.localToWorld, applyMatrix4.
    cbn. f_equal; ring. }
  rewrite V in L2, Len2.
  assert (Len : tube_length t2 = sqrt 29).
  { rewrite Len2. unfold Vector3.distanceTo, Vector3.distanceToSquared.
    cbn. f_equal. ring. }
  assert (D : Vector3.distanceTo
                (Object3D.getWorldPosition CableExample.head2)
                (Object3D.getWorldPosition CableExample.tail2) = 2%R).
  { rewrite <- sqrt_4. unfold Vector3.distanceTo, Vector3.distanceToSquared.
    cbn. f_equal. ring. }
  exists r2, t1, t2.
  split; [exact E|]. split; [rewrite C2, C1; reflexivity|].
  split; [exact L1|]. split; [exact Len1|]. split; [exact P2|].
  split; [exact L2|]. split.
  - rewrite L2. intros H.
    assert (Hx := f_equal (fun t => match t with
                                    | Some v => Vector3.x v
                                    | None => 0%R
                                    end) H).
    cbn in Hx. lra.
  - split; [exact Len|]. split; [exact D|].
    rewrite Len, D. exact sqrt_29_not_2.
Qed.

(** ** Teardown *)

(** C1 on a scene of two box colliders "A" and "B" and a custom-constraint
    node between them, in a session whose host registered a factory that
    joins the two bodies by a constraint it adds to the world. The
    constraint the factory made is not in the constraint list of the
    session after [rigScene]; [clear()] therefore removes the two bodies
    but not that constraint, the world keeps one constraint more than
    before rigging, and the map of custom constraints still holds the
    entry. Had [clear()] called the [removeFrom] of the custom constraint,
    the world would have been as before. *)
Theorem C1_custom_constraint_outlives_clear :
  exists r,
    rigScene CustomExample.scene CustomExample.session = Normal r /\
    constraints r = [] /\
    World.bodies (world CustomExample.session) = [] /\
    World.constraints (world CustomExample.session) = [] /\
    World.bodies (world r) = [0%nat; 1%nat] /\
    World.constraints (world r) = [CustomExample.made] /\
    World.bodies (world (clear r)) = [] /\
    World.constraints (world (clear r)) = [CustomExample.made] /\
    getCustomConstraint (clear r) (Some "Spring"%string)
      = Some (CustomExample.spring CustomExample.made) /\
    World.constraints
      (removeFrom (CustomExample.spring CustomExample.made) (world (clear r)))
    = [].
Proof.
  eexists. split; [vm_compute; reflexivity|]. repeat split.
Qed.

(** *** Removal of what was added *)

Lemma remove_first_head pre x rest :
  ~ In x pre -> World.remove_first (pre ++ x :: rest) x = pre ++ rest.
Proof.
  induction pre as [|y pre IH]; intros Hx; cbn [app World.remove_first].
  - now rewrite Nat.eqb_refl.
  - destruct (Nat.eqb_spec x y) as [->|_].
    + exfalso. apply Hx. now left.
    + f_equal. apply IH. intros H. apply Hx. now right.
Qed.

Lemma remove_first_constraint_head pre k rest :
  ~ In (cid k) (List.map cid pre) ->
  World.remove_first_constraint (pre ++ k :: rest) (cid k) = pre ++ rest.
Proof.
  induction pre as [|y pre IH]; intros Hx;
    cbn [app World.remove_first_constraint].
  - now rewrite Nat.eqb_refl.
  - destruct (Nat.eqb_spec (cid k) (cid y)) as [E|_].
    + exfalso. apply Hx. left. now symmetry.
    + f_equal. apply IH. intros H. apply Hx. now right.
Qed.

Lemma remove_block blk : forall pre,
  (forall x, In x blk -> ~ In x pre) ->
  fold_left World.remove_first blk (pre ++ blk) = pre.
Proof.
  induction blk as [|x blk IH]; intros pre H; cbn [fold_left].
  - apply app_nil_r.
  - rewrite remove_first_head by (apply H; now left).
    apply IH. intros y Hy. apply H. now right.
Qed.

Lemma remove_constraint_block blk : forall pre,
  (forall k, In k blk -> ~ In (cid k) (List.map cid pre)) ->
  fold_left (fun l k => World.remove_first_constraint l (cid k)) blk (pre ++ blk)
  = pre.
Proof.
  induction blk as [|x blk IH]; intros pre H; cbn [fold_left].
  - apply app_nil_r.
  - rewrite remove_first_constraint_head by (apply H; now left).
    apply IH. intros y Hy. apply H. now right.
Qed.

Lemma removeFrom_constraints c w :
  World.constraints (constraint_removeFrom c w) =
  fold_left (fun l k => World.remove_first_constraint l (cid k))
            (owned_constraints c) (World.constraints w).
Proof.
  destruct c as [o [k|]|s|o cable [la|] [lb|]]; reflexivity.
Qed.

Lemma removeFrom_rigs c w :
  World.rigs (constraint_removeFrom c w) =
  fold_left World.remove_first (owned_rigs c) (World.rigs w).
Proof.
  destruct c as [o [k|]|s|o cable [la|] [lb|]]; reflexivity.
Qed.

Lemma removeFrom_bodies c w :
  World.bodies (constraint_removeFrom c w) = World.bodies w.
Proof.
  destruct c as [o [k|]|s|o cable [la|] [lb|]]; reflexivity.
Qed.

Lemma NoDup_app_disjoint {T} (l1 l2 : list T) x :
  List.NoDup (l1 ++ l2) -> In x l2 -> ~ In x l1.
Proof.
  induction l1 as [|y l1 IH]; cbn [app]; intros Hnd Hx; [tauto|].
  apply List.NoDup_cons_iff in Hnd as [Hy Hnd].
  intros [->|H].
  - apply Hy, in_or_app. now right.
  - now apply (IH Hnd Hx).
Qed.

Lemma NoDup_app_l {T} (l1 l2 : list T) :
  List.NoDup (l1 ++ l2) -> List.NoDup l1.
Proof.
  induction l1 as [|y l1 IH]; cbn [app]; intros Hnd; [constructor|].
  apply List.NoDup_cons_iff in Hnd as [Hy Hnd].
  constructor; [|now apply IH].
  intros H. apply Hy, in_or_app. now left.
Qed.

(** The loop of [clear()] over the constraint list, last to first. *)
Lemma clear_constraints cs : forall base w,
  World.constraints w = base ++ flat_map owned_constraints cs ->
  List.NoDup (List.map cid (flat_map owned_constraints cs)) ->
  (forall k, In k (flat_map owned_constraints cs) ->
             ~ In (cid k) (List.map cid base)) ->
  World.constraints
    (fold_left (fun w c => constraint_removeFrom c w) (rev cs) w) = base.
Proof.
  induction cs as [|c cs IH] using rev_ind; intros base w Hw Hnd Hbase.
  - cbn in *. now rewrite app_nil_r in Hw.
  - rewrite rev_unit. cbn [fold_left].
    rewrite flat_map_app in Hw, Hnd, Hbase. cbn [flat_map] in Hw, Hnd, Hbase.
    rewrite app_nil_r in Hw, Hnd, Hbase.
    apply IH.
    + rewrite removeFrom_constraints, Hw, app_assoc.
      apply remove_constraint_block. intros k Hk.
      rewrite List.map_app. intros Hin. apply in_app_or in Hin as [Hin|Hin].
      * apply (Hbase k); [apply in_or_app; now right|exact Hin].
      * rewrite List.map_app in Hnd.
        apply (NoDup_app_disjoint _ _ (cid k) Hnd); [|exact Hin].
        now apply in_map.
    + rewrite List.map_app in Hnd. now apply NoDup_app_l in Hnd.
    + intros k Hk. apply Hbase, in_or_app. now left.
Qed.

Lemma clear_rigs cs : forall base w,
  World.rigs w = base ++ flat_map owned_rigs cs ->
  List.NoDup (flat_map owned_rigs cs) ->
  (forall t, In t (flat_map owned_rigs cs) -> ~ In t base) ->
  World.rigs (fold_left (fun w c => constraint_removeFrom c w) (rev cs) w) = base.
Proof.
  induction cs as [|c cs IH] using rev_ind; intros base w Hw Hnd Hbase.
  - cbn in *. now rewrite app_nil_r in Hw.
  - rewrite rev_unit. cbn [fold_left].
    rewrite flat_map_app in Hw, Hnd, Hbase. cbn [flat_map] in Hw, Hnd, Hbase.
    rewrite app_nil_r in Hw, Hnd, Hbase.
    apply IH.
    + rewrite removeFrom_rigs, Hw, app_assoc.
      apply remove_block. intros t Ht Hin.
      apply in_app_or in Hin as [Hin|Hin].
      * apply (Hbase t); [apply in_or_app; now right|exact Hin].
      * now apply (NoDup_app_disjoint _ _ t Hnd).
    + now apply NoDup_app_l in Hnd.
    + intros t Ht. apply Hbase, in_or_app. now left.
Qed.

Lemma clear_keeps_bodies cs : forall w,
  World.bodies (fold_left (fun w c => constraint_removeFrom c w) cs w)
  = World.bodies w.
Proof.
  induction cs as [|c cs IH]; intros w; cbn [fold_left]; [reflexivity|].
  now rewrite IH, removeFrom_bodies.
Qed.

Lemma removeBody_fold (entries : list (Object3D.t * nat)) : forall w,
  let w' := fold_left (fun w e => World.removeBody w (snd e)) entries w in
  World.bodies w' = fold_left World.remove_first (List.map snd entries)
                              (World.bodies w) /\
  World.constraints w' = World.constraints w /\
  World.rigs w' = World.rigs w.
Proof.
  induction entries as [|e entries IH]; intros w; cbn [fold_left List.map].
  - auto.
  - destruct (IH (World.removeBody w (snd e))) as (H1 & H2 & H3).
    cbv zeta in *. rewrite H1, H2, H3. auto.
Qed.

(** [clear()] on a session that tracks what it added gives the arrays of
    the world it started from back, and empties the map and the list. *)
Lemma clear_restores w0 seen r :
  world_wf w0 ->
  tracks w0 seen r ->
  World.bodies (world (clear r)) = World.bodies w0 /\
  World.constraints (world (clear r)) = World.constraints w0 /\
  World.rigs (world (clear r)) = World.rigs w0 /\
  obj2bod (clear r) = [] /\
  constraints (clear r) = [].
Proof.
  intros (Wb & Wc & Wr) T. unfold clear. cbn [world obj2bod constraints].
  match goal with
  | |- context [fold_left _ (obj2bod r) ?w] =>
      destruct (removeBody_fold (obj2bod r) w) as (H1 & H2 & H3)
  end.
  cbv zeta in H1, H2, H3. rewrite H1, H2, H3. clear H1 H2 H3.
  split; [|split; [|split; [|split; reflexivity]]].
  - rewrite clear_keeps_bodies, (tr_bodies _ _ _ T). apply remove_block.
    intros i Hi Hin.
    pose proof (proj1 (List.Forall_forall _ _) (tr_body_ids _ _ _ T) i Hi) as Hge.
    pose proof (proj1 (List.Forall_forall _ _) Wb i Hin) as Hlt. cbv beta in *. lia.
  - apply clear_constraints.
    + apply (tr_constraints _ _ _ T).
    + apply (tr_cids_nodup _ _ _ T).
    + intros k Hk Hin. apply in_map_iff in Hin as (k' & E & Hk').
      pose proof (proj1 (List.Forall_forall _ _) (tr_cids _ _ _ T) k Hk) as Hge.
      pose proof (proj1 (List.Forall_forall _ _) Wc k' Hk') as Hlt.
      cbv beta in *. lia.
  - apply clear_rigs.
    + apply (tr_rigs _ _ _ T).
    + apply (tr_rigs_nodup _ _ _ T).
    + intros t Ht Hin.
      pose proof (proj1 (List.Forall_forall _ _) (tr_rig_ids _ _ _ T) t Ht) as Hge.
      pose proof (proj1 (List.Forall_forall _ _) Wr t Hin) as Hlt.
      cbv beta in *. lia.
Qed.

(** *** The session tracks what it adds *)

Lemma tracks_new w0 : tracks w0 [] (newRigger w0).
Proof.
  constructor; cbn; try rewrite app_nil_r; auto; constructor.
Qed.

Lemma tracks_same w0 seen r r' :
  world r' = world r -> obj2bod r' = obj2bod r ->
  constraints r' = constraints r ->
  tracks w0 seen r -> tracks w0 seen r'.
Proof.
  intros Hw Hm Hc T. destruct T. constructor; rewrite ?Hw, ?Hm, ?Hc; assumption.
Qed.

Lemma tracks_seen w0 seen x r : tracks w0 seen r -> tracks w0 (x :: seen) r.
Proof.
  intros T. destruct T. constructor; try assumption.
  eapply List.Forall_impl; [|eassumption]. intros e He. now right.
Qed.

Lemma NoDup_app_intro {T} (l1 l2 : list T) :
  List.NoDup l1 -> List.NoDup l2 ->
  (forall x, In x l1 -> ~ In x l2) -> List.NoDup (l1 ++ l2).
Proof.
  induction l1 as [|y l1 IH]; cbn [app]; intros H1 H2 Hd; [assumption|].
  apply List.NoDup_cons_iff in H1 as [Hy H1]. constructor.
  - intros H. apply in_app_or in H as [H|H]; [contradiction|].
    apply (Hd y); [now left|exact H].
  - apply IH; try assumption. intros x Hx. apply Hd. now right.
Qed.

(** One more tracked constraint, with the constraints and the rig it holds
    added to the world under identities made for them. *)
Lemma tracks_extend w0 seen r r' c :
  tracks w0 seen r ->
  obj2bod r' = obj2bod r ->
  constraints r' = constraints r ++ [c] ->
  World.bodies (world r') = World.bodies (world r) ->
  World.objects (world r') = World.objects (world r) ->
  World.constraints (world r') =
    World.constraints (world r) ++ owned_constraints c ->
  World.rigs (world r') = World.rigs (world r) ++ owned_rigs c ->
  (World.fresh (world r) <= World.fresh (world r'))%nat ->
  List.Forall (fun k => (World.fresh (world r) <= cid k
                         < World.fresh (world r'))%nat) (owned_constraints c) ->
  List.NoDup (List.map cid (owned_constraints c)) ->
  List.Forall (fun t => (World.fresh (world r) <= t
                         < World.fresh (world r'))%nat) (owned_rigs c) ->
  List.NoDup (owned_rigs c) ->
  tracks w0 seen r'.
Proof.
  intros T Hm Hc Hb Ho Hk Hr Hf Hkb Hknd Hrb Hrnd. destruct T.
  assert (Hflat : flat_map owned_constraints (constraints r') =
                  flat_map owned_constraints (constraints r) ++ owned_constraints c)
    by (rewrite Hc, flat_map_app; cbn [flat_map]; now rewrite app_nil_r).
  assert (Hflatr : flat_map owned_rigs (constraints r') =
                   flat_map owned_rigs (constraints r) ++ owned_rigs c)
    by (rewrite Hc, flat_map_app; cbn [flat_map]; now rewrite app_nil_r).
  constructor; rewrite ?Hm, ?Hb, ?Ho, ?Hflat, ?Hflatr; try assumption.
  - rewrite Hk, tr_constraints0, app_assoc. reflexivity.
  - rewrite Hr, tr_rigs0, app_assoc. reflexivity.
  - lia.
  - apply List.Forall_app. split.
    + eapply List.Forall_impl; [|exact tr_cids0]. cbv beta. intros; lia.
    + eapply List.Forall_impl; [|exact Hkb]. cbv beta. intros; lia.
  - apply List.Forall_app. split.
    + eapply List.Forall_impl; [|exact tr_rig_ids0]. cbv beta. intros; lia.
    + eapply List.Forall_impl; [|exact Hrb]. cbv beta. intros; lia.
  - rewrite List.map_app. apply NoDup_app_intro; try assumption.
    intros x Hx Hx'.
    apply in_map_iff in Hx as (k & <- & Hk1).
    apply in_map_iff in Hx' as (k' & E & Hk2).
    pose proof (proj1 (List.Forall_forall _ _) tr_cids0 k Hk1) as B1.
    pose proof (proj1 (List.Forall_forall _ _) Hkb k' Hk2) as B2.
    cbv beta in *. lia.
  - apply NoDup_app_intro; try assumption.
    intros x Hx Hx'.
    pose proof (proj1 (List.Forall_forall _ _) tr_rig_ids0 x Hx) as B1.
    pose proof (proj1 (List.Forall_forall _ _) Hrb x Hx') as B2.
    cbv beta in *. lia.
Qed.

Ltac track_side :=
  cbn [world obj2bod constraints with_world with_constraints with_scratch
       with_console World.gensym World.addConstraint World.addRig
       World.bodies World.objects World.constraints World.rigs World.fresh
       owned_constraints owned_rigs option_list app List.map cid tube_id
       fst snd];
  rewrite ?app_nil_r, <- ?app_assoc; cbn [app];
  try reflexivity;
  try lia;
  repeat match goal with
         | |- List.Forall _ [] => constructor
         | |- List.Forall _ (_ :: _) => constructor; [cbv beta; cbn [cid]; lia|]
         | |- List.NoDup [] => constructor
         | |- List.NoDup (_ :: _) =>
             constructor; [cbn [In]; intuition lia|]
         end.

Lemma standard_tracks w0 seen k collide a b o r r' :
  tracks w0 seen r ->
  track o (createStandardConstraint k collide a b r) = Normal r' ->
  tracks w0 seen r'.
Proof.
  intros T H. unfold createStandardConstraint in H.
  destruct a as [a|], b as [b|]; try discriminate H.
  cbn [World.gensym track] in H. injection H as <-.
  eapply tracks_extend; [exact T|reflexivity|reflexivity|..]; track_side.
Qed.

Lemma sync_tracks w0 seen o body r :
  tracks w0 seen r -> tracks w0 seen (createSyncBetween o body r).
Proof.
  intros T. destruct body as [b|]; cbn [createSyncBetween].
  - eapply tracks_extend; [exact T|reflexivity|reflexivity|..]; track_side.
  - eapply tracks_same; [| | |exact T]; reflexivity.
Qed.

Lemma cable_tracks w0 seen o a b r :
  tracks w0 seen r -> tracks w0 seen (createCable o a b r).
Proof.
  intros T. unfold createCable, newCableConstraint, lockXTo.
  destruct (Object3D.children o) as [|c0 [|c1 rest]];
    destruct a as [a|], b as [b|];
    (eapply tracks_extend; [exact T|reflexivity|reflexivity|..]; track_side).
Qed.

(** The callback of the second traversal keeps the session tracking what
    it adds, as long as the node is not a custom constraint. *)
Lemma pass2_tracks w0 seen o r r' :
  tracks w0 seen r ->
  threejscannones_type (Object3D.userData o) <> TagNumber RigType.Custom ->
  pass2 o r = Normal r' ->
  tracks w0 seen r'.
Proof.
  intros T Hc H. unfold pass2 in H.
  destruct (tag_is _ RigType.DistanceConstraint);
    [now apply (standard_tracks _ _ _ _ _ _ _ _ _ T H)|].
  destruct (tag_is _ RigType.PointConstraint);
    [now apply (standard_tracks _ _ _ _ _ _ _ _ _ T H)|].
  destruct (tag_is _ RigType.HingeConstraint);
    [now apply (standard_tracks _ _ _ _ _ _ _ _ _ T H)|].
  destruct (tag_is _ RigType.LockConstraint);
    [now apply (standard_tracks _ _ _ _ _ _ _ _ _ T H)|].
  destruct (tag_is _ RigType.SyncLocRot);
    [injection H as <-; now apply sync_tracks|].
  destruct (tag_is _ RigType.Cable);
    [injection H as <-; now apply cable_tracks|].
  destruct (tag_is _ RigType.Custom) eqn:E.
  - exfalso. apply Hc. unfold tag_is in E.
    destruct (threejscannones_type (Object3D.userData o)); try discriminate.
    apply Z.eqb_eq in E. now subst.
  - now injection H as <-.
Qed.

Lemma pass2_all_tracks w0 seen nodes : forall r r',
  tracks w0 seen r ->
  List.Forall (fun o => threejscannones_type (Object3D.userData o)
                        <> TagNumber RigType.Custom) nodes ->
  pass2_all nodes r = Normal r' ->
  tracks w0 seen r'.
Proof.
  induction nodes as [|o nodes IH]; intros r r' T Hall H; cbn [pass2_all] in H.
  - now injection H as <-.
  - inversion Hall as [|? ? Ho Hrest]; subst.
    destruct (pass2 o r) as [r1|m r1] eqn:E; [|discriminate].
    apply (IH r1 r'); try assumption.
    now apply (pass2_tracks w0 seen o r r1).
Qed.

Lemma map_set_fresh m o i :
  List.Forall (fun e => Object3D.id (fst e) <> Object3D.id o) m ->
  map_set m o i = m ++ [(o, i)].
Proof.
  induction 1 as [|[k v] m Hk _ IH]; cbn [map_set app]; [reflexivity|].
  cbn [fst] in Hk. destruct (Nat.eqb_spec (Object3D.id k) (Object3D.id o));
    [contradiction|]. now rewrite IH.
Qed.

Lemma createCollider_world shape o r :
  let w := world r in
  let i := List.length (World.objects w) in
  let w' := world (snd (createCollider shape o r)) in
  World.constraints w' = World.constraints w /\
  World.rigs w' = World.rigs w /\
  World.fresh w' = World.fresh w /\
  World.bodies w' =
    (if World.includes (World.bodies w) i then World.bodies w
     else World.bodies w ++ [i]).
Proof.
  unfold createCollider. cbn [World.alloc snd world with_world with_obj2bod].
  unfold World.addBody.
  cbn [World.bodies World.objects World.constraints World.rigs World.fresh].
  destruct (World.includes (World.bodies (world r))
              (List.length (World.objects (world r)))); cbn; auto.
Qed.

Lemma addCompoundShapes_world i o r :
  let w := world r in
  let w' := world (addCompoundShapes i o r) in
  World.constraints w' = World.constraints w /\
  World.rigs w' = World.rigs w /\
  World.fresh w' = World.fresh w /\
  World.bodies w' = World.bodies w.
Proof.
  unfold addCompoundShapes.
  destruct (World.objects (world r) !! i); cbn; auto.
Qed.

Lemma pass1_world o r :
  collider_tag (tag_of o) = true ->
  let w := world r in
  let i := List.length (World.objects w) in
  let w' := world (snd (pass1 o r)) in
  World.constraints w' = World.constraints w /\
  World.rigs w' = World.rigs w /\
  World.fresh w' = World.fresh w /\
  World.bodies w' =
    (if World.includes (World.bodies w) i then World.bodies w
     else World.bodies w ++ [i]).
Proof.
  intros Htag. cbv zeta. unfold pass1.
  set (o1 := Object3D.set_userData o (normalizeUserData (Object3D.userData o))).
  change (threejscannones_type (Object3D.userData o1)) with (tag_of o).
  apply collider_tag_cases in Htag as [E|[E|E]]; rewrite E;
    cbn [tag_is RigType.BoxCollider RigType.SphereCollider
         RigType.CompoundCollider Z.eqb Pos.eqb].
  - pose proof (createCollider_world (Some (Box (Object3D.scale o1))) o1 r) as H.
    destruct (createCollider _ o1 r) as [[i o'] r']. exact H.
  - pose proof (createCollider_world
                  (Some (Sphere (Vector3.x (Object3D.scale o1)))) o1 r) as H.
    destruct (createCollider _ o1 r) as [[i o'] r']. exact H.
  - pose proof (createCollider_world None o1 r) as H.
    destruct (createCollider _ o1 r) as [[i o'] r']. cbn [snd] in *.
    destruct (addCompoundShapes_world i o' r') as (H1 & H2 & H3 & H4).
    cbv zeta in *. rewrite H1, H2, H3, H4. exact H.
Qed.

(** The callback of the first traversal keeps the session tracking what it
    adds, for a node that has no body yet. *)
Lemma pass1_tracks w0 seen o r :
  world_wf w0 ->
  tracks w0 seen r ->
  ~ In (Object3D.id o) seen ->
  tracks w0 (Object3D.id o :: seen) (snd (pass1 o r)).
Proof.
  intros (Wb & _ & _) T Hnew.
  destruct (collider_tag (tag_of o)) eqn:Htag.
  2:{ rewrite (pass1_not_collider o r Htag). cbn [snd]. now apply tracks_seen. }
  destruct (pass1_world o r Htag) as (Hk & Hr & Hf & Hb).
  destruct (pass1_collider o r Htag)
    as (o' & r' & body & Hp & Hid & Hobj & _ & Hmap & Hcs & _).
  rewrite Hp in *. cbn [snd] in *. cbv zeta in Hk, Hr, Hf, Hb.
  assert (Hfresh : World.includes (World.bodies (world r))
                     (List.length (World.objects (world r))) = false).
  { apply not_true_is_false. intros H. apply includes_In in H.
    rewrite (tr_bodies _ _ _ T) in H. apply in_app_or in H as [H|H].
    - pose proof (proj1 (List.Forall_forall _ _) Wb _ H) as B.
      pose proof (tr_objects _ _ _ T). cbv beta in B. lia.
    - pose proof (proj1 (List.Forall_forall _ _) (tr_body_ids _ _ _ T) _ H) as B.
      cbv beta in B. lia. }
  rewrite Hfresh in Hb.
  assert (Hset : obj2bod r' =
                 obj2bod r ++ [(o', List.length (World.objects (world r)))]).
  { rewrite Hmap. apply map_set_fresh.
    eapply List.Forall_impl; [|exact (tr_seen _ _ _ T)].
    intros e He E. apply Hnew. rewrite <- Hid, <- E. exact He. }
  destruct T. constructor.
  - rewrite Hb, Hset, List.map_app, tr_bodies0, app_assoc. reflexivity.
  - rewrite Hk, Hcs. assumption.
  - rewrite Hr, Hcs. assumption.
  - rewrite Hobj, length_app. lia.
  - rewrite Hf. assumption.
  - rewrite Hset, List.map_app, Hobj, length_app. apply List.Forall_app. split.
    + eapply List.Forall_impl; [|exact tr_body_ids0]. cbv beta. intros; lia.
    + constructor; [|constructor]. cbn [snd List.length]. lia.
  - rewrite Hset. apply List.Forall_app. split.
    + eapply List.Forall_impl; [|exact tr_seen0]. intros e He. now right.
    + constructor; [|constructor]. cbn [fst]. left. now symmetry.
  - rewrite Hcs, Hf. assumption.
  - rewrite Hcs, Hf. assumption.
  - rewrite Hcs. assumption.
  - rewrite Hcs. assumption.
Qed.

Lemma pass1_all_tracks w0 nodes : forall seen r,
  world_wf w0 ->
  tracks w0 seen r ->
  List.NoDup (List.map Object3D.id nodes) ->
  (forall x, In x (List.map Object3D.id nodes) -> ~ In x seen) ->
  exists seen', tracks w0 seen' (snd (pass1_all nodes r)).
Proof.
  induction nodes as [|o nodes IH]; intros seen r W T Hnd Hnew.
  - exists seen. exact T.
  - rewrite pass1_all_cons. cbn [List.map] in Hnd, Hnew.
    apply List.NoDup_cons_iff in Hnd as [Ho Hnd].
    apply (IH (Object3D.id o :: seen)); try assumption.
    + apply pass1_tracks; try assumption. apply Hnew. now left.
    + intros x Hx [<-|Hs]; [contradiction|].
      apply (Hnew x); [now right|exact Hs].
Qed.

(** The tags the second traversal reads are those the first left. *)
Lemma pass1_type o r :
  threejscannones_type (Object3D.userData (fst (pass1 o r))) = tag_of o.
Proof.
  destruct (collider_tag (tag_of o)) eqn:Htag.
  - unfold pass1.
    set (o1 := Object3D.set_userData o (normalizeUserData (Object3D.userData o))).
    change (threejscannones_type (Object3D.userData o1)) with (tag_of o).
    apply collider_tag_cases in Htag as [E|[E|E]]; rewrite E;
      cbn [tag_is RigType.BoxCollider RigType.SphereCollider
           RigType.CompoundCollider Z.eqb Pos.eqb];
      unfold createCollider; cbn [World.alloc fst]; exact E.
  - now rewrite (pass1_not_collider o r Htag).
Qed.

Lemma pass1_all_types nodes : forall r,
  List.map (fun o => threejscannones_type (Object3D.userData o))
           (fst (pass1_all nodes r))
  = List.map tag_of nodes.
Proof.
  induction nodes as [|o nodes IH]; intros r; [reflexivity|].
  cbn [pass1_all]. pose proof (pass1_type o r) as Ht.
  destruct (pass1 o r) as [o' r1]. specialize (IH r1).
  destruct (pass1_all nodes r1) as [rest r2]. cbn [fst List.map] in *.
  now rewrite Ht, IH.
Qed.

(** For a scene without custom-constraint nodes, rigged by a new session
    on a world whose arrays refer to existing objects: when [rigScene]
    returns, [clear()] leaves the world with the bodies, the constraints and
    the cable rigs it had before rigging, and the map of bodies and the
    constraint list are empty. *)
Lemma clear_after_rigScene_without_custom (scene : Object3D.t) (w0 : World.t)
    (r : Rigger) :
  world_wf w0 ->
  List.NoDup (List.map Object3D.id (Object3D.traverse scene)) ->
  List.Forall (fun o => tag_of o <> TagNumber RigType.Custom)
              (Object3D.traverse scene) ->
  rigScene scene (newRigger w0) = Normal r ->
  World.bodies (world (clear r)) = World.bodies w0 /\
  World.constraints (world (clear r)) = World.constraints w0 /\
  World.rigs (world (clear r)) = World.rigs w0 /\
  obj2bod (clear r) = [] /\
  constraints (clear r) = [].
Proof.
  intros W Hnd Hcustom H. unfold rigScene, rigNodes in H.
  destruct (pass1_all_tracks w0 (Object3D.traverse scene) [] (newRigger w0)
              W (tracks_new w0) Hnd (fun _ _ F => F)) as [seen T1].
  pose proof (pass1_all_types (Object3D.traverse scene) (newRigger w0)) as Ht.
  destruct (pass1_all (Object3D.traverse scene) (newRigger w0)) as [nodes r1].
  cbn [fst snd] in *.
  apply (clear_restores w0 seen r W).
  apply (pass2_all_tracks w0 seen nodes r1 r T1); [|exact H].
  apply List.Forall_forall. intros o Ho.
  apply (in_map (fun o => threejscannones_type (Object3D.userData o))) in Ho.
  rewrite Ht in Ho. apply in_map_iff in Ho as (o0 & E & Ho0). rewrite <- E.
  exact (proj1 (List.Forall_forall _ _) Hcustom o0 Ho0).
Qed.

(** The lemma at the example scene with a box and a compound collider,
    rigged on the empty world. *)
Lemma clear_after_rigScene_example :
  exists r,
    rigScene Scenes.root (newRigger World.empty) = Normal r /\
    List.length (World.bodies (world r)) = 2%nat /\
    World.bodies (world (clear r)) = [] /\
    World.constraints (world (clear r)) = [].
Proof.
  assert (W : world_wf World.empty) by (repeat split; constructor).
  assert (Hc : List.Forall (fun o => tag_of o <> TagNumber RigType.Custom)
                 (Object3D.traverse Scenes.root))
    by (cbn; repeat constructor; discriminate).
  destruct (rigScene Scenes.root (newRigger World.empty)) as [r|m r] eqn:E;
    [|vm_compute in E; discriminate E].
  destruct (clear_after_rigScene_without_custom Scenes.root World.empty r
              W scenes_root_ids Hc E) as (H1 & H2 & _).
  exists r. split; [reflexivity|]. split; [|split; assumption].
  vm_compute in E. injection E as <-. reflexivity.
Qed.

(** * Further properties *)

(** ** Bit masks *)

Lemma reduce_mask_int32 flags : forall idx mask,
  JS.int32 mask -> JS.int32 (reduce_mask flags idx mask).
Proof.
  induction flags as [|bit rest IH]; intros idx mask H; cbn [reduce_mask].
  - exact H.
  - apply IH, bor_range.
Qed.

(** X1. Whatever numbers the annotation holds, the bit mask
    [arrayToBitmask] returns is a 32-bit signed integer. *)
Theorem X1_arrayToBitmask_int32 (flags : Flags) (flagsArray : option (list Z)) :
  JS.int32 (arrayToBitmask flags flagsArray).
Proof.
  unfold arrayToBitmask.
  destruct (Z.of_nat _ =? 0)%Z.
  - unfold JS.int32. lia.
  - apply reduce_mask_int32. unfold JS.int32. lia.
Qed.

Lemma toInt32_congr z : exists q, JS.toInt32 z = (z + q * 2 ^ 32)%Z.
Proof.
  unfold JS.toInt32. exists (- ((z + 2 ^ 31) / 2 ^ 32))%Z.
  pose proof (Z.div_mod (z + 2 ^ 31) (2 ^ 32)) as H. lia.
Qed.

Lemma testbit_toInt32 z i :
  (0 <= i < 32)%Z -> Z.testbit (JS.toInt32 z) i = Z.testbit z i.
Proof.
  intros Hi. destruct (toInt32_congr z) as [q ->].
  rewrite <- (Z.mod_pow2_bits_low (z + q * 2 ^ 32) 32 i) by lia.
  rewrite Z.mod_add by lia.
  apply Z.mod_pow2_bits_low. lia.
Qed.

Lemma testbit_bor a b i :
  (0 <= i < 32)%Z ->
  Z.testbit (JS.bor a b) i = Z.testbit a i || Z.testbit b i.
Proof.
  intros Hi. unfold JS.bor.
  now rewrite testbit_toInt32, Z.lor_spec, !testbit_toInt32.
Qed.

Lemma land_31 x : Z.land x 31 = (x mod 32)%Z.
Proof. change 31%Z with (Z.ones 5). rewrite Z.land_ones by lia. reflexivity. Qed.

Lemma shift_count x : Z.land (JS.toInt32 x) 31 = (x mod 32)%Z.
Proof.
  rewrite land_31. destruct (toInt32_congr x) as [q ->].
  replace (x + q * 2 ^ 32)%Z with (x + (q * 2 ^ 27) * 32)%Z by lia.
  apply Z.mod_add. lia.
Qed.

Lemma testbit_shl_flag (b : bool) idx i :
  (0 <= idx < 32)%Z -> (0 <= i < 32)%Z ->
  Z.testbit (JS.shl (flag b) idx) i = b && (i =? idx)%Z.
Proof.
  intros Hidx Hi. unfold JS.shl.
  rewrite testbit_toInt32 by assumption.
  rewrite shift_count, Z.mod_small by lia.
  rewrite Z.shiftl_spec by lia.
  destruct b; cbn [flag andb].
  - rewrite (toInt32_id 1) by (unfold JS.int32; lia).
    destruct (Z.eqb_spec i idx) as [->|Hne].
    + now rewrite Z.sub_diag.
    + destruct (Z.ltb_spec i idx).
      * apply Z.testbit_neg_r. lia.
      * change 1%Z with (2 ^ 0)%Z. apply Z.pow2_bits_false. lia.
  - rewrite (toInt32_id 0) by (unfold JS.int32; lia). apply Z.testbit_0_l.
Qed.

Lemma testbit_reduce_mask (ticks : list bool) : forall idx mask i,
  (0 <= idx)%Z -> (idx + Z.of_nat (List.length ticks) <= 32)%Z ->
  (0 <= i < 32)%Z ->
  Z.testbit (reduce_mask (List.map flag ticks) idx mask) i =
  Z.testbit mask i
  || ((idx <=? i)%Z && nth (Z.to_nat (i - idx)) ticks false).
Proof.
  induction ticks as [|b ticks IH]; intros idx mask i Hidx Hlen Hi;
    cbn [List.map reduce_mask List.length] in *.
  - destruct (Z.to_nat (i - idx)); cbn [nth]; now rewrite andb_false_r, orb_false_r.
  - rewrite IH by lia. rewrite testbit_bor, testbit_shl_flag by lia.
    destruct (Z.eqb_spec i idx) as [->|Hne].
    + rewrite Z.sub_diag. cbn [Z.to_nat nth].
      destruct (Z.leb_spec (idx + 1) idx); [lia|].
      destruct (Z.leb_spec idx idx); [|lia].
      cbn [andb]. now rewrite andb_true_r, orb_false_r.
    + rewrite andb_false_r, orb_false_r.
      destruct (Z.leb_spec (idx + 1) i), (Z.leb_spec idx i); try lia;
        cbn [andb]; [|reflexivity].
      replace (Z.to_nat (i - idx)) with (S (Z.to_nat (i - (idx + 1)))) by lia.
      reflexivity.
Qed.

(** X2. For a list of at most 32 flags, bit [i] of the mask is set exactly
    when the flag at position [i] is. *)
Theorem X2_mask_bit_is_flag (ticks : list bool) (arr : option (list Z)) (i : Z) :
  (List.length ticks <= 32)%nat ->
  (0 <= i < 32)%Z ->
  Z.testbit (arrayToBitmask (FlagsArray (List.map flag ticks)) arr) i
  = nth (Z.to_nat i) ticks false.
Proof.
  intros Hlen Hi. unfold arrayToBitmask.
  destruct (Z.eqb_spec (Z.of_nat (List.length (List.map flag ticks))) 0) as [E|_].
  - rewrite length_map in E. destruct ticks; [|cbn in E; lia].
    rewrite Z.testbit_0_l. now destruct (Z.to_nat i).
  - rewrite testbit_reduce_mask by lia.
    rewrite Z.testbit_0_l, Z.sub_0_r. cbn [orb].
    destruct (Z.leb_spec 0 i); [reflexivity|lia].
Qed.

(** The theorem at the flags [1; 0; 1] and bit 2. *)
Lemma X2_mask_bit_witness :
  (List.length [true; false; true] <= 32)%nat /\ (0 <= 2 < 32)%Z /\
  Z.testbit (arrayToBitmask (FlagsArray [1; 0; 1]%Z) None) 2 = true.
Proof.
  split; [cbn; lia|]. split; [lia|].
  exact (X2_mask_bit_is_flag [true; false; true] None 2
           ltac:(cbn; lia) ltac:(lia)).
Defined.

Lemma shl_wraps b idx : JS.shl b (idx + 32) = JS.shl b idx.
Proof.
  unfold JS.shl. rewrite !shift_count.
  replace (idx + 32)%Z with (idx + 1 * 32)%Z by lia.
  now rewrite Z.mod_add by lia.
Qed.

Lemma reduce_mask_wraps flags : forall idx mask,
  reduce_mask flags (idx + 32) mask = reduce_mask flags idx mask.
Proof.
  induction flags as [|bit rest IH]; intros idx mask; cbn [reduce_mask].
  - reflexivity.
  - rewrite shl_wraps.
    replace (idx + 32 + 1)%Z with (idx + 1 + 32)%Z by lia. apply IH.
Qed.

Lemma reduce_mask_zeros n : forall rest idx mask,
  JS.int32 mask ->
  reduce_mask (repeat 0%Z n ++ rest) idx mask
  = reduce_mask rest (idx + Z.of_nat n) mask.
Proof.
  induction n as [|n IH]; intros rest idx mask H; cbn [repeat app reduce_mask].
  - now rewrite Z.add_0_r.
  - rewrite shl_0_l, bor_0_r by exact H. rewrite IH by exact H.
    f_equal. lia.
Qed.

(** X3. The shift count is taken modulo 32: a flag at position [i + 32]
    sets the same bit as a flag at position [i], so a list that is 32
    unset flags followed by [flags] resolves to the mask of [flags]. *)
Theorem X3_positions_wrap_at_32 (flags : list Z) (arr : option (list Z)) :
  arrayToBitmask (FlagsArray (repeat 0%Z 32 ++ flags)) arr
  = arrayToBitmask (FlagsArray flags) arr.
Proof.
  unfold arrayToBitmask.
  rewrite length_app, repeat_length.
  destruct (Z.eqb_spec (Z.of_nat (32 + List.length flags)) 0) as [E|_]; [lia|].
  rewrite reduce_mask_zeros by (unfold JS.int32; lia).
  change (0 + Z.of_nat 32)%Z with (0 + 32)%Z. rewrite reduce_mask_wraps.
  destruct flags; reflexivity.
Qed.

(** ** Nodes the rigger passes over *)

Lemma tag_is_out_of_range t n :
  (forall m, t = TagNumber m -> (m < 1 \/ 10 < m)%Z) ->
  (1 <= n <= 10)%Z -> tag_is t n = false.
Proof.
  intros H Hn. destruct t as [|m|s]; cbn [tag_is]; try reflexivity.
  destruct (H m eq_refl); apply Z.eqb_neq; lia.
Qed.

(** X4. A node whose tag, once normalised, is absent or is a number outside
    1..10 (an unknown word, the word "x", a stray number) is passed over by
    both traversals: the first only normalises its annotations, the second
    returns with the session as it was. *)
Theorem X4_unknown_tags_are_ignored (o : Object3D.t) (r : Rigger) :
  (forall n, tag_of o = TagNumber n -> (n < 1 \/ 10 < n)%Z) ->
  pass1 o r =
    (Object3D.set_userData o (normalizeUserData (Object3D.userData o)), r) /\
  pass2 (fst (pass1 o r)) r = Normal r.
Proof.
  intros H.
  assert (Hc : collider_tag (tag_of o) = false).
  { unfold collider_tag.
    rewrite !(tag_is_out_of_range _ _ H)
      by (unfold RigType.BoxCollider, RigType.SphereCollider,
            RigType.CompoundCollider; lia).
    reflexivity. }
  split; [now apply pass1_not_collider|].
  unfold pass2. rewrite pass1_type.
  rewrite !(tag_is_out_of_range _ _ H)
    by (unfold RigType.DistanceConstraint, RigType.PointConstraint,
          RigType.HingeConstraint, RigType.LockConstraint, RigType.SyncLocRot,
          RigType.Cable, RigType.Custom; lia).
  reflexivity.
Qed.

(** The theorem at a node tagged with the unknown word "door". *)
Lemma X4_unknown_tags_witness :
  (forall n, tag_of IgnoredExample.door = TagNumber n -> (n < 1 \/ 10 < n)%Z) /\
  pass2 (fst (pass1 IgnoredExample.door (newRigger World.empty)))
        (newRigger World.empty)
  = Normal (newRigger World.empty).
Proof.
  assert (H : forall n, tag_of IgnoredExample.door = TagNumber n ->
                        (n < 1 \/ 10 < n)%Z) by (intros n E; discriminate E).
  split; [exact H|].
  exact (proj2 (X4_unknown_tags_are_ignored IgnoredExample.door
                  (newRigger World.empty) H)).
Defined.

(** ** The map of bodies after the first traversal *)

Lemma pass1_fst_collider o r :
  collider_tag (tag_of o) = true -> fst (pass1 o r) = rigged o.
Proof.
  intros Htag. unfold pass1.
  set (o1 := Object3D.set_userData o (normalizeUserData (Object3D.userData o))).
  change (threejscannones_type (Object3D.userData o1)) with (tag_of o).
  apply collider_tag_cases in Htag as [E|[E|E]]; rewrite E;
    cbn [tag_is RigType.BoxCollider RigType.SphereCollider
         RigType.CompoundCollider Z.eqb Pos.eqb];
    unfold createCollider; cbn [World.alloc fst]; reflexivity.
Qed.

(** From a session whose map has no entry for the nodes of the list, the
    first traversal appends one entry per collider node, in the order of
    the traversal, with bodies numbered from the size of the table of
    bodies; the table grows by as many bodies. *)
Lemma pass1_all_map nodes : forall r,
  List.NoDup (List.map Object3D.id nodes) ->
  List.Forall (fun e => ~ In (Object3D.id (fst e)) (List.map Object3D.id nodes))
              (obj2bod r) ->
  let r' := snd (pass1_all nodes r) in
  let i0 := List.length (World.objects (world r)) in
  obj2bod r' = obj2bod r ++ colliders_from nodes i0 /\
  List.length (World.objects (world r')) =
    (i0 + List.length (colliders_from nodes i0))%nat.
Proof.
  induction nodes as [|o nodes IH]; intros r Hnd Hfresh; cbv zeta.
  - cbn. rewrite app_nil_r. split; [reflexivity|lia].
  - rewrite pass1_all_cons. cbn [List.map] in Hnd, Hfresh.
    apply List.NoDup_cons_iff in Hnd as [Ho Hnd].
    cbn [colliders_from].
    destruct (collider_tag (tag_of o)) eqn:Htag.
    + destruct (pass1_collider o r Htag)
        as (o' & r1 & body & Hp & Hid & Hobj & _ & Hmap & _).
      pose proof (pass1_fst_collider o r Htag) as Hfst.
      rewrite Hp in *. cbn [fst snd] in *. subst o'.
      assert (Hset : obj2bod r1 =
                     obj2bod r ++ [(rigged o, List.length (World.objects (world r)))]).
      { rewrite Hmap. apply map_set_fresh.
        eapply List.Forall_impl; [|exact Hfresh].
        intros e He E. apply He. left. now rewrite E. }
      destruct (IH r1 Hnd) as [H1 H2].
      { rewrite Hset. apply List.Forall_app. split.
        - eapply List.Forall_impl; [|exact Hfresh].
          intros e He Hin. apply He. now right.
        - constructor; [|constructor]. cbn [fst]. now rewrite Hid. }
      cbv zeta in H1, H2. rewrite H1, H2, Hset, Hobj, length_app.
      cbn [List.length]. rewrite Nat.add_1_r, <- app_assoc. cbn [app].
      split; [reflexivity|lia].
    + rewrite (pass1_not_collider o r Htag). cbn [snd].
      apply IH; [exact Hnd|].
      eapply List.Forall_impl; [|exact Hfresh].
      intros e He Hin. apply He. now right.
Qed.

Lemma colliders_from_app pre : forall post i,
  colliders_from (pre ++ post) i =
  colliders_from pre i ++
  colliders_from post (i + List.length (colliders_from pre i)).
Proof.
  induction pre as [|o pre IH]; intros post i; cbn [app colliders_from].
  - now rewrite Nat.add_0_r.
  - destruct (collider_tag (tag_of o)); rewrite IH; cbn [app List.length].
    + do 3 f_equal. lia.
    + reflexivity.
Qed.

Lemma rigged_name o :
  name (Object3D.userData (rigged o)) = name (Object3D.userData o).
Proof. reflexivity. Qed.

Lemma find_body_none nodes n : forall i,
  List.Forall (fun o => collider_tag (tag_of o) = true ->
                        name (Object3D.userData o) <> n) nodes ->
  find_body (colliders_from nodes i) n = None.
Proof.
  induction nodes as [|o nodes IH]; intros i H; cbn [colliders_from];
    [reflexivity|].
  inversion H as [|? ? Ho Hrest]; subst.
  destruct (collider_tag (tag_of o)); [|now apply IH].
  cbn [find_body]. rewrite rigged_name.
  destruct (decide (name (Object3D.userData o) = n)) as [E|_];
    [now destruct (Ho eq_refl)|now apply IH].
Qed.

Lemma find_body_app l1 l2 n :
  find_body (l1 ++ l2) n =
  match find_body l1 n with Some b => Some b | None => find_body l2 n end.
Proof.
  induction l1 as [|[k v] l1 IH]; cbn [app find_body]; [reflexivity|].
  destruct (decide (name (Object3D.userData k) = n)); [reflexivity|exact IH].
Qed.

(** X5. Lookup of a body by name after the first traversal of a scene by a
    new session: the body found is the one made for the first collider
    node, in traversal order, that carries the name; its pose is the world
    pose of that node. *)
Theorem X5_getBodyByName_first_match
    (scene : Object3D.t) (w : World.t) (before after : list Object3D.t)
    (o : Object3D.t) (n : option string) :
  List.NoDup (List.map Object3D.id (Object3D.traverse scene)) ->
  Object3D.traverse scene = before ++ o :: after ->
  collider_tag (tag_of o) = true ->
  name (Object3D.userData o) = n ->
  List.Forall (fun x => collider_tag (tag_of x) = true ->
                        name (Object3D.userData x) <> n) before ->
  let r := snd (pass1_all (Object3D.traverse scene) (newRigger w)) in
  exists i body,
    getBodyByName r n = Some i /\
    map_get (obj2bod r) o = Some i /\
    World.objects (world r) !! i = Some body /\
    Body.position body = Object3D.getWorldPosition o /\
    Body.quaternion body = Object3D.getWorldQuaternion o.
Proof.
  intros Hnd Hsplit Htag Hname Hbefore r.
  destruct (pass1_all_collider (Object3D.traverse scene) (newRigger w) o Hnd)
    as (i & body & Hget & Hobj & _ & _ & Hpos & Hq & _);
    [rewrite Hsplit; apply in_or_app; right; now left|exact Htag|].
  fold r in Hget, Hobj.
  destruct (pass1_all_map (Object3D.traverse scene) (newRigger w) Hnd
              (List.Forall_nil _)) as [Hmap _].
  cbv zeta in Hmap. fold r in Hmap. cbn [newRigger obj2bod app] in Hmap.
  exists i, body. split; [|auto]. rewrite <- Hget.
  unfold getBodyByName. rewrite Hmap, Hsplit, colliders_from_app.
  cbn [colliders_from]. rewrite Htag.
  rewrite find_body_app, (find_body_none before n _ Hbefore).
  cbn [find_body]. rewrite rigged_name.
  destruct (decide (name (Object3D.userData o) = n)) as [_|N]; [|contradiction].
  (* the same entry is the one [map.get(o)] finds *)
  assert (Hids : ~ In (Object3D.id o) (List.map Object3D.id before)).
  { rewrite Hsplit, List.map_app in Hnd. cbn [List.map] in Hnd.
    apply List.NoDup_remove_2 in Hnd. intros H. apply Hnd, in_or_app. now left. }
  clear - Hids. generalize (List.length (World.objects (world (newRigger w)))).
  induction before as [|x before IH]; intros k; cbn [app colliders_from].
  - cbn [map_get fst]. now rewrite Nat.eqb_refl.
  - cbn [List.map] in Hids.
    destruct (collider_tag (tag_of x)); cbn [List.length].
    + cbn [app map_get].
      destruct (Nat.eqb_spec (Object3D.id (rigged x)) (Object3D.id o)) as [E|_].
      * exfalso. apply Hids. left. exact E.
      * replace (k + S (List.length (colliders_from before (S k))))%nat
          with (S k + List.length (colliders_from before (S k)))%nat by lia.
        apply IH. intros H. apply Hids. now right.
    + apply IH. intros H. apply Hids. now right.
Qed.

(** The theorem at the example scene and the name "Floor". *)
Lemma X5_getBodyByName_witness :
  List.NoDup (List.map Object3D.id (Object3D.traverse Scenes.root)) /\
  Object3D.traverse Scenes.root =
    [Scenes.root] ++ Scenes.floor :: [Scenes.claw; Scenes.part1; Scenes.part2] /\
  collider_tag (tag_of Scenes.floor) = true /\
  name (Object3D.userData Scenes.floor) = Some "Floor"%string /\
  List.Forall (fun x => collider_tag (tag_of x) = true ->
                        name (Object3D.userData x) <> Some "Floor"%string)
              [Scenes.root] /\
  exists i body,
    getBodyByName (snd (pass1_all (Object3D.traverse Scenes.root)
                          (newRigger World.empty))) (Some "Floor"%string)
      = Some i /\
    map_get (obj2bod (snd (pass1_all (Object3D.traverse Scenes.root)
                             (newRigger World.empty)))) Scenes.floor = Some i /\
    World.objects (world (snd (pass1_all (Object3D.traverse Scenes.root)
                                 (newRigger World.empty)))) !! i = Some body /\
    Body.position body = Vector3.zero /\
    Body.quaternion body = Quaternion.identity.
Proof.
  assert (H : List.Forall
                (fun x => collider_tag (tag_of x) = true ->
                          name (Object3D.userData x) <> Some "Floor"%string)
                [Scenes.root])
    by (constructor; [intros E; discriminate E|constructor]).
  split; [exact scenes_root_ids|]. split; [reflexivity|].
  split; [reflexivity|]. split; [reflexivity|]. split; [exact H|].
  exact (X5_getBodyByName_first_match Scenes.root World.empty [Scenes.root]
           [Scenes.claw; Scenes.part1; Scenes.part2] Scenes.floor
           (Some "Floor"%string) scenes_root_ids eq_refl eq_refl eq_refl H).
Defined.

(** X6. A name that no collider node of the scene carries is not found,
    whatever other nodes carry it: after the first traversal by a new
    session [getBodyByName] answers [undefined]. *)
Theorem X6_getBodyByName_not_found
    (scene : Object3D.t) (w : World.t) (n : option string) :
  List.NoDup (List.map Object3D.id (Object3D.traverse scene)) ->
  List.Forall (fun x => collider_tag (tag_of x) = true ->
                        name (Object3D.userData x) <> n)
              (Object3D.traverse scene) ->
  getBodyByName (snd (pass1_all (Object3D.traverse scene) (newRigger w))) n
  = None.
Proof.
  intros Hnd Hnone.
  destruct (pass1_all_map (Object3D.traverse scene) (newRigger w) Hnd
              (List.Forall_nil _)) as [Hmap _].
  cbv zeta in Hmap. unfold getBodyByName. rewrite Hmap.
  cbn [newRigger obj2bod app]. now apply find_body_none.
Qed.

(** The theorem at the scene of a sync node named "Mesh" and a box without
    name: no body is called "Mesh". *)
Lemma X6_getBodyByName_witness :
  List.NoDup (List.map Object3D.id (Object3D.traverse SyncSkipExample.scene)) /\
  List.Forall (fun x => collider_tag (tag_of x) = true ->
                        name (Object3D.userData x) <> Some "Mesh"%string)
              (Object3D.traverse SyncSkipExample.scene) /\
  getBodyByName (snd (pass1_all (Object3D.traverse SyncSkipExample.scene)
                        (newRigger World.empty))) (Some "Mesh"%string) = None.
Proof.
  assert (Hnd : List.NoDup
                  (List.map Object3D.id (Object3D.traverse SyncSkipExample.scene)))
    by (cbn; repeat constructor; cbn; intuition discriminate).
  assert (H : List.Forall
                (fun x => collider_tag (tag_of x) = true ->
                          name (Object3D.userData x) <> Some "Mesh"%string)
                (Object3D.traverse SyncSkipExample.scene))
    by (cbn; repeat constructor; intros E; discriminate).
  split; [exact Hnd|]. split; [exact H|].
  exact (X6_getBodyByName_not_found SyncSkipExample.scene World.empty
           (Some "Mesh"%string) Hnd H).
Defined.

Lemma colliders_from_snd nodes : forall i,
  List.map snd (colliders_from nodes i)
  = seq i (List.length (List.filter (fun o => collider_tag (tag_of o)) nodes)).
Proof.
  induction nodes as [|o nodes IH]; intros i; cbn [colliders_from List.filter];
    [reflexivity|].
  destruct (collider_tag (tag_of o)); cbn [List.map snd List.length seq];
    now rewrite IH.
Qed.

Lemma map_get_In m o i :
  map_get m o = Some i -> exists k, In (k, i) m /\ Object3D.id k = Object3D.id o.
Proof.
  induction m as [|[k v] m IH]; cbn [map_get]; [discriminate|].
  destruct (Nat.eqb_spec (Object3D.id k) (Object3D.id o)) as [E|_].
  - intros [= ->]. exists k. split; [now left|exact E].
  - intros H. destruct (IH H) as (k' & Hin & E). exists k'. split; [now right|exact E].
Qed.

Lemma NoDup_snd_functional {K} (l : list (K * nat)) k1 k2 i :
  List.NoDup (List.map snd l) -> In (k1, i) l -> In (k2, i) l -> k1 = k2.
Proof.
  induction l as [|[k v] l IH]; cbn [List.map snd In]; [tauto|].
  intros Hnd H1 H2. apply List.NoDup_cons_iff in Hnd as [Hv Hnd].
  destruct H1 as [H1|H1], H2 as [H2|H2].
  - congruence.
  - exfalso. apply Hv. apply (in_map snd) in H2.
    replace v with i by congruence. exact H2.
  - exfalso. apply Hv. apply (in_map snd) in H1.
    replace v with i by congruence. exact H1.
  - now apply IH.
Qed.

(** X7. The first traversal of a scene by a new session adds to the world
    exactly one body per collider node, in traversal order and after the
    bodies the world had, and two different collider nodes never share a
    body. *)
Theorem X7_one_body_per_collider (scene : Object3D.t) (w : World.t) :
  world_wf w ->
  List.NoDup (List.map Object3D.id (Object3D.traverse scene)) ->
  let r := snd (pass1_all (Object3D.traverse scene) (newRigger w)) in
  World.bodies (world r) =
    World.bodies w ++
    seq (List.length (World.objects w))
        (List.length (List.filter (fun o => collider_tag (tag_of o))
                                  (Object3D.traverse scene))) /\
  (forall o1 o2 i,
     map_get (obj2bod r) o1 = Some i -> map_get (obj2bod r) o2 = Some i ->
     Object3D.id o1 = Object3D.id o2).
Proof.
  intros W Hnd r.
  destruct (pass1_all_map (Object3D.traverse scene) (newRigger w) Hnd
              (List.Forall_nil _)) as [Hmap _].
  cbv zeta in Hmap. fold r in Hmap. cbn [newRigger obj2bod app world] in Hmap.
  destruct (pass1_all_tracks w (Object3D.traverse scene) [] (newRigger w)
              W (tracks_new w) Hnd (fun _ _ F => F)) as [seen T].
  fold r in T. split.
  - rewrite (tr_bodies _ _ _ T), Hmap, colliders_from_snd. reflexivity.
  - intros o1 o2 i H1 H2.
    apply map_get_In in H1 as (k1 & Hin1 & <-).
    apply map_get_In in H2 as (k2 & Hin2 & <-).
    f_equal. apply (NoDup_snd_functional (obj2bod r) k1 k2 i); try assumption.
    rewrite Hmap, colliders_from_snd. apply List.seq_NoDup.
Qed.

(** The theorem at the example scene: the bodies 0 and 1. *)
Lemma X7_one_body_witness :
  world_wf World.empty /\
  List.NoDup (List.map Object3D.id (Object3D.traverse Scenes.root)) /\
  World.bodies (world (snd (pass1_all (Object3D.traverse Scenes.root)
                              (newRigger World.empty)))) = [0%nat; 1%nat].
Proof.
  assert (W : world_wf World.empty) by (repeat split; constructor).
  split; [exact W|]. split; [exact scenes_root_ids|].
  exact (proj1 (X7_one_body_per_collider Scenes.root World.empty W
                  scenes_root_ids)).
Defined.

(** ** Lookup of constraints by name *)

Lemma find_first {T} (p : T -> bool) pre c post :
  List.Forall (fun d => p d = false) pre -> p c = true ->
  List.find p (pre ++ c :: post) = Some c.
Proof.
  induction 1 as [|d pre Hd _ IH]; intros Hc; cbn [app List.find].
  - now rewrite Hc.
  - rewrite Hd. now apply IH.
Qed.

(** X8. The lookups of constraints by name return the first tracked
    constraint that carries the name, and none of them looks at its kind:
    when that constraint wraps a cannon-es constraint, the four typed
    getters all return that constraint; when it is a sync link or a cable,
    they return [undefined], also when a joint of the same name follows in
    the list. *)
Theorem X8_constraint_lookup_first_match
    (r : Rigger) (pre post : list RigConstraint) (c : RigConstraint)
    (n : option string) :
  constraints r = pre ++ c :: post ->
  List.Forall (fun d => constraint_name d <> n) pre ->
  constraint_name c = n ->
  getConstraintByName r n = Some c /\
  getCableConstraint r n = Some c /\
  getSyncConstraint r n = Some c /\
  (forall o k, c = ThreeJsCannonEsConstraint o k ->
     getLockConstraint r n = k /\ getHingeConstraint r n = k /\
     getPointConstraint r n = k /\ getDistanceConstraint r n = k) /\
  ((forall o k, c <> ThreeJsCannonEsConstraint o k) ->
     getLockConstraint r n = None /\ getHingeConstraint r n = None /\
     getPointConstraint r n = None /\ getDistanceConstraint r n = None).
Proof.
  intros Hc Hpre Hname.
  assert (H : getConstraintByName r n = Some c).
  { unfold getConstraintByName. rewrite Hc. apply find_first.
    - eapply List.Forall_impl; [|exact Hpre]. intros d Hd.
      now apply bool_decide_eq_false.
    - now apply bool_decide_eq_true. }
  unfold getCableConstraint, getSyncConstraint, getLockConstraint,
    getHingeConstraint, getPointConstraint, getDistanceConstraint.
  rewrite H. repeat split.
  1-4: intros; subst c; reflexivity.
  all: intros; destruct c as [o k| |]; [now destruct (H0 o k)|reflexivity..].
Qed.

(** The theorem at a list in which a sync link named "Mesh" comes before a
    lock joint of the same name. *)
Lemma X8_constraint_lookup_witness :
  let link := SyncConstraint
                (mkSyncLink SyncSkipExample.orphan 0 Vector3.zero
                   Quaternion.identity false) in
  let lock := ThreeJsCannonEsConstraint SyncSkipExample.orphan
                (Some (mkCannonConstraint 0 Lock (RigidBody 0) (RigidBody 1)
                         false)) in
  let r := with_constraints (newRigger World.empty) [link; lock] in
  constraints r = [] ++ link :: [lock] /\
  constraint_name link = Some "Mesh"%string /\
  getSyncConstraint r (Some "Mesh"%string) = Some link /\
  getLockConstraint r (Some "Mesh"%string) = None.
Proof.
  intros link lock r.
  destruct (X8_constraint_lookup_first_match r [] [lock] link
              (Some "Mesh"%string) eq_refl (List.Forall_nil _) eq_refl)
    as (_ & _ & H3 & _ & H5).
  split; [reflexivity|]. split; [reflexivity|]. split; [exact H3|].
  apply H5. intros o k E. discriminate E.
Defined.

(** ** The standard joints *)

Lemma standard_kind_cases t kc :
  standard_kind t = Some kc ->
  (t = RigType.DistanceConstraint /\ kc = (Distance, true)) \/
  (t = RigType.PointConstraint /\ kc = (PointToPoint, true)) \/
  (t = RigType.HingeConstraint /\ kc = (Hinge, false)) \/
  (t = RigType.LockConstraint /\ kc = (Lock, false)).
Proof.
  unfold standard_kind.
  destruct (Z.eqb_spec t RigType.DistanceConstraint); [intros [= <-]; auto|].
  destruct (Z.eqb_spec t RigType.PointConstraint); [intros [= <-]; auto|].
  destruct (Z.eqb_spec t RigType.HingeConstraint); [intros [= <-]; auto|].
  destruct (Z.eqb_spec t RigType.LockConstraint); [intros [= <-]; auto 6|].
  discriminate.
Qed.

Lemma pass2_standard o r t kind collide :
  threejscannones_type (Object3D.userData o) = TagNumber t ->
  standard_kind t = Some (kind, collide) ->
  pass2 o r =
  track o (createStandardConstraint kind collide
             (getBodyByName r (opt_name (threejscannones_A (Object3D.userData o))))
             (getBodyByName r (opt_name (threejscannones_B (Object3D.userData o))))
             r).
Proof.
  intros Ht Hk. unfold pass2. rewrite Ht.
  apply standard_kind_cases in Hk as [[-> E]|[[-> E]|[[-> E]|[-> E]]]];
    injection E as -> ->; reflexivity.
Qed.

(** X9. A distance, point, hinge or lock node whose references A and B
    both resolve gives one cannon-es constraint of the matching kind
    between the two bodies (hinge and lock with [collideConnected] off): it
    is added at the end of the constraints of the world and tracked at the
    end of the constraint list, bodies and map are left alone, and when no
    earlier constraint carries the name of the node the typed getter finds
    it under that name. *)
Theorem X9_standard_joint_is_built
    (o : Object3D.t) (r : Rigger) (t : Z) (kind : ConstraintKind)
    (collide : bool) (a b : nat) :
  threejscannones_type (Object3D.userData o) = TagNumber t ->
  standard_kind t = Some (kind, collide) ->
  getBodyByName r (opt_name (threejscannones_A (Object3D.userData o))) = Some a ->
  getBodyByName r (opt_name (threejscannones_B (Object3D.userData o))) = Some b ->
  let k := mkCannonConstraint (World.fresh (world r)) kind
             (RigidBody a) (RigidBody b) collide in
  exists r',
    pass2 o r = Normal r' /\
    constraints r' = constraints r ++ [ThreeJsCannonEsConstraint o (Some k)] /\
    World.constraints (world r') = World.constraints (world r) ++ [k] /\
    World.bodies (world r') = World.bodies (world r) /\
    obj2bod r' = obj2bod r /\
    (List.Forall (fun d => constraint_name d <> name (Object3D.userData o))
                 (constraints r) ->
     getLockConstraint r' (name (Object3D.userData o)) = Some k /\
     getHingeConstraint r' (name (Object3D.userData o)) = Some k /\
     getPointConstraint r' (name (Object3D.userData o)) = Some k /\
     getDistanceConstraint r' (name (Object3D.userData o)) = Some k).
Proof.
  intros Ht Hk Ha Hb k.
  rewrite (pass2_standard o r t kind collide Ht Hk), Ha, Hb.
  eexists. split; [reflexivity|].
  cbn [World.gensym with_world with_constraints constraints world obj2bod
       World.addConstraint World.constraints World.bodies].
  repeat (split; [reflexivity|]).
  intros Hpre.
  unfold getLockConstraint, getHingeConstraint, getPointConstraint,
    getDistanceConstraint, getConstraintByName.
  cbn [constraints with_constraints].
  rewrite find_first; [repeat split| |now apply bool_decide_eq_true].
  eapply List.Forall_impl; [|exact Hpre]. intros d Hd.
  now apply bool_decide_eq_false.
Qed.

(** The theorem at the lock node "Glue" between the colliders "A" and "B",
    after the first traversal of its scene. *)
Lemma X9_standard_joint_witness :
  threejscannones_type (Object3D.userData JointExample.glue')
    = TagNumber RigType.LockConstraint /\
  standard_kind RigType.LockConstraint = Some (Lock, false) /\
  getBodyByName JointExample.afterPass1 (Some "A"%string) = Some 0%nat /\
  getBodyByName JointExample.afterPass1 (Some "B"%string) = Some 1%nat /\
  exists r',
    pass2 JointExample.glue' JointExample.afterPass1 = Normal r' /\
    World.constraints (world r') =
      [mkCannonConstraint 0 Lock (RigidBody 0) (RigidBody 1) false] /\
    getLockConstraint r' (Some "Glue"%string) =
      Some (mkCannonConstraint 0 Lock (RigidBody 0) (RigidBody 1) false).
Proof.
  split; [reflexivity|]. split; [reflexivity|].
  split; [reflexivity|]. split; [reflexivity|].
  destruct (X9_standard_joint_is_built JointExample.glue'
              JointExample.afterPass1 RigType.LockConstraint Lock false 0 1
              eq_refl eq_refl eq_refl eq_refl)
    as (r' & H1 & _ & H3 & _ & _ & H6).
  exists r'. split; [exact H1|]. split; [exact H3|].
  exact (proj1 (H6 (List.Forall_nil _))).
Defined.

(** X10. A point or hinge node with a reference that does not resolve: the
    callback of the second traversal calls a method on [undefined], which
    throws; nothing has been added to the world or to the constraint list
    at that point, and the traversal ends with the throw, the nodes that
    follow are not visited. *)
Theorem X10_unresolved_joint_throws
    (o : Object3D.t) (r : Rigger) (rest : list Object3D.t) :
  threejscannones_type (Object3D.userData o) = TagNumber RigType.PointConstraint
  \/ threejscannones_type (Object3D.userData o)
     = TagNumber RigType.HingeConstraint ->
  getBodyByName r (opt_name (threejscannones_A (Object3D.userData o))) = None
  \/ getBodyByName r (opt_name (threejscannones_B (Object3D.userData o))) = None ->
  pass2 o r = Throw TypeError r /\
  pass2_all (o :: rest) r = Throw TypeError r.
Proof.
  intros Ht Hab.
  assert (H : pass2 o r = Throw TypeError r).
  { destruct Ht as [Ht|Ht].
    - rewrite (pass2_standard o r _ PointToPoint true Ht eq_refl).
      unfold createStandardConstraint.
      destruct Hab as [-> | ->]; [reflexivity|].
      now destruct (getBodyByName r _).
    - rewrite (pass2_standard o r _ Hinge false Ht eq_refl).
      unfold createStandardConstraint.
      destruct Hab as [-> | ->]; [reflexivity|].
      now destruct (getBodyByName r _). }
  split; [exact H|]. cbn [pass2_all]. now rewrite H.
Qed.

(** The theorem at a hinge node whose B names no collider, after the first
    traversal of the scene with the colliders "A" and "B". *)
Lemma X10_unresolved_joint_witness :
  (threejscannones_type (Object3D.userData JointExample.brokenHinge)
     = TagNumber RigType.PointConstraint
   \/ threejscannones_type (Object3D.userData JointExample.brokenHinge)
      = TagNumber RigType.HingeConstraint) /\
  (getBodyByName JointExample.afterPass1 (Some "A"%string) = None
   \/ getBodyByName JointExample.afterPass1 (Some "Nobody"%string) = None) /\
  pass2_all [JointExample.brokenHinge; JointExample.glue']
            JointExample.afterPass1
  = Throw TypeError JointExample.afterPass1.
Proof.
  split; [right; reflexivity|]. split; [right; reflexivity|].
  exact (proj2 (X10_unresolved_joint_throws JointExample.brokenHinge
                  JointExample.afterPass1 [JointExample.glue']
                  (or_intror eq_refl) (or_intror eq_refl))).
Defined.

(** ** The per-frame update *)

Lemma writePose_userData o pm p q :
  Object3D.userData (writePose o pm p q) = Object3D.userData o.
Proof.
  unfold writePose. destruct (poseToWrite o pm (p, q)) as [p' q']. reflexivity.
Qed.

Lemma sync_update_userData s body pm :
  Object3D.userData (sync_obj (sync_update s body pm))
  = Object3D.userData (sync_obj s).
Proof.
  unfold sync_update.
  destruct (composePose body _ _) as [p q]. cbn [sync_obj].
  rewrite writePose_userData. now destruct (hasInit s).
Qed.

Lemma constraint_update_name w pm c :
  constraint_name (constraint_update w pm c) = constraint_name c.
Proof.
  destruct c as [o k|s|o cable la lb]; try reflexivity.
  cbn [constraint_update]. destruct (World.objects w !! sync_body s); [|reflexivity].
  unfold constraint_name. cbn [constraint_obj]. now rewrite sync_update_userData.
Qed.

Lemma constraint_update_removeFrom w pm c :
  constraint_removeFrom (constraint_update w pm c) = constraint_removeFrom c.
Proof.
  destruct c as [o k|s|o cable la lb]; try reflexivity.
  cbn [constraint_update]. now destruct (World.objects w !! sync_body s).
Qed.

Lemma constraint_update_cannon w pm c :
  cannonConstraint_of (Some (constraint_update w pm c))
  = cannonConstraint_of (Some c).
Proof.
  destruct c as [o k|s|o cable la lb]; try reflexivity.
  cbn [constraint_update]. now destruct (World.objects w !! sync_body s).
Qed.

(** What a function of the elements keeps when each element is replaced
    by one with the same value of the function. *)
Lemma map_imap_same {A B} (g : A -> B) l : forall (f : nat -> A -> A),
  (forall i a, g (f i a) = g a) ->
  List.map g (imap f l) = List.map g l.
Proof.
  induction l as [|a l IH]; intros f H; cbn [imap List.map]; [reflexivity|].
  rewrite H. f_equal. apply IH. intros i b. apply H.
Qed.

Lemma find_imap_cannon n l : forall (f : nat -> RigConstraint -> RigConstraint),
  (forall i c, constraint_name (f i c) = constraint_name c) ->
  (forall i c, cannonConstraint_of (Some (f i c)) = cannonConstraint_of (Some c)) ->
  cannonConstraint_of
    (List.find (fun c => bool_decide (constraint_name c = n)) (imap f l))
  = cannonConstraint_of
      (List.find (fun c => bool_decide (constraint_name c = n)) l).
Proof.
  induction l as [|c l IH]; intros f Hn Hc; cbn [imap List.find]; [reflexivity|].
  rewrite Hn. destruct (bool_decide (constraint_name c = n)); [apply Hc|].
  apply IH; intros i d; [apply Hn|apply Hc].
Qed.

Lemma removal_by_map cs : forall w,
  fold_left (fun w c => constraint_removeFrom c w) cs w
  = fold_left (fun w (h : World.t -> World.t) => h w)
              (List.map constraint_removeFrom cs) w.
Proof.
  induction cs as [|c cs IH]; intros w; cbn [List.map fold_left]; [reflexivity|].
  apply IH.
Qed.

(** X11. The per-frame update touches nothing but the poses of the nodes of
    sync links: the world, the map of bodies and the custom constraints
    are as before, the constraints keep their places and names, the typed
    getters return what they returned, and [clear()] afterwards leaves the
    same world as [clear()] before. *)
Theorem X11_update_keeps_bookkeeping (parents : nat -> Matrix4.t) (r : Rigger) :
  world (rigger_update parents r) = world r /\
  obj2bod (rigger_update parents r) = obj2bod r /\
  customConstraints (rigger_update parents r) = customConstraints r /\
  List.map constraint_name (constraints (rigger_update parents r))
    = List.map constraint_name (constraints r) /\
  (forall n, getLockConstraint (rigger_update parents r) n
             = getLockConstraint r n) /\
  world (clear (rigger_update parents r)) = world (clear r).
Proof.
  unfold rigger_update.
  cbn [world obj2bod customConstraints constraints with_constraints].
  repeat split.
  - apply map_imap_same. intros i c. apply constraint_update_name.
  - intros n. unfold getLockConstraint, getConstraintByName.
    cbn [constraints with_constraints]. apply find_imap_cannon; intros i c.
    + apply constraint_update_name.
    + apply constraint_update_cannon.
  - unfold clear.
    cbn [world obj2bod customConstraints constraints with_constraints].
    rewrite !removal_by_map, !List.map_rev.
    rewrite (map_imap_same constraint_removeFrom); [reflexivity|].
    intros i c. apply constraint_update_removeFrom.
Qed.

Lemma writePose_twice o pm p q pm' p' q' :
  writePose (writePose o pm p q) pm' p' q' = writePose o pm' p' q'.
Proof.
  unfold writePose at 1 3. rewrite poseToWrite_writePose.
  destruct (poseToWrite o pm' (p', q')) as [a b].
  unfold writePose. destruct (poseToWrite o pm (p, q)) as [c d]. reflexivity.
Qed.

(** The matrix of the parent is not read for a node without parent. *)
Lemma writePose_parentless o pm pm' p q :
  Object3D.parent o = None -> writePose o pm p q = writePose o pm' p q.
Proof. intros H. unfold writePose, poseToWrite. now rewrite H. Qed.

Lemma sync_update_eq s body pm :
  sync_update s body pm =
  let s0 := if hasInit s then s else initOffsets s body in
  let pose := composePose body (offsetPos s0) (offsetQuat s0) in
  mkSyncLink (writePose (sync_obj s0) pm (fst pose) (snd pose)) (sync_body s0)
    (offsetPos s0) (offsetQuat s0) (hasInit s0).
Proof.
  unfold sync_update. cbv zeta.
  now destruct (composePose body _ _).
Qed.

Lemma sync_update_twice s body pm pm' :
  (Object3D.parent (sync_obj s) <> None -> pm' = pm) ->
  sync_update (sync_update s body pm) body pm' = sync_update s body pm.
Proof.
  intros Hsame.
  rewrite (sync_update_eq (sync_update s body pm) body pm').
  rewrite (sync_update_eq s body pm). cbv zeta.
  set (s0 := if hasInit s then s else initOffsets s body).
  assert (H0 : hasInit s0 = true) by (unfold s0; now destruct (hasInit s) eqn:E).
  assert (Hobj : Object3D.parent (sync_obj s0) = Object3D.parent (sync_obj s))
    by (unfold s0; now destruct (hasInit s)).
  cbn [hasInit offsetPos offsetQuat sync_obj sync_body].
  rewrite H0. cbn [hasInit offsetPos offsetQuat sync_obj sync_body].
  rewrite writePose_twice. f_equal.
  destruct (Object3D.parent (sync_obj s)) as [m|] eqn:E.
  - now rewrite Hsame.
  - apply writePose_parentless. now rewrite Hobj.
Qed.

Lemma sync_update_body s body pm :
  sync_body (sync_update s body pm) = sync_body s.
Proof.
  rewrite sync_update_eq. cbv zeta. cbn [sync_body]. now destruct (hasInit s).
Qed.

(** X12. As long as the bodies do not move and every sync link of a node
    that has a parent finds the same world matrix for that parent as at
    the update before, a second update changes nothing. For the links of
    nodes without parent there is no condition on the scene. *)
Theorem X12_update_is_idempotent (p1 p2 : nat -> Matrix4.t) (r : Rigger) :
  (forall i s,
     constraints r !! i = Some (SyncConstraint s) ->
     Object3D.parent (sync_obj s) <> None -> p2 i = p1 i) ->
  rigger_update p2 (rigger_update p1 r) = rigger_update p1 r.
Proof.
  intros Hsame. unfold rigger_update.
  cbn [world constraints with_constraints].
  unfold with_constraints. cbn. f_equal.
  apply list_eq. intros i. rewrite !list_lookup_imap.
  destruct (constraints r !! i) as [c|] eqn:E; [|reflexivity].
  cbn [fmap option_fmap option_map]. f_equal.
  destruct c as [o k|s|o cable la lb]; try reflexivity.
  cbn [constraint_update].
  destruct (World.objects (world r) !! sync_body s) as [body|] eqn:Eb.
  - cbn [constraint_update]. rewrite sync_update_body, Eb.
    f_equal. apply sync_update_twice. intros Hpar. now apply (Hsame i s).
  - cbn [constraint_update]. now rewrite Eb.
Qed.

(** The theorem at a session with the link of the mesh without parent:
    whatever the two updates find as matrices. *)
Lemma X12_update_witness :
  let r := with_constraints (newRigger LockExample.world0)
             [SyncConstraint SyncExample.link] in
  let p1 := fun _ : nat => Matrix4.identity in
  let p2 := fun _ : nat => SyncExample.parentMatrixWorld in
  (forall i s,
     constraints r !! i = Some (SyncConstraint s) ->
     Object3D.parent (sync_obj s) <> None -> p2 i = p1 i) /\
  rigger_update p2 (rigger_update p1 r) = rigger_update p1 r.
Proof.
  intros r p1 p2.
  assert (H : forall i s,
            constraints r !! i = Some (SyncConstraint s) ->
            Object3D.parent (sync_obj s) <> None -> p2 i = p1 i).
  { intros [|i] s Hl Hp; cbn in Hl; [|discriminate Hl].
    injection Hl as <-. now destruct Hp. }
  split; [exact H|].
  exact (X12_update_is_idempotent p1 p2 r H).
Defined.





(** ** Locks of a cable *)

Lemma remove_first_constraint_absent l c :
  ~ In c (List.map cid l) -> World.remove_first_constraint l c = l.
Proof.
  induction l as [|d l IH]; cbn [World.remove_first_constraint List.map In];
    [reflexivity|].
  intros H. destruct (Nat.eqb_spec c (cid d)) as [E|_].
  - exfalso. apply H. left. now symmetry.
  - f_equal. apply IH. intros Hin. apply H. now right.
Qed.

(** X14. Locking an end of a cable that is already locked replaces the
    lock: the old point-to-point constraint leaves the world and a new one,
    between that end of the rig and the new body and with
    [collideConnected] off, is added at the end; the other end is not
    touched. With [undefined] for a body the end is released: the old lock
    leaves the world and nothing is added. *)
Theorem X14_relock_replaces
    (o : Object3D.t) (cable : CannonTubeRig) (old : CannonConstraint)
    (other : option CannonConstraint) (w : World.t)
    (pre post : list CannonConstraint) (b : nat) :
  World.constraints w = pre ++ old :: post ->
  ~ In (cid old) (List.map cid pre) ->
  let fresh := mkCannonConstraint (World.fresh w) PointToPoint
                 (TubeHead (tube_id cable)) (RigidBody b) false in
  let fresh' := mkCannonConstraint (World.fresh w) PointToPoint
                  (TubeTail (tube_id cable)) (RigidBody b) false in
  (fst (lockHeadTo (CableConstraint o cable (Some old) other) (Some b) w)
     = CableConstraint o cable (Some fresh) other /\
   World.constraints
     (snd (lockHeadTo (CableConstraint o cable (Some old) other) (Some b) w))
     = pre ++ post ++ [fresh]) /\
  (fst (lockTailTo (CableConstraint o cable other (Some old)) (Some b) w)
     = CableConstraint o cable other (Some fresh') /\
   World.constraints
     (snd (lockTailTo (CableConstraint o cable other (Some old)) (Some b) w))
     = pre ++ post ++ [fresh']) /\
  (fst (lockHeadTo (CableConstraint o cable (Some old) other) None w)
     = CableConstraint o cable None other /\
   World.constraints
     (snd (lockHeadTo (CableConstraint o cable (Some old) other) None w))
     = pre ++ post).
Proof.
  intros Hw Hpre fresh fresh'.
  assert (Hrem : World.remove_first_constraint (World.constraints w) (cid old)
                 = pre ++ post)
    by (rewrite Hw; now apply remove_first_constraint_head).
  unfold lockHeadTo, lockTailTo, lockXTo.
  cbn [World.removeConstraint World.gensym World.addConstraint World.fresh
       World.constraints fst snd].
  rewrite Hrem. repeat split; now rewrite <- app_assoc.
Qed.

(** X15. Locking a free end of a cable and releasing it again gives the
    constraints of the world back, when the world is one whose constraints
    were made before ([cid] below the next identity): lock, then release,
    is a round trip. *)
Theorem X15_lock_release_round_trip
    (o : Object3D.t) (cable : CannonTubeRig) (other : option CannonConstraint)
    (w : World.t) (b : nat) :
  world_wf w ->
  let locked := lockHeadTo (CableConstraint o cable None other) (Some b) w in
  let released := lockHeadTo (fst locked) None (snd locked) in
  List.length (World.constraints (snd locked))
    = S (List.length (World.constraints w)) /\
  fst released = CableConstraint o cable None other /\
  World.constraints (snd released) = World.constraints w /\
  World.bodies (snd released) = World.bodies w /\
  World.rigs (snd released) = World.rigs w.
Proof.
  intros (_ & Wc & _) locked released.
  unfold released, locked, lockHeadTo, lockXTo.
  cbn [World.removeConstraint World.gensym World.addConstraint World.fresh
       World.constraints World.bodies World.rigs fst snd cid].
  split; [rewrite length_app; cbn [List.length]; lia|].
  split; [reflexivity|]. split; [|split; reflexivity].
  rewrite <- (app_nil_r (World.constraints w)) at 2.
  change (World.remove_first_constraint
            (World.constraints w ++
             [mkCannonConstraint (World.fresh w) PointToPoint
                (TubeHead (tube_id cable)) (RigidBody b) false])
            (cid (mkCannonConstraint (World.fresh w) PointToPoint
                    (TubeHead (tube_id cable)) (RigidBody b) false))
          = World.constraints w ++ []).
  apply remove_first_constraint_head.
  intros Hin. apply in_map_iff in Hin as (k & E & Hk).
  pose proof (proj1 (List.Forall_forall _ _) Wc k Hk) as Hlt.
  cbv beta in Hlt. cbn [cid] in E. lia.
Qed.

(** The theorem at a rope without locks, in a world with two bodies and the
    rig of the rope. *)
Lemma X15_lock_release_witness :
  world_wf LockExample.world0 /\
  World.constraints
    (snd (lockHeadTo
            (fst (lockHeadTo LockExample.rope (Some 1%nat) LockExample.world0))
            None
            (snd (lockHeadTo LockExample.rope (Some 1%nat) LockExample.world0))))
  = [].
Proof.
  assert (W : world_wf LockExample.world0).
  { repeat split; repeat constructor. }
  split; [exact W|].
  destruct (X15_lock_release_round_trip CableExample.cable1
              (mkCannonTubeRig 0 5 Vector3.zero None true) None
              LockExample.world0 1 W) as (_ & _ & H & _).
  exact H.
Defined.

(** The theorem at a rope whose head is locked to the body 0 and is locked
    anew to the body 1. *)
Lemma X14_relock_witness :
  let old := mkCannonConstraint 0 PointToPoint (TubeHead 0) (RigidBody 0) false in
  let w := World.mk [SyncExample.driver; SyncExample.moved] 1 [0%nat; 1%nat]
             [old] [0%nat] in
  World.constraints w = [] ++ old :: [] /\
  ~ In (cid old) (List.map cid []) /\
  World.constraints
    (snd (lockHeadTo
            (CableConstraint CableExample.cable1
               (mkCannonTubeRig 0 5 Vector3.zero None true) (Some old) None)
            (Some 1%nat) w))
  = [mkCannonConstraint 1 PointToPoint (TubeHead 0) (RigidBody 1) false].
Proof.
  intros old w. split; [reflexivity|]. split; [intros []|].
  destruct (X14_relock_replaces CableExample.cable1
              (mkCannonTubeRig 0 5 Vector3.zero None true) old None w [] [] 1
              eq_refl (fun F => F)) as [[_ H] _].
  exact H.
Defined.

(** ** Cables *)

(** X16. A cable node with fewer than two children still gets a rig: of
    length 1, left at its default position and not oriented; the scratch
    vectors are not written. The rig is registered in the world and the
    cable constraint is tracked. *)
Theorem X16_cable_without_anchors
    (o : Object3D.t) (a b : option nat) (r : Rigger) :
  (List.length (Object3D.children o) < 2)%nat ->
  exists tube,
    cables (createCable o a b r) = cables r ++ [tube] /\
    tube_length tube = 1%R /\
    tube_position tube = Vector3.zero /\
    tube_lookAt tube = None /\
    tube_id tube = World.fresh (world r) /\
    World.rigs (world (createCable o a b r))
      = World.rigs (world r) ++ [tube_id tube] /\
    vec (createCable o a b r) = vec r /\
    vec2 (createCable o a b r) = vec2 r.
Proof.
  intros Hlen. unfold createCable.
  destruct (Object3D.children o) as [|c0 [|c1 rest]];
    [| |cbn [List.length] in Hlen; lia];
    cbn [with_scratch world constraints vec vec2 rot rot2 World.gensym];
    unfold newCableConstraint;
    destruct a as [a|], b as [b|];
    cbn [lockXTo World.gensym World.addRig World.fresh World.objects
         World.bodies World.constraints World.rigs World.addConstraint];
    (eexists; split;
     [unfold cables; cbn [with_constraints with_world constraints];
      rewrite flat_map_app; cbn [flat_map app]; reflexivity
     |repeat split]).
Qed.

(** The theorem at a cable node without children. *)
Lemma X16_cable_without_anchors_witness :
  let o := Example.node 0 (CableExample.cableData "Rope") Vector3.zero [] in
  (List.length (Object3D.children o) < 2)%nat /\
  exists tube,
    cables (createCable o None None (newRigger World.empty)) = [] ++ [tube] /\
    tube_length tube = 1%R.
Proof.
  intros o. split; [cbn; lia|].
  destruct (X16_cable_without_anchors o None None (newRigger World.empty)
              ltac:(cbn; lia)) as (tube & H1 & H2 & _).
  exists tube. split; [exact H1|exact H2].
Defined.

Lemma pass1_vec2 o r : vec2 (snd (pass1 o r)) = vec2 r.
Proof.
  destruct (collider_tag (tag_of o)) eqn:Htag.
  - unfold pass1.
    set (o1 := Object3D.set_userData o (normalizeUserData (Object3D.userData o))).
    change (threejscannones_type (Object3D.userData o1)) with (tag_of o).
    apply collider_tag_cases in Htag as [E|[E|E]]; rewrite E;
      cbn [tag_is RigType.BoxCollider RigType.SphereCollider
           RigType.CompoundCollider Z.eqb Pos.eqb];
      unfold createCollider, addCompoundShapes; cbn [World.alloc snd];
      try reflexivity.
    destruct (World.objects _ !! _); reflexivity.
  - now rewrite (pass1_not_collider o r Htag).
Qed.

Lemma pass1_all_vec2 nodes : forall r, vec2 (snd (pass1_all nodes r)) = vec2 r.
Proof.
  induction nodes as [|o nodes IH]; intros r; [reflexivity|].
  now rewrite pass1_all_cons, IH, pass1_vec2.
Qed.

Lemma pass1_fst o r : fst (pass1 o r) = scanned o.
Proof.
  unfold scanned. destruct (collider_tag (tag_of o)) eqn:Htag.
  - now apply pass1_fst_collider.
  - now rewrite (pass1_not_collider o r Htag).
Qed.

Lemma pass1_all_fst nodes : forall r,
  fst (pass1_all nodes r) = List.map scanned nodes.
Proof.
  induction nodes as [|o nodes IH]; intros r; [reflexivity|].
  cbn [pass1_all List.map]. pose proof (pass1_fst o r) as H.
  destruct (pass1 o r) as [o' r1]. specialize (IH r1).
  destruct (pass1_all nodes r1) as [rest r2]. cbn [fst] in *. now subst.
Qed.

Lemma scanned_type o :
  threejscannones_type (Object3D.userData (scanned o)) = tag_of o.
Proof. unfold scanned. now destruct (collider_tag (tag_of o)). Qed.

Lemma scanned_children o : Object3D.children (scanned o) = Object3D.children o.
Proof. unfold scanned. now destruct (collider_tag (tag_of o)). Qed.

(** What a node that is not a cable leaves of the cables and of the
    scratch vector, when the callback returns. *)
Lemma pass2_not_cable o r r' :
  threejscannones_type (Object3D.userData o) <> TagNumber RigType.Cable ->
  pass2 o r = Normal r' ->
  cables r' = cables r /\ vec2 r' = vec2 r.
Proof.
  intros Hc H. unfold pass2 in H.
  assert (Hstd : forall k collide a b,
            track o (createStandardConstraint k collide a b r) = Normal r' ->
            cables r' = cables r /\ vec2 r' = vec2 r).
  { intros k collide a b E. unfold createStandardConstraint in E.
    destruct a, b; try discriminate E. cbn [World.gensym track] in E.
    injection E as <-. unfold cables. cbn [constraints with_constraints].
    rewrite flat_map_app. cbn. now rewrite app_nil_r. }
  destruct (tag_is _ RigType.DistanceConstraint); [now apply Hstd in H|].
  destruct (tag_is _ RigType.PointConstraint); [now apply Hstd in H|].
  destruct (tag_is _ RigType.HingeConstraint); [now apply Hstd in H|].
  destruct (tag_is _ RigType.LockConstraint); [now apply Hstd in H|].
  destruct (tag_is _ RigType.SyncLocRot).
  { injection H as <-. unfold createSyncBetween.
    destruct (getBodyByName r _); [|now split].
    unfold cables. cbn [constraints with_constraints].
    rewrite flat_map_app. cbn. now rewrite app_nil_r. }
  destruct (tag_is _ RigType.Cable) eqn:E.
  { exfalso. apply Hc. unfold tag_is in E.
    destruct (threejscannones_type (Object3D.userData o)); try discriminate.
    apply Z.eqb_eq in E. now subst. }
  destruct (tag_is _ RigType.Custom); [|now injection H as <-].
  unfold createCustomConstraint in H.
  destruct (threejscannones_customId (Object3D.userData o)) as [id|];
    [|discriminate].
  destruct (falsy_id (Some id)); [discriminate|].
  destruct (customId2ConstraintFactory r !! id) as [create|]; [|discriminate].
  destruct (create _ (world r)) as [k w]. now injection H as <-.
Qed.

Lemma pass2_all_not_cable nodes : forall r r',
  List.Forall (fun o => threejscannones_type (Object3D.userData o)
                        <> TagNumber RigType.Cable) nodes ->
  pass2_all nodes r = Normal r' ->
  cables r' = cables r /\ vec2 r' = vec2 r.
Proof.
  induction nodes as [|o nodes IH]; intros r r' Hall H; cbn [pass2_all] in H.
  - now injection H as <-.
  - inversion Hall as [|? ? Ho Hrest]; subst.
    destruct (pass2 o r) as [r1|m r1] eqn:E; [|discriminate].
    destruct (pass2_not_cable o r r1 Ho E) as [H1 H2].
    destruct (IH r1 r' Hrest H) as [H3 H4]. split; congruence.
Qed.

Lemma tag_is_spec t n : {t = TagNumber n} + {t <> TagNumber n}.
Proof.
  destruct t as [|m|s]; try (right; discriminate).
  destruct (Z.eq_dec m n) as [->|N]; [now left|right; congruence].
Qed.

Lemma pass2_cables_grow o r r' :
  pass2 o r = Normal r' -> exists more, cables r' = cables r ++ more.
Proof.
  intros H.
  destruct (tag_is_spec (threejscannones_type (Object3D.userData o))
              RigType.Cable) as [E|N].
  - rewrite (pass2_cable o r E) in H. injection H as <-.
    unfold createCable.
    destruct (Object3D.children o) as [|c0 [|c1 rest]];
      cbn [with_scratch world constraints vec vec2 rot rot2 World.gensym];
      unfold newCableConstraint;
      destruct (getBodyByName r _) as [a|], (getBodyByName r _) as [b|];
      cbn [lockXTo World.gensym World.addRig World.fresh World.objects
           World.bodies World.constraints World.rigs World.addConstraint];
      (eexists; unfold cables; cbn [with_constraints with_world constraints];
       rewrite flat_map_app; cbn [flat_map app]; reflexivity).
  - exists []. rewrite app_nil_r. now apply (pass2_not_cable o r r' N).
Qed.

Lemma pass2_all_cables_grow nodes : forall r r',
  pass2_all nodes r = Normal r' -> exists more, cables r' = cables r ++ more.
Proof.
  induction nodes as [|o nodes IH]; intros r r' H; cbn [pass2_all] in H.
  - injection H as <-. exists []. now rewrite app_nil_r.
  - destruct (pass2 o r) as [r1|m r1] eqn:E; [|discriminate].
    destruct (pass2_cables_grow o r r1 E) as [m1 H1].
    destruct (IH r1 r' H) as [m2 H2].
    exists (m1 ++ m2). now rewrite H2, H1, app_assoc.
Qed.

Lemma pass1_constraints o r : constraints (snd (pass1 o r)) = constraints r.
Proof.
  destruct (collider_tag (tag_of o)) eqn:Htag.
  - destruct (pass1_collider o r Htag)
      as (o' & r' & body & Hp & _ & _ & _ & _ & Hcs & _).
    now rewrite Hp.
  - now rewrite (pass1_not_collider o r Htag).
Qed.

Lemma pass1_all_constraints nodes : forall r,
  constraints (snd (pass1_all nodes r)) = constraints r.
Proof.
  induction nodes as [|o nodes IH]; intros r; [reflexivity|].
  now rewrite pass1_all_cons, IH, pass1_constraints.
Qed.

(** A cable node with fewer than two children: one rig more, the scratch
    vector [vec2] as it was. *)
Lemma createCable_short o a b r :
  (List.length (Object3D.children o) < 2)%nat ->
  vec2 (createCable o a b r) = vec2 r /\
  exists tube, cables (createCable o a b r) = cables r ++ [tube].
Proof.
  intros Hlen. unfold createCable.
  destruct (Object3D.children o) as [|c0 [|c1 rest]];
    [| |cbn [List.length] in Hlen; lia];
    cbn [with_scratch world constraints vec vec2 rot rot2 World.gensym];
    unfold newCableConstraint;
    destruct a as [a|], b as [b|];
    cbn [lockXTo World.gensym World.addRig World.fresh World.objects
         World.bodies World.constraints World.rigs World.addConstraint];
    (split; [reflexivity|]; eexists;
     unfold cables; cbn [with_constraints with_world constraints];
     rewrite flat_map_app; cbn [flat_map app]; reflexivity).
Qed.

Lemma tag_is_true t n : tag_is t n = true <-> t = TagNumber n.
Proof.
  unfold tag_is. destruct t as [|m|s]; try (split; discriminate).
  rewrite Z.eqb_eq. split; [now intros ->|now intros [= ->]].
Qed.

(** The second traversal over nodes of which the cable nodes have fewer
    than two children: [vec2] is as before and every cable node has added
    one rig. *)
Lemma pass2_all_short_cables before : forall r r',
  List.Forall (fun x => tag_of x = TagNumber RigType.Cable ->
                        (List.length (Object3D.children x) < 2)%nat) before ->
  pass2_all (List.map scanned before) r = Normal r' ->
  vec2 r' = vec2 r /\
  exists earlier,
    cables r' = cables r ++ earlier /\
    List.length earlier
    = List.length (List.filter (fun x => tag_is (tag_of x) RigType.Cable)
                               before).
Proof.
  induction before as [|x before IH]; intros r r' Hall H;
    cbn [List.map pass2_all List.filter] in *.
  - injection H as <-. split; [reflexivity|]. exists [].
    now rewrite app_nil_r.
  - inversion Hall as [|? ? Hx Hrest]; subst.
    destruct (pass2 (scanned x) r) as [r1|m r1] eqn:E; [|discriminate].
    destruct (IH r1 r' Hrest H) as (V & earlier & C & L).
    destruct (tag_is_spec (tag_of x) RigType.Cable) as [T|T].
    + rewrite (proj2 (tag_is_true _ _) T). cbn [List.length].
      rewrite (pass2_cable (scanned x) r) in E by now rewrite scanned_type.
      injection E as <-.
      match type of V with
      | vec2 r' = vec2 (createCable ?n ?a ?b r) =>
          destruct (createCable_short n a b r) as (V1 & tube & C1);
          [rewrite scanned_children; now apply Hx|]
      end.
      split; [congruence|]. exists (tube :: earlier).
      rewrite C, C1, <- app_assoc. cbn [app List.length]. split; congruence.
    + assert (F : tag_is (tag_of x) RigType.Cable = false).
      { apply not_true_is_false. intros Ht. apply T. now apply tag_is_true. }
      rewrite F.
      destruct (pass2_not_cable (scanned x) r r1) as [C1 V1];
        [now rewrite scanned_type|exact E|].
      split; [congruence|]. exists earlier. split; congruence.
Qed.

(** X17. In a scene rigged right after [clear()], take the first cable
    node in traversal order that has two children or more (cable nodes
    with fewer children may come before it). [createCable] sets the
    position of its rig to the world position of the first child, makes it
    look at the world position of the second child and gives it their
    distance as length, whatever the session did before the [clear()]. The
    position is written as it is, while the rig is added to the parent of
    the cable node: the origin of the rig is at the first child when that
    parent is absent or has the identity as world matrix, and under a
    parent that is moved by [t] it is off by [t]. *)
Theorem X17_first_cable_after_clear
    (scene : Object3D.t) (r r' : Rigger) (before after : list Object3D.t)
    (o c0 c1 : Object3D.t) (others : list Object3D.t) :
  Object3D.traverse scene = before ++ o :: after ->
  List.Forall (fun x => tag_of x = TagNumber RigType.Cable ->
                        (List.length (Object3D.children x) < 2)%nat) before ->
  tag_of o = TagNumber RigType.Cable ->
  Object3D.children o = c0 :: c1 :: others ->
  rigScene scene (clear r) = Normal r' ->
  exists earlier tube later,
    cables r' = earlier ++ tube :: later /\
    List.length earlier
    = List.length (List.filter (fun x => tag_is (tag_of x) RigType.Cable)
                               before) /\
    tube_position tube = Object3D.getWorldPosition c0 /\
    tube_lookAt tube = Some (Object3D.getWorldPosition c1) /\
    tube_length tube =
      Vector3.distanceTo (Object3D.getWorldPosition c0)
                         (Object3D.getWorldPosition c1) /\
    (Object3D.parent o = None \/ Object3D.parent o = Some Matrix4.identity ->
     tube_world_position o tube = Object3D.getWorldPosition c0) /\
    (forall t, Object3D.parent o = Some (Matrix4.translation t) ->
     tube_world_position o tube
     = Vector3.add (Object3D.getWorldPosition c0) t).
Proof.
  intros Hsplit Hbefore Htag Hch H. unfold rigScene, rigNodes in H.
  pose proof (pass1_all_fst (Object3D.traverse scene) (clear r)) as Hfst.
  pose proof (pass1_all_vec2 (Object3D.traverse scene) (clear r)) as Hv.
  pose proof (pass1_all_constraints (Object3D.traverse scene) (clear r)) as Hcs.
  destruct (pass1_all (Object3D.traverse scene) (clear r)) as [nodes r1].
  cbn [fst snd] in *. subst nodes.
  rewrite Hsplit, List.map_app in H. cbn [List.map] in H.
  rewrite pass2_all_app in H.
  destruct (pass2_all (List.map scanned before) r1) as [r2|m r2] eqn:E2;
    [|discriminate].
  destruct (pass2_all_short_cables before r1 r2 Hbefore E2)
    as (Hv2 & earlier & Hc2 & Hlen).
  cbn [pass2_all] in H.
  assert (Ht : threejscannones_type (Object3D.userData (scanned o))
               = TagNumber RigType.Cable) by now rewrite scanned_type.
  rewrite (pass2_cable (scanned o) r2 Ht) in H.
  match type of H with
  | pass2_all _ (createCable ?x ?a ?b r2) = _ =>
      destruct (createCable_first x c0 c1 others a b r2)
        as (tube & C & P & L & Len);
      [now rewrite scanned_children|now rewrite Hv2, Hv|]
  end.
  destruct (pass2_all_cables_grow _ _ _ H) as [later Hl].
  exists earlier, tube, later.
  split.
  { rewrite Hl, C, Hc2. unfold cables at 1. rewrite Hcs. cbn [clear constraints].
    cbn [flat_map app]. now rewrite <- app_assoc. }
  split; [exact Hlen|]. split; [exact P|]. split; [exact L|].
  split; [exact Len|]. unfold tube_world_position. split.
  - intros [-> | ->]; [exact P|]. rewrite P.
    destruct (Object3D.getWorldPosition c0) as [x y z].
    unfold applyMatrix4, Matrix4.identity.
    cbn [Matrix4.e0 Matrix4.e1 Matrix4.e2 Matrix4.e4 Matrix4.e5 Matrix4.e6
         Matrix4.e8 Matrix4.e9 Matrix4.e10 Matrix4.e12 Matrix4.e13 Matrix4.e14
         Vector3.x Vector3.y Vector3.z].
    f_equal; ring.
  - intros t ->. rewrite P.
    destruct (Object3D.getWorldPosition c0) as [x y z], t as [tx ty tz].
    unfold applyMatrix4, Matrix4.translation, Vector3.add.
    cbn [Matrix4.e0 Matrix4.e1 Matrix4.e2 Matrix4.e4 Matrix4.e5 Matrix4.e6
         Matrix4.e8 Matrix4.e9 Matrix4.e10 Matrix4.e12 Matrix4.e13 Matrix4.e14
         Vector3.x Vector3.y Vector3.z].
    f_equal; ring.
Qed.

(** The theorem at the scene with two cables, rigged by a session that was
    cleared: the first cable looks at (3, 4, 0) and, its parent being at
    the origin of the world, starts at its first child. *)
Lemma X17_first_cable_witness :
  Object3D.traverse CableExample.scene =
    [CableExample.scene] ++ CableExample.cable1 ::
    [CableExample.head1; CableExample.tail1; CableExample.cable2;
     CableExample.head2; CableExample.tail2] /\
  List.Forall (fun x => tag_of x = TagNumber RigType.Cable ->
                        (List.length (Object3D.children x) < 2)%nat)
              [CableExample.scene] /\
  tag_of CableExample.cable1 = TagNumber RigType.Cable /\
  Object3D.children CableExample.cable1
    = CableExample.head1 :: CableExample.tail1 :: [] /\
  Object3D.parent CableExample.cable1 = Some Matrix4.identity /\
  exists r' earlier tube later,
    rigScene CableExample.scene (clear (newRigger World.empty)) = Normal r' /\
    cables r' = earlier ++ tube :: later /\
    tube_lookAt tube = Some (Vector3.mk 3 4 0) /\
    tube_world_position CableExample.cable1 tube = Vector3.mk 0 0 0.
Proof.
  assert (Hb : List.Forall
                 (fun x => tag_of x = TagNumber RigType.Cable ->
                           (List.length (Object3D.children x) < 2)%nat)
                 [CableExample.scene])
    by (constructor; [discriminate|constructor]).
  assert (Hp : Object3D.parent CableExample.cable1 = Some Matrix4.identity)
    by reflexivity.
  split; [reflexivity|]. split; [exact Hb|]. split; [reflexivity|].
  split; [reflexivity|]. split; [exact Hp|].
  destruct (rigScene CableExample.scene (clear (newRigger World.empty)))
    as [r'|m r''] eqn:E; [|exfalso; vm_compute in E; discriminate E].
  destruct (X17_first_cable_after_clear CableExample.scene
              (newRigger World.empty) r' [CableExample.scene]
              [CableExample.head1; CableExample.tail1; CableExample.cable2;
               CableExample.head2; CableExample.tail2]
              CableExample.cable1 CableExample.head1 CableExample.tail1 []
              eq_refl Hb eq_refl eq_refl E)
    as (earlier & tube & later & H1 & _ & _ & H3 & _ & H5 & _).
  exists r', earlier, tube, later. split; [reflexivity|].
  split; [exact H1|]. split; [exact H3|].
  exact (H5 (or_intror Hp)).
Defined.

(** ** Teardown, again *)

Lemma removal_keeps_objects cs : forall w,
  let w' := fold_left (fun w c => constraint_removeFrom c w) cs w in
  World.objects w' = World.objects w /\ World.fresh w' = World.fresh w.
Proof.
  induction cs as [|c cs IH]; intros w; cbn [fold_left]; [auto|].
  destruct (IH (constraint_removeFrom c w)) as [H1 H2]. cbv zeta in *.
  rewrite H1, H2.
  destruct c as [o [k|]|s|o cable [la|] [lb|]]; cbn; auto.
Qed.

Lemma removeBody_keeps_objects (entries : list (Object3D.t * nat)) : forall w,
  let w' := fold_left (fun w e => World.removeBody w (snd e)) entries w in
  World.objects w' = World.objects w /\ World.fresh w' = World.fresh w.
Proof.
  induction entries as [|e entries IH]; intros w; cbn [fold_left]; [auto|].
  destruct (IH (World.removeBody w (snd e))) as [H1 H2]. cbv zeta in *.
  now rewrite H1, H2.
Qed.

Lemma clear_keeps_objects r :
  World.objects (world (clear r)) = World.objects (world r) /\
  World.fresh (world (clear r)) = World.fresh (world r).
Proof.
  unfold clear. cbn [world].
  match goal with
  | |- context [fold_left _ (obj2bod r) ?w] =>
      destruct (removeBody_keeps_objects (obj2bod r) w) as [H1 H2]
  end.
  cbv zeta in H1, H2. rewrite H1, H2.
  apply (removal_keeps_objects (rev (constraints r)) (world r)).
Qed.

(** A rigger that starts with empty maps and lists on the world a tracked
    session leaves after [clear()] tracks what it adds to the world the
    first session started from. *)
Lemma tracks_after_clear w0 seen r r0 :
  world_wf w0 -> tracks w0 seen r ->
  world r0 = world (clear r) -> obj2bod r0 = [] -> constraints r0 = [] ->
  tracks w0 [] r0.
Proof.
  intros W T Hw Hm Hc.
  destruct (clear_restores w0 seen r W T) as (Hb & Hk & Hr & _ & _).
  destruct (clear_keeps_objects r) as [Ho Hf].
  constructor; rewrite ?Hw, ?Hm, ?Hc, ?Ho, ?Hf; cbn [List.map flat_map];
    rewrite ?app_nil_r; try assumption; try constructor.
  - apply (tr_objects _ _ _ T).
  - apply (tr_fresh _ _ _ T).
Qed.

Lemma rigScene_tracks w0 scene r r' :
  world_wf w0 -> tracks w0 [] r -> plain_scene scene ->
  rigScene scene r = Normal r' -> exists seen, tracks w0 seen r'.
Proof.
  intros W T [Hnd Hcustom] H. unfold rigScene, rigNodes in H.
  destruct (pass1_all_tracks w0 (Object3D.traverse scene) [] r
              W T Hnd (fun _ _ F => F)) as [seen T1].
  pose proof (pass1_all_types (Object3D.traverse scene) r) as Ht.
  destruct (pass1_all (Object3D.traverse scene) r) as [nodes r1].
  cbn [fst snd] in *. exists seen.
  apply (pass2_all_tracks w0 seen nodes r1 r' T1); [|exact H].
  apply List.Forall_forall. intros o Ho.
  apply (in_map (fun o => threejscannones_type (Object3D.userData o))) in Ho.
  rewrite Ht in Ho. apply in_map_iff in Ho as (o0 & E & Ho0). rewrite <- E.
  exact (proj1 (List.Forall_forall _ _) Hcustom o0 Ho0).
Qed.

Lemma scenes_root_plain : plain_scene Scenes.root.
Proof.
  split; [exact scenes_root_ids|].
  cbn; repeat constructor; discriminate.
Qed.

(** ** Teardown after a throw *)

Lemma pass1_factories o r :
  customId2ConstraintFactory (snd (pass1 o r)) = customId2ConstraintFactory r.
Proof.
  destruct (collider_tag (tag_of o)) eqn:Htag.
  - unfold pass1.
    set (o1 := Object3D.set_userData o (normalizeUserData (Object3D.userData o))).
    change (threejscannones_type (Object3D.userData o1)) with (tag_of o).
    apply collider_tag_cases in Htag as [E|[E|E]]; rewrite E;
      cbn [tag_is RigType.BoxCollider RigType.SphereCollider
           RigType.CompoundCollider Z.eqb Pos.eqb];
      unfold createCollider, addCompoundShapes; cbn [World.alloc snd];
      try reflexivity.
    destruct (World.objects _ !! _); reflexivity.
  - now rewrite (pass1_not_collider o r Htag).
Qed.

Lemma pass1_all_factories nodes : forall r,
  customId2ConstraintFactory (snd (pass1_all nodes r))
  = customId2ConstraintFactory r.
Proof.
  induction nodes as [|o nodes IH]; intros r; [reflexivity|].
  now rewrite pass1_all_cons, IH, pass1_factories.
Qed.

(** A standard joint leaves a tracked session tracked, built or not. *)
Lemma standard_session w0 seen k collide a b o r :
  tracks w0 seen r ->
  customId2ConstraintFactory r = ∅ ->
  let r' := session_after (track o (createStandardConstraint k collide a b r)) in
  tracks w0 seen r' /\ customId2ConstraintFactory r' = ∅.
Proof.
  intros T Hf. cbv zeta. rewrite <- Hf. clear Hf.
  destruct (track o (createStandardConstraint k collide a b r))
    as [r1|m r1] eqn:E; cbn [session_after].
  - split; [exact (standard_tracks _ _ _ _ _ _ _ _ _ T E)|].
    unfold createStandardConstraint in E.
    destruct a as [a|], b as [b|]; try discriminate E.
    cbn [World.gensym track] in E. now injection E as <-.
  - unfold createStandardConstraint in E.
    destruct a as [a|], b as [b|]; try discriminate E;
      cbn [track] in E; injection E as _ <-; now split.
Qed.

Lemma custom_without_factory o a b r :
  customId2ConstraintFactory r = ∅ ->
  session_after (createCustomConstraint o a b r) = r.
Proof.
  intros Hf. unfold createCustomConstraint.
  destruct (threejscannones_customId (Object3D.userData o)) as [id|];
    [|reflexivity].
  destruct (falsy_id (Some id)); [reflexivity|].
  now rewrite Hf, lookup_empty.
Qed.

Lemma pass2_session w0 seen o r :
  tracks w0 seen r ->
  customId2ConstraintFactory r = ∅ ->
  tracks w0 seen (session_after (pass2 o r)) /\
  customId2ConstraintFactory (session_after (pass2 o r)) = ∅.
Proof.
  intros T Hf. unfold pass2.
  destruct (tag_is _ RigType.DistanceConstraint);
    [now apply standard_session|].
  destruct (tag_is _ RigType.PointConstraint);
    [now apply standard_session|].
  destruct (tag_is _ RigType.HingeConstraint);
    [now apply standard_session|].
  destruct (tag_is _ RigType.LockConstraint);
    [now apply standard_session|].
  destruct (tag_is _ RigType.SyncLocRot).
  { cbn [session_after]. split; [now apply sync_tracks|].
    rewrite <- Hf. unfold createSyncBetween.
    now destruct (getBodyByName r _). }
  destruct (tag_is _ RigType.Cable).
  { cbn [session_after]. split; [now apply cable_tracks|].
    rewrite <- Hf. unfold createCable, newCableConstraint, lockXTo.
    destruct (Object3D.children o) as [|c0 [|c1 rest]];
      destruct (getBodyByName r (opt_name (threejscannones_A _)));
      destruct (getBodyByName r (opt_name (threejscannones_B _)));
      reflexivity. }
  destruct (tag_is _ RigType.Custom).
  - rewrite (custom_without_factory _ _ _ _ Hf). now split.
  - now split.
Qed.

Lemma pass2_all_session w0 seen nodes : forall r,
  tracks w0 seen r ->
  customId2ConstraintFactory r = ∅ ->
  tracks w0 seen (session_after (pass2_all nodes r)).
Proof.
  induction nodes as [|o nodes IH]; intros r T Hf; cbn [pass2_all];
    [exact T|].
  destruct (pass2_session w0 seen o r T Hf) as [T1 Hf1].
  destruct (pass2 o r) as [r1|m r1]; cbn [session_after] in *.
  - now apply IH.
  - exact T1.
Qed.

(** X18. In a session that registered no factory, [clear()] gives the
    bodies, the constraints and the cable rigs of the world back as they
    were before [rigScene], whether [rigScene] returned or threw (a joint
    with an unresolved body, a custom constraint without a factory): what a
    scene had added up to the throw is tracked and removed. *)
Theorem X18_clear_after_a_throw (scene : Object3D.t) (w0 : World.t) :
  world_wf w0 ->
  List.NoDup (List.map Object3D.id (Object3D.traverse scene)) ->
  let r := session_after (rigScene scene (newRigger w0)) in
  World.bodies (world (clear r)) = World.bodies w0 /\
  World.constraints (world (clear r)) = World.constraints w0 /\
  World.rigs (world (clear r)) = World.rigs w0.
Proof.
  intros W Hnd r.
  destruct (pass1_all_tracks w0 (Object3D.traverse scene) [] (newRigger w0)
              W (tracks_new w0) Hnd (fun _ _ F => F)) as [seen T1].
  pose proof (pass1_all_factories (Object3D.traverse scene) (newRigger w0))
    as Hf.
  assert (T : tracks w0 seen r).
  { subst r. unfold rigScene, rigNodes.
    destruct (pass1_all (Object3D.traverse scene) (newRigger w0))
      as [nodes r1].
    cbn [snd] in *. now apply pass2_all_session. }
  destruct (clear_restores w0 seen r W T) as (H1 & H2 & H3 & _).
  auto.
Qed.

Lemma custom_scene_ids :
  List.NoDup (List.map Object3D.id (Object3D.traverse CustomExample.scene)).
Proof. cbn. repeat constructor; cbn; intuition discriminate. Qed.

(** The theorem at the scene with two boxes and a custom constraint, in a
    session without a factory: [rigScene] throws after it made the two
    bodies, and [clear()] removes them. *)
Lemma X18_clear_after_a_throw_witness :
  world_wf World.empty /\
  List.NoDup (List.map Object3D.id (Object3D.traverse CustomExample.scene)) /\
  (exists m r,
     rigScene CustomExample.scene (newRigger World.empty) = Throw m r /\
     World.bodies (world r) = [0%nat; 1%nat]) /\
  World.bodies
    (world (clear (session_after
                     (rigScene CustomExample.scene (newRigger World.empty)))))
  = [].
Proof.
  assert (W : world_wf World.empty) by (repeat split; constructor).
  split; [exact W|]. split; [exact custom_scene_ids|]. split.
  - eexists. eexists. split; vm_compute; reflexivity.
  - exact (proj1 (X18_clear_after_a_throw CustomExample.scene World.empty W
                    custom_scene_ids)).
Defined.

(** ** Rigging a scene twice *)

Lemma tag_of_scanned o : tag_of (scanned o) = tag_of o.
Proof. unfold tag_of at 1. rewrite scanned_type. apply normalizeType_idem. Qed.

Lemma id_scanned o : Object3D.id (scanned o) = Object3D.id o.
Proof. unfold scanned. now destruct (collider_tag (tag_of o)). Qed.

Lemma ids_scanned nodes :
  List.map Object3D.id (List.map scanned nodes) = List.map Object3D.id nodes.
Proof.
  induction nodes as [|o nodes IH]; cbn [List.map]; [reflexivity|].
  now rewrite id_scanned, IH.
Qed.

Lemma colliders_scanned nodes :
  List.filter (fun o => collider_tag (tag_of o)) (List.map scanned nodes)
  = List.map scanned (List.filter (fun o => collider_tag (tag_of o)) nodes).
Proof.
  induction nodes as [|o nodes IH]; cbn [List.map List.filter]; [reflexivity|].
  rewrite tag_of_scanned.
  destruct (collider_tag (tag_of o)); cbn [List.map]; now rewrite IH.
Qed.

(** [map.set] on a key the map has: the entry is replaced where it is. *)
Lemma map_set_replace pre k v post o i :
  List.Forall (fun e => Object3D.id (fst e) <> Object3D.id o) pre ->
  Object3D.id k = Object3D.id o ->
  map_set (pre ++ (k, v) :: post) o i = pre ++ (o, i) :: post.
Proof.
  intros Hpre Hk.
  induction Hpre as [|[k' v'] pre Hk' _ IH]; cbn [app map_set].
  - now rewrite Hk, Nat.eqb_refl.
  - cbn [fst] in Hk'.
    destruct (Nat.eqb_spec (Object3D.id k') (Object3D.id o));
      [contradiction|]. now rewrite IH.
Qed.

(** The callback of the first traversal on a collider node, in a world
    whose bodies are all in its table: the new body is appended. *)
Lemma pass1_appends o r :
  collider_tag (tag_of o) = true ->
  List.Forall (fun b => (b < List.length (World.objects (world r)))%nat)
              (World.bodies (world r)) ->
  let i := List.length (World.objects (world r)) in
  let r' := snd (pass1 o r) in
  World.bodies (world r') = World.bodies (world r) ++ [i] /\
  List.length (World.objects (world r')) = S i /\
  obj2bod r' = map_set (obj2bod r) (rigged o) i.
Proof.
  intros Htag Hlt. cbv zeta.
  destruct (pass1_world o r Htag) as (_ & _ & _ & Hb).
  destruct (pass1_collider o r Htag)
    as (o' & r' & body & Hp & _ & Hobj & _ & Hmap & _).
  pose proof (pass1_fst_collider o r Htag) as Hfst.
  rewrite Hp in *. cbn [fst snd] in *. cbv zeta in Hb. subst o'.
  assert (Hfresh : World.includes (World.bodies (world r))
                     (List.length (World.objects (world r))) = false).
  { apply not_true_is_false. intros H. apply includes_In in H.
    pose proof (proj1 (List.Forall_forall _ _) Hlt _ H) as B.
    cbv beta in B. lia. }
  rewrite Hfresh in Hb. split; [exact Hb|]. split; [|exact Hmap].
  rewrite Hobj, length_app. cbn [List.length]. lia.
Qed.

(** The first traversal over nodes the session has scanned before: every
    collider node gets one more body, and its entry in the map is replaced
    by one for the new body. *)
Lemma pass1_all_rescan todo : forall done r i0,
  List.NoDup (List.map Object3D.id todo) ->
  List.Forall (fun e => ~ In (Object3D.id (fst e)) (List.map Object3D.id todo))
              done ->
  List.Forall (fun b => (b < List.length (World.objects (world r)))%nat)
              (World.bodies (world r)) ->
  obj2bod r = done ++ colliders_from todo i0 ->
  let r' := snd (pass1_all (List.map scanned todo) r) in
  let b := List.length (World.objects (world r)) in
  let n := List.length (List.filter (fun o => collider_tag (tag_of o)) todo) in
  obj2bod r' = done ++ colliders_from (List.map scanned todo) b /\
  World.bodies (world r') = World.bodies (world r) ++ seq b n /\
  List.length (World.objects (world r')) = (b + n)%nat.
Proof.
  induction todo as [|o todo IH]; intros done r i0 Hnd Hdone Hlt Hmap; cbv zeta.
  - cbn in *. rewrite !app_nil_r in *.
    split; [exact Hmap|split; [reflexivity|lia]].
  - cbn [List.map]. rewrite pass1_all_cons.
    cbn [List.map] in Hnd, Hdone. apply List.NoDup_cons_iff in Hnd as [Ho Hnd].
    cbn [colliders_from List.filter] in *. rewrite tag_of_scanned.
    destruct (collider_tag (tag_of o)) eqn:Htag.
    + destruct (pass1_appends (scanned o) r) as (Hb & Hlen & Hset);
        [now rewrite tag_of_scanned|exact Hlt|].
      cbv zeta in Hb, Hlen, Hset.
      rewrite Hmap in Hset.
      rewrite map_set_replace in Hset.
      2:{ eapply List.Forall_impl; [|exact Hdone].
          intros e He E. apply He. left.
          change (Object3D.id (rigged (scanned o))) with (Object3D.id (scanned o)) in E.
          rewrite id_scanned in E. now rewrite E. }
      2:{ change (Object3D.id (rigged (scanned o))) with (Object3D.id (scanned o)).
          now rewrite id_scanned. }
      destruct (IH (done ++ [(rigged (scanned o),
                              List.length (World.objects (world r)))])
                   (snd (pass1 (scanned o) r)) (S i0) Hnd)
        as (H1 & H2 & H3).
      * apply List.Forall_app. split.
        -- eapply List.Forall_impl; [|exact Hdone].
           intros e He Hin. apply He. now right.
        -- constructor; [|constructor]. cbn [fst].
           change (Object3D.id (rigged (scanned o)))
             with (Object3D.id (scanned o)).
           now rewrite id_scanned.
      * rewrite Hb, Hlen. apply List.Forall_app. split.
        -- eapply List.Forall_impl; [|exact Hlt]. intros x Hx. cbv beta in *. lia.
        -- constructor; [lia|constructor].
      * rewrite Hset, <- app_assoc. reflexivity.
      * cbv zeta in H1, H2, H3. rewrite H1, H2, H3, Hb, Hlen, <- !app_assoc.
        cbn [app List.length seq]. split; [reflexivity|].
        split; [reflexivity|lia].
    + rewrite (pass1_not_collider (scanned o) r)
        by now rewrite tag_of_scanned.
      cbn [snd]. apply (IH done r i0 Hnd); try assumption.
      eapply List.Forall_impl; [|exact Hdone].
      intros e He Hin. apply He. now right.
Qed.

(** What a node that is not a custom constraint leaves of the bodies,
    when the callback of the second traversal returns. *)
Lemma pass2_keeps_bodies o r r' :
  threejscannones_type (Object3D.userData o) <> TagNumber RigType.Custom ->
  pass2 o r = Normal r' ->
  obj2bod r' = obj2bod r /\
  World.bodies (world r') = World.bodies (world r) /\
  World.objects (world r') = World.objects (world r).
Proof.
  intros Hc H. unfold pass2 in H.
  assert (Hstd : forall k collide a b,
            track o (createStandardConstraint k collide a b r) = Normal r' ->
            obj2bod r' = obj2bod r /\
            World.bodies (world r') = World.bodies (world r) /\
            World.objects (world r') = World.objects (world r)).
  { intros k collide a b E. unfold createStandardConstraint in E.
    destruct a, b; try discriminate E. cbn [World.gensym track] in E.
    now injection E as <-. }
  destruct (tag_is _ RigType.DistanceConstraint); [now apply Hstd in H|].
  destruct (tag_is _ RigType.PointConstraint); [now apply Hstd in H|].
  destruct (tag_is _ RigType.HingeConstraint); [now apply Hstd in H|].
  destruct (tag_is _ RigType.LockConstraint); [now apply Hstd in H|].
  destruct (tag_is _ RigType.SyncLocRot).
  { injection H as <-. unfold createSyncBetween.
    now destruct (getBodyByName r _). }
  destruct (tag_is _ RigType.Cable).
  { injection H as <-. unfold createCable, newCableConstraint, lockXTo.
    destruct (Object3D.children o) as [|c0 [|c1 rest]];
      destruct (getBodyByName r (opt_name (threejscannones_A _)));
      destruct (getBodyByName r (opt_name (threejscannones_B _)));
      now repeat split. }
  destruct (tag_is _ RigType.Custom) eqn:E; [|now injection H as <-].
  exfalso. apply Hc. unfold tag_is in E.
  destruct (threejscannones_type (Object3D.userData o)); try discriminate.
  apply Z.eqb_eq in E. now subst.
Qed.

Lemma pass2_all_keeps_bodies nodes : forall r r',
  List.Forall (fun o => threejscannones_type (Object3D.userData o)
                        <> TagNumber RigType.Custom) nodes ->
  pass2_all nodes r = Normal r' ->
  obj2bod r' = obj2bod r /\
  World.bodies (world r') = World.bodies (world r) /\
  World.objects (world r') = World.objects (world r).
Proof.
  induction nodes as [|o nodes IH]; intros r r' Hall H; cbn [pass2_all] in H.
  - now injection H as <-.
  - inversion Hall as [|? ? Ho Hrest]; subst.
    destruct (pass2 o r) as [r1|m r1] eqn:E; [|discriminate].
    destruct (pass2_keeps_bodies o r r1 Ho E) as (H1 & H2 & H3).
    destruct (IH r1 r' Hrest H) as (H4 & H5 & H6).
    repeat split; congruence.
Qed.

(** The nodes the second traversal visits carry no custom tag when the
    nodes of the scene carry none. *)
Lemma scanned_not_custom nodes r :
  List.Forall (fun o => tag_of o <> TagNumber RigType.Custom) nodes ->
  List.Forall (fun o => threejscannones_type (Object3D.userData o)
                        <> TagNumber RigType.Custom)
              (fst (pass1_all nodes r)).
Proof.
  intros H. rewrite pass1_all_fst. apply List.Forall_forall. intros o Ho.
  apply in_map_iff in Ho as (o0 & <- & Ho0). rewrite scanned_type.
  exact (proj1 (List.Forall_forall _ _) H o0 Ho0).
Qed.

(** X19. [rigScene] does not look for the bodies of an earlier call. When
    a scene without custom constraints is rigged a second time by the same
    session with no [clear()] in between, every collider node gets a second
    body; the map keeps the second body only, so that the [clear()] that
    follows removes the second bodies and leaves those of the first call
    in the world. *)
Theorem X19_rigging_twice_leaks
    (scene : Object3D.t) (w0 : World.t) (r1 r2 : Rigger) :
  world_wf w0 ->
  plain_scene scene ->
  rigScene scene (newRigger w0) = Normal r1 ->
  rigNodes (List.map scanned (Object3D.traverse scene)) r1 = Normal r2 ->
  let a := List.length (World.objects w0) in
  let n := List.length (List.filter (fun o => collider_tag (tag_of o))
                                    (Object3D.traverse scene)) in
  List.map snd (obj2bod r1) = seq a n /\
  List.map snd (obj2bod r2) = seq (a + n) n /\
  World.bodies (world r2) = World.bodies w0 ++ seq a n ++ seq (a + n) n /\
  World.bodies (world (clear r2)) = World.bodies w0 ++ seq a n.
Proof.
  intros W [Hnd Hcustom] E1 E2 a n.
  pose proof W as (Wb & _ & _).
  (* the first call *)
  destruct (rigScene_tracks w0 scene (newRigger w0) r1 W (tracks_new w0)
              (conj Hnd Hcustom) E1) as [seen T1].
  unfold rigScene, rigNodes in E1.
  destruct (pass1_all_map (Object3D.traverse scene) (newRigger w0) Hnd
              (List.Forall_nil _)) as [Hmap Hlen].
  pose proof (scanned_not_custom (Object3D.traverse scene) (newRigger w0)
                Hcustom) as Hc1.
  destruct (pass1_all (Object3D.traverse scene) (newRigger w0))
    as [nodes1 p1].
  cbn [fst snd newRigger obj2bod world app] in Hmap, Hlen, Hc1.
  cbv zeta in Hmap, Hlen.
  destruct (pass2_all_keeps_bodies nodes1 p1 r1 Hc1 E1) as (M1 & _ & O1).
  rewrite <- M1 in Hmap. rewrite <- O1 in Hlen.
  assert (Hn : List.length (colliders_from (Object3D.traverse scene) a) = n).
  { rewrite <- (length_map snd), colliders_from_snd. apply length_seq. }
  fold a in Hmap, Hlen. rewrite Hn in Hlen.
  assert (B1 : World.bodies (world r1) = World.bodies w0 ++ seq a n).
  { rewrite (tr_bodies _ _ _ T1), Hmap, colliders_from_snd. reflexivity. }
  (* the second call *)
  unfold rigNodes in E2.
  destruct (pass1_all_rescan (Object3D.traverse scene) [] r1 a Hnd
              (List.Forall_nil _)) as (M2 & B2 & _).
  { rewrite B1, Hlen. apply List.Forall_app. split.
    - eapply List.Forall_impl; [|exact Wb]. intros x Hx. cbv beta in *.
      fold a in Hx. lia.
    - apply List.Forall_forall. intros x Hx. apply in_seq in Hx. lia. }
  { exact Hmap. }
  cbv zeta in M2, B2. cbn [app] in M2. rewrite Hlen in M2, B2. fold n in B2.
  assert (Hc2 : List.Forall
                  (fun o => threejscannones_type (Object3D.userData o)
                            <> TagNumber RigType.Custom)
                  (fst (pass1_all (List.map scanned (Object3D.traverse scene))
                          r1))).
  { apply scanned_not_custom. apply List.Forall_forall. intros o Ho.
    apply in_map_iff in Ho as (o0 & <- & Ho0). rewrite tag_of_scanned.
    exact (proj1 (List.Forall_forall _ _) Hcustom o0 Ho0). }
  destruct (pass1_all (List.map scanned (Object3D.traverse scene)) r1)
    as [nodes2 p2].
  cbn [fst snd] in M2, B2, Hc2.
  destruct (pass2_all_keeps_bodies nodes2 p2 r2 Hc2 E2) as (M3 & B3 & _).
  assert (V2 : List.map snd (obj2bod r2) = seq (a + n) n).
  { rewrite M3, M2, colliders_from_snd, colliders_scanned, length_map.
    reflexivity. }
  assert (Bodies2 :
            World.bodies (world r2) = (World.bodies w0 ++ seq a n) ++ seq (a + n) n).
  { now rewrite B3, B2, B1. }
  split; [now rewrite Hmap, colliders_from_snd|]. split; [exact V2|].
  split; [now rewrite Bodies2, <- app_assoc|].
  unfold clear. cbn [world].
  match goal with
  | |- context [fold_left _ (obj2bod r2) ?w] =>
      destruct (removeBody_fold (obj2bod r2) w) as (H1 & _)
  end.
  cbv zeta in H1. rewrite H1, clear_keeps_bodies, V2, Bodies2.
  apply remove_block. intros x Hx Hin. apply in_seq in Hx.
  apply in_app_or in Hin as [Hin|Hin].
  - pose proof (proj1 (List.Forall_forall _ _) Wb x Hin) as Hlt.
    cbv beta in Hlt. fold a in Hlt. lia.
  - apply in_seq in Hin. lia.
Qed.

(** The theorem at the example scene, rigged twice on the empty world: of
    the four bodies the two of the first call stay. *)
Lemma X19_rigging_twice_witness :
  world_wf World.empty /\
  plain_scene Scenes.root /\
  exists r1 r2,
    rigScene Scenes.root (newRigger World.empty) = Normal r1 /\
    rigNodes (List.map scanned (Object3D.traverse Scenes.root)) r1
      = Normal r2 /\
    World.bodies (world r2) = [0; 1; 2; 3]%nat /\
    World.bodies (world (clear r2)) = [0; 1]%nat.
Proof.
  assert (W : world_wf World.empty) by (repeat split; constructor).
  split; [exact W|]. split; [exact scenes_root_plain|].
  destruct (rigScene Scenes.root (newRigger World.empty)) as [r1|m r1] eqn:E1;
    [|vm_compute in E1; discriminate E1].
  destruct (rigNodes (List.map scanned (Object3D.traverse Scenes.root)) r1)
    as [r2|m r2] eqn:E2;
    [|vm_compute in E1; injection E1 as <-; vm_compute in E2; discriminate E2].
  exists r1, r2. split; [reflexivity|]. split; [exact E2|].
  destruct (X19_rigging_twice_leaks Scenes.root World.empty r1 r2 W
              scenes_root_plain E1 E2) as (_ & _ & H3 & H4).
  split; [exact H3|exact H4].
Defined.

(** ** One file after the other *)

Lemma rigScene_session w0 scene r :
  world_wf w0 -> tracks w0 [] r ->
  customId2ConstraintFactory r = ∅ ->
  List.NoDup (List.map Object3D.id (Object3D.traverse scene)) ->
  exists seen, tracks w0 seen (session_after (rigScene scene r)).
Proof.
  intros W T Hf Hnd.
  destruct (pass1_all_tracks w0 (Object3D.traverse scene) [] r
              W T Hnd (fun _ _ F => F)) as [seen T1].
  pose proof (pass1_all_factories (Object3D.traverse scene) r) as Hf1.
  exists seen. unfold rigScene, rigNodes.
  destruct (pass1_all (Object3D.traverse scene) r) as [nodes r1].
  cbn [snd] in *. apply pass2_all_session; congruence.
Qed.

(** A rigger with empty maps and lists tracks what it adds to the world
    it is made on. *)
Lemma tracks_start r0 :
  obj2bod r0 = [] -> constraints r0 = [] -> tracks (world r0) [] r0.
Proof.
  intros Hm Hc.
  constructor; rewrite ?Hm, ?Hc; cbn [List.map flat_map];
    rewrite ?app_nil_r; auto; constructor.
Qed.

(** The world of a session that tracks what it added to a well-formed
    world is well formed. *)
Lemma tracks_world_wf w0 seen r :
  world_wf w0 -> tracks w0 seen r -> world_wf (world r).
Proof.
  intros (Wb & Wc & Wr) T.
  pose proof (tr_objects _ _ _ T) as Ho. pose proof (tr_fresh _ _ _ T) as Hf.
  repeat split.
  - rewrite (tr_bodies _ _ _ T). apply List.Forall_app. split.
    + eapply List.Forall_impl; [|exact Wb]. intros i Hi. cbv beta in *. lia.
    + eapply List.Forall_impl; [|exact (tr_body_ids _ _ _ T)].
      intros i Hi. cbv beta in *. lia.
  - rewrite (tr_constraints _ _ _ T). apply List.Forall_app. split.
    + eapply List.Forall_impl; [|exact Wc]. intros k Hk. cbv beta in *. lia.
    + eapply List.Forall_impl; [|exact (tr_cids _ _ _ T)].
      intros k Hk. cbv beta in *. lia.
  - rewrite (tr_rigs _ _ _ T). apply List.Forall_app. split.
    + eapply List.Forall_impl; [|exact Wr]. intros t Ht. cbv beta in *. lia.
    + eapply List.Forall_impl; [|exact (tr_rig_ids _ _ _ T)].
      intros t Ht. cbv beta in *. lia.
Qed.

Lemma one_by_one_tracks w0 scenes : forall seen r,
  world_wf w0 -> tracks w0 seen r ->
  List.Forall (fun scene =>
                 List.NoDup (List.map Object3D.id (Object3D.traverse scene)))
              scenes ->
  exists seen', tracks w0 seen' (fst (demo_run (one_by_one scenes) (r, true))).
Proof.
  induction scenes as [|scene scenes IH]; intros seen r W T Hall.
  - now exists seen.
  - inversion Hall as [|? ? Hs Hrest]; subst.
    cbn [one_by_one flat_map app demo_run fold_left demo_step].
    match goal with
    | |- context [rigScene scene ?r0] =>
        pose proof (tracks_after_clear w0 seen r r0 W T
                      eq_refl eq_refl eq_refl) as T0;
        destruct (rigScene_session w0 scene r0 W T0 eq_refl Hs) as [seen1 T1]
    end.
    exact (IH seen1 _ W T1 Hrest).
Qed.

(** X20. The demo clears the rigger in place when a file is dropped and
    makes a new rigger on the same world when the file is loaded. The demo
    registers no factory; so, when every load is done before the next file
    is dropped, nothing is left behind: after any number of files, whether
    [rigScene] returned or threw for them, the world holds what it held at
    the start followed by the bodies the rigger in place tracks, and a
    [clear()] of that rigger gives the bodies, the constraints and the
    cable rigs of the start back. *)
Theorem X20_reloads_do_not_leak (scenes : list Object3D.t) (w0 : World.t) :
  world_wf w0 ->
  List.Forall (fun scene =>
                 List.NoDup (List.map Object3D.id (Object3D.traverse scene)))
              scenes ->
  let r := fst (demo_run (one_by_one scenes) (newRigger w0, false)) in
  World.bodies (world r) = World.bodies w0 ++ List.map snd (obj2bod r) /\
  World.bodies (world (clear r)) = World.bodies w0 /\
  World.constraints (world (clear r)) = World.constraints w0 /\
  World.rigs (world (clear r)) = World.rigs w0.
Proof.
  intros W Hall r.
  assert (T : exists seen, tracks w0 seen r).
  { subst r. destruct scenes as [|scene scenes].
    - exists []. apply tracks_new.
    - inversion Hall as [|? ? Hs Hrest]; subst.
      cbn [one_by_one flat_map app demo_run fold_left demo_step].
      change (mkRigger (world (newRigger w0)) [] [] ∅ ∅ (vec (newRigger w0))
                (vec2 (newRigger w0)) (rot (newRigger w0))
                (rot2 (newRigger w0)) (console (newRigger w0)))
        with (newRigger w0).
      destruct (rigScene_session w0 scene (newRigger w0) W (tracks_new w0)
                  eq_refl Hs) as [seen1 T1].
      exact (one_by_one_tracks w0 scenes seen1 _ W T1 Hrest). }
  destruct T as [seen T].
  destruct (clear_restores w0 seen r W T) as (H1 & H2 & H3 & _).
  split; [apply (tr_bodies _ _ _ T)|auto].
Qed.

(** The theorem at three files dropped on the empty world, each loaded
    before the next is dropped: the example scene, the scene whose custom
    constraint makes [rigScene] throw, and the example scene again. *)
Lemma X20_reloads_witness :
  world_wf World.empty /\
  List.Forall (fun scene =>
                 List.NoDup (List.map Object3D.id (Object3D.traverse scene)))
              [Scenes.root; CustomExample.scene; Scenes.root] /\
  List.length
    (World.bodies
       (world (fst (demo_run
                      (one_by_one [Scenes.root; CustomExample.scene; Scenes.root])
                      (newRigger World.empty, false))))) = 2%nat /\
  World.bodies
    (world (clear (fst (demo_run
                          (one_by_one
                             [Scenes.root; CustomExample.scene; Scenes.root])
                          (newRigger World.empty, false))))) = [].
Proof.
  assert (W : world_wf World.empty) by (repeat split; constructor).
  assert (P : List.Forall
                (fun scene =>
                   List.NoDup (List.map Object3D.id (Object3D.traverse scene)))
                [Scenes.root; CustomExample.scene; Scenes.root])
    by (constructor; [exact scenes_root_ids|];
        constructor; [exact custom_scene_ids|];
        constructor; [exact scenes_root_ids|constructor]).
  split; [exact W|]. split; [exact P|]. split; [vm_compute; reflexivity|].
  exact (proj1 (proj2 (X20_reloads_do_not_leak
                         [Scenes.root; CustomExample.scene; Scenes.root]
                         World.empty W P))).
Defined.

(** X22. When a second file is dropped before the load of the first is
    done, the demo leaves the first scene in the world: both drops find no
    rigger to clear, the rigger of the first load is replaced by the one
    of the second without being cleared, and the [clear()] of the rigger
    in place gives the world back as the first load left it, with the
    bodies, the constraints and the cable rigs of the first scene, which
    no rigger tracks any more. *)
Theorem X22_overlapping_loads_leak
    (first second : Object3D.t) (w0 : World.t) :
  world_wf w0 ->
  List.NoDup (List.map Object3D.id (Object3D.traverse first)) ->
  List.NoDup (List.map Object3D.id (Object3D.traverse second)) ->
  let r1 := session_after (rigScene first (newRigger w0)) in
  let r2 := fst (demo_run (overlapping first second) (newRigger w0, false)) in
  World.bodies (world r1) = World.bodies w0 ++ List.map snd (obj2bod r1) /\
  World.bodies (world (clear r2)) = World.bodies (world r1) /\
  World.constraints (world (clear r2)) = World.constraints (world r1) /\
  World.rigs (world (clear r2)) = World.rigs (world r1).
Proof.
  intros W H1 H2 r1 r2.
  destruct (rigScene_session w0 first (newRigger w0) W (tracks_new w0)
              eq_refl H1) as [seen1 T1].
  fold r1 in T1.
  pose proof (tracks_world_wf w0 seen1 r1 W T1) as W1.
  subst r2. cbn [overlapping demo_run fold_left demo_step fst].
  change (mkRigger (world (newRigger w0)) [] [] ∅ ∅ (vec (newRigger w0))
            (vec2 (newRigger w0)) (rot (newRigger w0))
            (rot2 (newRigger w0)) (console (newRigger w0)))
    with (newRigger w0).
  fold r1.
  match goal with
  | |- context [rigScene second ?r0] =>
      pose proof (tracks_start r0 eq_refl eq_refl) as T0;
      change (world r0) with (world r1) in T0;
      destruct (rigScene_session (world r1) second r0 W1 T0 eq_refl H2)
        as [seen2 T2];
      destruct (clear_restores (world r1) seen2 _ W1 T2) as (B & C & R & _)
  end.
  split; [apply (tr_bodies _ _ _ T1)|]. auto.
Qed.

(** The theorem at the example scene and the scene with two boxes, on the
    empty world: the two bodies of the example scene stay. *)
Lemma X22_overlapping_loads_witness :
  world_wf World.empty /\
  List.NoDup (List.map Object3D.id (Object3D.traverse Scenes.root)) /\
  List.NoDup (List.map Object3D.id (Object3D.traverse CustomExample.scene)) /\
  World.bodies
    (world (session_after (rigScene Scenes.root (newRigger World.empty))))
  = [0; 1]%nat /\
  World.bodies
    (world (clear (fst (demo_run
                          (overlapping Scenes.root CustomExample.scene)
                          (newRigger World.empty, false)))))
  = World.bodies
      (world (session_after (rigScene Scenes.root (newRigger World.empty)))).
Proof.
  assert (W : world_wf World.empty) by (repeat split; constructor).
  split; [exact W|]. split; [exact scenes_root_ids|].
  split; [exact custom_scene_ids|]. split; [vm_compute; reflexivity|].
  exact (proj1 (proj2 (X22_overlapping_loads_leak Scenes.root
                         CustomExample.scene World.empty W
                         scenes_root_ids custom_scene_ids))).
Defined.

(** ** A cable that was removed *)

Lemma remove_first_gone l x :
  List.NoDup l -> ~ In x (World.remove_first l x).
Proof.
  induction l as [|y l IH]; cbn [World.remove_first]; [tauto|].
  intros Hnd. apply List.NoDup_cons_iff in Hnd as [Hy Hnd].
  destruct (Nat.eqb_spec x y) as [->|N]; [exact Hy|].
  intros [E|H]; [now apply N|now apply (IH Hnd)].
Qed.

Lemma remove_first_absent l x : ~ In x l -> World.remove_first l x = l.
Proof.
  induction l as [|y l IH]; cbn [World.remove_first In]; [reflexivity|].
  intros H. destruct (Nat.eqb_spec x y) as [E|_].
  - exfalso. apply H. left. now symmetry.
  - f_equal. apply IH. intros Hin. apply H. now right.
Qed.

Lemma remove_first_constraint_incl l c x :
  In x (List.map cid (World.remove_first_constraint l c)) ->
  In x (List.map cid l).
Proof.
  induction l as [|d l IH]; cbn [World.remove_first_constraint List.map In];
    [tauto|].
  destruct (Nat.eqb c (cid d)); cbn [List.map In]; [now right|].
  intros [E|H]; [now left|right; now apply IH].
Qed.

Lemma remove_first_constraint_NoDup l c :
  List.NoDup (List.map cid l) ->
  List.NoDup (List.map cid (World.remove_first_constraint l c)).
Proof.
  induction l as [|d l IH]; cbn [World.remove_first_constraint List.map];
    [constructor|].
  intros Hnd. apply List.NoDup_cons_iff in Hnd as [Hd Hnd].
  destruct (Nat.eqb c (cid d)); [exact Hnd|].
  cbn [List.map]. constructor; [|now apply IH].
  intros H. apply Hd. now apply (remove_first_constraint_incl l c).
Qed.

Lemma remove_first_constraint_gone l c :
  List.NoDup (List.map cid l) ->
  ~ In c (List.map cid (World.remove_first_constraint l c)).
Proof.
  induction l as [|d l IH]; cbn [World.remove_first_constraint List.map];
    [tauto|].
  intros Hnd. apply List.NoDup_cons_iff in Hnd as [Hd Hnd].
  destruct (Nat.eqb_spec c (cid d)) as [->|N]; [exact Hd|].
  cbn [List.map]. intros [E|H]; [now apply N|now apply (IH Hnd)].
Qed.

(** X21. [removeFrom] of a cable whose tail is locked takes the lock out
    of the world but the cable keeps it in [lockToB] (the branch clears
    [lockToA] instead). In a world whose constraints and rigs are each
    there once this does no harm: the kept lock is no longer in the world,
    a second [removeFrom] changes nothing, and locking the tail again adds
    the new lock and nothing else. *)
Theorem X21_removed_cable_keeps_tail_lock
    (o : Object3D.t) (cable : CannonTubeRig)
    (la : option CannonConstraint) (kb : CannonConstraint)
    (w : World.t) (b : nat) :
  List.NoDup (List.map cid (World.constraints w)) ->
  List.NoDup (World.rigs w) ->
  let c := CableConstraint o cable la (Some kb) in
  let w1 := constraint_removeFrom c w in
  let c1 := after_removeFrom c in
  owned_constraints c1 = [kb] /\
  ~ In (cid kb) (List.map cid (World.constraints w1)) /\
  constraint_removeFrom c1 w1 = w1 /\
  World.constraints (snd (lockTailTo c1 (Some b) w1)) =
    World.constraints w1 ++
    [mkCannonConstraint (World.fresh w1) PointToPoint
       (TubeTail (tube_id cable)) (RigidBody b) false].
Proof.
  intros Hc Hr c w1 c1.
  assert (Hgone : ~ In (cid kb) (List.map cid (World.constraints w1))).
  { subst w1 c. destruct la as [ka|];
      cbn [constraint_removeFrom World.removeConstraint World.removeRig
           World.constraints].
    - apply remove_first_constraint_gone.
      now apply remove_first_constraint_NoDup.
    - now apply remove_first_constraint_gone. }
  assert (Hrig : ~ In (tube_id cable) (World.rigs w1)).
  { subst w1 c. destruct la as [ka|];
      cbn [constraint_removeFrom World.removeConstraint World.removeRig
           World.rigs]; now apply remove_first_gone. }
  split; [reflexivity|]. split; [exact Hgone|]. split.
  - subst c1 c. cbn [after_removeFrom constraint_removeFrom].
    unfold World.removeRig, World.removeConstraint.
    cbn [World.objects World.fresh World.bodies World.constraints World.rigs].
    rewrite (remove_first_constraint_absent _ _ Hgone).
    rewrite (remove_first_absent _ _ Hrig).
    now destruct w1.
  - subst c1 c. cbn [after_removeFrom lockTailTo lockXTo].
    cbn [World.removeConstraint World.gensym World.addConstraint
         World.constraints World.fresh snd].
    now rewrite (remove_first_constraint_absent _ _ Hgone).
Qed.

(** The theorem at a cable whose tail is locked: after [removeFrom] the
    world has no constraint and no rig, and removing again changes
    nothing. *)
Lemma X21_removed_cable_witness :
  List.NoDup (List.map cid (World.constraints LockExample.world1)) /\
  List.NoDup (World.rigs LockExample.world1) /\
  World.constraints (constraint_removeFrom LockExample.moored LockExample.world1)
    = [] /\
  constraint_removeFrom (after_removeFrom LockExample.moored)
    (constraint_removeFrom LockExample.moored LockExample.world1)
  = constraint_removeFrom LockExample.moored LockExample.world1.
Proof.
  assert (Hc : List.NoDup (List.map cid (World.constraints LockExample.world1)))
    by (cbn; repeat constructor; cbn; tauto).
  assert (Hr : List.NoDup (World.rigs LockExample.world1))
    by (cbn; repeat constructor; cbn; tauto).
  split; [exact Hc|]. split; [exact Hr|]. split; [reflexivity|].
  exact (proj1 (proj2 (proj2
           (X21_removed_cable_keeps_tail_lock CableExample.cable1
              (mkCannonTubeRig 0 5 Vector3.zero None true) None
              LockExample.tailLock LockExample.world1 0 Hc Hr)))).
Defined.
